(** * sbstck-dl: the fetch / extract / archive pipeline of [lib/extractor.go]

    A shallow embedding of the extractor library of sbstck-dl and the proofs
    of the properties its specification states about it.

    Conventions.  A Go [string] is a sequence of bytes: Rocq's [string]
    (a list of [ascii], one per byte).  A Go [int] is a [Z].  A [time.Time]
    is an instant, a [Z] counting nanoseconds since the Unix epoch.  An
    [error] is a small inductive type that keeps the wrapping structure of
    [fmt.Errorf("...: %w", err)]. *)

From Stdlib Require Import ZArith Lia Bool.
From Stdlib Require Import Ascii String.
From Stdlib Require Import DecimalString DecimalZ DecimalPos DecimalFacts.
From stdpp Require Import base option list sorting gmap strings.

#[local] Set Warnings "-register-all".

Local Open Scope string_scope.
Local Open Scope Z_scope.

(** The double quote and the backslash characters. *)
Definition dquote : ascii := Eval cbv in ascii_of_N 34.
Definition bslash : ascii := Eval cbv in ascii_of_N 92.

(** ** Go strings *)

Module GoStrings.

(** [len(s)] *)
Definition len (s : string) : Z := Z.of_nat (String.length s).

(** [strings.HasPrefix(s, prefix)] *)
Fixpoint HasPrefix (s prefix : string) {struct prefix} : bool :=
  match prefix, s with
  | EmptyString, _ => true
  | String _ _, EmptyString => false
  | String p prefix', String c s' =>
      if Ascii.eqb c p then HasPrefix s' prefix' else false
  end.

(** [strings.Index(s, substr)]: the byte offset of the first occurrence of
    [substr] in [s], or [-1]. *)
Fixpoint Index_from (i : Z) (s substr : string) : Z :=
  if HasPrefix s substr then i
  else match s with
       | EmptyString => -1
       | String _ s' => Index_from (i + 1) s' substr
       end.
Definition Index (s substr : string) : Z := Index_from 0 s substr.

(** [strings.LastIndex(s, substr)]: the byte offset of the last occurrence
    of [substr] in [s], or [-1].  [found] is the last occurrence seen
    so far in the left-to-right scan. *)
Fixpoint LastIndex_from (i found : Z) (s substr : string) : Z :=
  let found' := if HasPrefix s substr then i else found in
  match s with
  | EmptyString => found'
  | String _ s' => LastIndex_from (i + 1) found' s' substr
  end.
Definition LastIndex (s substr : string) : Z := LastIndex_from 0 (-1) s substr.

(** [strings.Contains(s, substr)] is [Index(s, substr) >= 0]. *)
Definition Contains (s substr : string) : bool := 0 <=? Index s substr.

(** The first [n] bytes of [s], and [s] without them. *)
Fixpoint take (n : nat) (s : string) : string :=
  match n, s with
  | S n', String c s' => String c (take n' s')
  | _, _ => EmptyString
  end.
Fixpoint drop (n : nat) (s : string) : string :=
  match n, s with
  | S n', String _ s' => drop n' s'
  | _, _ => s
  end.

(** The slice expression [s[lo:hi]].  Go panics unless
    [0 <= lo <= hi <= len(s)]; a panic is [None]. *)
Definition slice (s : string) (lo hi : Z) : option string :=
  if (0 <=? lo) && (lo <=? hi) && (hi <=? len s)
  then Some (take (Z.to_nat (hi - lo)) (drop (Z.to_nat lo) s))
  else None.

(** The white space of [unicode.IsSpace] in the ASCII range:
    ['\t'], ['\n'], ['\v'], ['\f'], ['\r'] and [' ']. *)
Definition isSpace (c : ascii) : bool :=
  let n := N_of_ascii c in
  ((9 <=? n) && (n <=? 13))%N || (n =? 32)%N.

(** The white space of [unicode.IsSpace] beyond ASCII, as UTF-8 encodes
    it.  Two bytes: U+0085 (C2 85) and U+00A0 (C2 A0). *)
Definition isSpace2 (a b : ascii) : bool :=
  let a := N_of_ascii a in
  let b := N_of_ascii b in
  ((a =? 194) && ((b =? 133) || (b =? 160)))%N.

(** Three bytes: U+1680 (E1 9A 80), U+2000 to U+200A (E2 80 80 to
    E2 80 8A), U+2028, U+2029 and U+202F (E2 80 A8, E2 80 A9, E2 80 AF),
    U+205F (E2 81 9F) and U+3000 (E3 80 80). *)
Definition isSpace3 (a b c : ascii) : bool :=
  let a := N_of_ascii a in
  let b := N_of_ascii b in
  let c := N_of_ascii c in
  (((a =? 225) && (b =? 154) && (c =? 128))
   || ((a =? 226) && (b =? 128)
       && (((128 <=? c) && (c <=? 138)) || (c =? 168) || (c =? 169) || (c =? 175)))
   || ((a =? 226) && (b =? 129) && (c =? 159))
   || ((a =? 227) && (b =? 128) && (c =? 128)))%N.

(** [strings.TrimLeftFunc(s, unicode.IsSpace)]: [utf8.DecodeRuneInString]
    reads one rune after the other from the front; a byte sequence that is
    not the encoding of a white space rune (ill-formed ones included, which
    decode to U+FFFD) ends the trimming. *)
Fixpoint TrimLeft_space (s : string) : string :=
  match s with
  | String a s1 =>
      if isSpace a then TrimLeft_space s1
      else
        match s1 with
        | String b s2 =>
            if isSpace2 a b then TrimLeft_space s2
            else
              match s2 with
              | String c s3 => if isSpace3 a b c then TrimLeft_space s3 else s
              | EmptyString => s
              end
        | EmptyString => s
        end
  | EmptyString => EmptyString
  end.

(** The bytes of [s] in reverse order, put before [acc]. *)
Fixpoint reverseOnto (s acc : string) : string :=
  match s with
  | String c s' => reverseOnto s' (String c acc)
  | EmptyString => acc
  end.

(** The same trimming on a reversed string: [utf8.DecodeLastRuneInString]
    reads the last rune, that is the encoding the string ends with. *)
Fixpoint TrimLeft_reversed (s : string) : string :=
  match s with
  | String c s1 =>
      if isSpace c then TrimLeft_reversed s1
      else
        match s1 with
        | String b s2 =>
            if isSpace2 b c then TrimLeft_reversed s2
            else
              match s2 with
              | String a s3 => if isSpace3 a b c then TrimLeft_reversed s3 else s
              | EmptyString => s
              end
        | EmptyString => s
        end
  | EmptyString => EmptyString
  end.

(** [strings.TrimRightFunc(s, unicode.IsSpace)] *)
Definition TrimRight_space (s : string) : string :=
  reverseOnto (TrimLeft_reversed (reverseOnto s EmptyString)) EmptyString.

(** [strings.TrimSpace(s)]: the white space runs at both ends go, the
    ASCII white space and the white space runes beyond it (the library's
    loops over ASCII bytes are a fast path of the same trimming). *)
Definition TrimSpace (s : string) : string :=
  TrimRight_space (TrimLeft_space s).

(** [strings.ReplaceAll(s, old, new)] for a one-byte [old]. *)
Fixpoint ReplaceAll_byte (s : string) (old : ascii) (new : string) : string :=
  match s with
  | EmptyString => EmptyString
  | String c s' =>
      if Ascii.eqb c old then new ++ ReplaceAll_byte s' old new
      else String c (ReplaceAll_byte s' old new)
  end.

(** [strings.Repeat(s, n)] *)
Fixpoint Repeat (s : string) (n : nat) : string :=
  match n with
  | O => EmptyString
  | S n' => s ++ Repeat s n'
  end.

(** The comparison [a < b] of two Go strings: byte-wise lexicographic. *)
Fixpoint ltb (a b : string) : bool :=
  match a, b with
  | _, EmptyString => false
  | EmptyString, String _ _ => true
  | String x a', String y b' =>
      if (N_of_ascii x <? N_of_ascii y)%N then true
      else if (N_of_ascii y <? N_of_ascii x)%N then false
      else ltb a' b'
  end.

(** Whether [s] is the empty string. *)
Definition isEmpty (s : string) : bool :=
  match s with EmptyString => true | _ => false end.

End GoStrings.
Import GoStrings.

(** ** Errors *)

(** A Go [error]: [errors.New(msg)], [fmt.Errorf(msg)], or
    [fmt.Errorf(prefix + ": %w", inner)]. *)
Inductive error : Type :=
| errors_New (msg : string)
| Errorf_w (prefix : string) (inner : error).

(** [err.Error()] *)
Fixpoint Error (e : error) : string :=
  match e with
  | errors_New msg => msg
  | Errorf_w prefix inner => prefix ++ ": " ++ Error inner
  end.

(** ** The data model *)

(** [type Post struct] *)
Record Post : Type := mkPost {
  Id : Z;
  PublicationId : Z;
  Type_ : string;
  Slug : string;
  PostDate : string;
  CanonicalUrl : string;
  PreviousPostSlug : string;
  NextPostSlug : string;
  CoverImage : string;
  Description : string;
  Subtitle : string;
  WordCount : Z;
  Title : string;
  BodyHTML : string
}.

(** The zero value [Post{}]. *)
Definition Post_zero : Post :=
  mkPost 0 0 EmptyString EmptyString EmptyString EmptyString EmptyString
         EmptyString EmptyString EmptyString EmptyString 0 EmptyString EmptyString.

Definition set_Subtitle (p : Post) (s : string) : Post :=
  mkPost (Id p) (PublicationId p) (Type_ p) (Slug p) (PostDate p)
         (CanonicalUrl p) (PreviousPostSlug p) (NextPostSlug p)
         (CoverImage p) (Description p) s (WordCount p) (Title p) (BodyHTML p).

Definition set_CoverImage (p : Post) (s : string) : Post :=
  mkPost (Id p) (PublicationId p) (Type_ p) (Slug p) (PostDate p)
         (CanonicalUrl p) (PreviousPostSlug p) (NextPostSlug p)
         s (Description p) (Subtitle p) (WordCount p) (Title p) (BodyHTML p).

(** A [time.Time] instant. *)
Definition Time : Type := Z.

(** [t.After(u)] *)
Definition After (t u : Time) : bool := u <? t.

(** [type ArchiveEntry struct] *)
Record ArchiveEntry : Type := mkArchiveEntry {
  entryPost : Post;
  FilePath : string;
  DownloadTime : Time
}.

(** [type Archive struct] *)
Record Archive : Type := mkArchive {
  Entries : list ArchiveEntry
}.

(** ** [sort.Slice] *)

(** [sort.Slice(x, less)] is Go's standard library.  On a slice of at most
    twelve elements it runs [insertionSortLessFunc]:
<<
    for i := a + 1; i < b; i++ {
        for j := i; j > a && data.Less(j, j-1); j-- { data.Swap(j, j-1) }
    }
>>
    which is what is embedded here.  The elements before index [i] are
    kept as a reversed list, whose head is the element at index [j-1].

    On a longer slice the library runs its pattern-defeating quicksort,
    which is not embedded.  Like the insertion sort it only swaps
    elements, and where [less] is a strict weak order on the elements it
    leaves them sorted; where [less] is not such an order the two
    algorithms give different results.  A statement below that holds of a
    long slice therefore rests on nothing but these two facts, and a
    statement that needs more than them is made of slices of at most
    twelve elements. *)
Section InsertionSort.
Context {A : Type} (less : A → A → bool).

(** The inner loop: element [x] sinks to the left past every element it
    is [less] than. *)
Fixpoint sink (x : A) (before : list A) : list A :=
  match before with
  | [] => [x]
  | y :: before' =>
      if less x y then y :: sink x before' else x :: before
  end.

(** The outer loop over the indices [i]. *)
Definition insertionSort_rev (l : list A) : list A :=
  fold_left (fun before x => sink x before) l [].

Definition sort_Slice (l : list A) : list A := reverse (insertionSort_rev l).
End InsertionSort.

(** ** The archive *)

Section ArchiveOrder.
(** [time.Parse(time.RFC3339, s)]: the instant on success, [None] on a
    parse error.  The archive only looks at whether parsing succeeds and
    at the order of the instants. *)
Variable time_Parse_RFC3339 : string → option Time.

(** The closure passed to [sort.Slice] in [sortEntries], on the two
    entries at indices [i] and [j]. *)
Definition entryLess (ei ej : ArchiveEntry) : bool :=
  match time_Parse_RFC3339 (PostDate (entryPost ei)),
        time_Parse_RFC3339 (PostDate (entryPost ej)) with
  | Some dateI, Some dateJ => After dateI dateJ
  | _, _ => ltb (Title (entryPost ei)) (Title (entryPost ej))
  end.

(** [func (a *Archive) sortEntries()] *)
Definition sortEntries (a : Archive) : Archive :=
  mkArchive (sort_Slice entryLess (Entries a)).

(** [func (a *Archive) AddEntry(post, filePath, downloadTime)] *)
Definition AddEntry (a : Archive) (post : Post) (filePath : string)
    (downloadTime : Time) : Archive :=
  let entry := mkArchiveEntry post filePath downloadTime in
  sortEntries (mkArchive (Entries a ++ [entry])).

(** The instant of an entry whose date parses. *)
Definition instantOf (e : ArchiveEntry) : Time :=
  default 0 (time_Parse_RFC3339 (PostDate (entryPost e))).

(** A run of [AddEntry] calls, one per entry of [es], in that order. *)
Definition addAll (a : Archive) (es : list ArchiveEntry) : Archive :=
  fold_left (fun a e => AddEntry a (entryPost e) (FilePath e) (DownloadTime e))
            es a.
End ArchiveOrder.

(** [func NewArchive() *Archive] *)
Definition NewArchive : Archive := mkArchive [].

(** ** [time.Parse(time.RFC3339, s)] *)

(** Go's standard library, embedded for the layout
    ["2006-01-02T15:04:05Z07:00"]: a four-digit year, a two-digit month and
    day, an hour of one or two digits, a two-digit minute and second, an
    optional fraction of a second behind a period or a comma (which the
    library reads although the layout has none), and a zone that is [Z] or
    a signed [hh:mm] offset.  The ranges are those the library checks. *)
Module RFC3339.

Definition digit (c : ascii) : option Z :=
  let n := N_of_ascii c in
  if ((48 <=? n) && (n <=? 57))%N then Some (Z.of_N n - 48) else None.

Definition num2 (a b : ascii) : option Z :=
  match digit a, digit b with
  | Some x, Some y => Some (10 * x + y)
  | _, _ => None
  end.

Definition num4 (a b c d : ascii) : option Z :=
  match num2 a b, num2 c d with
  | Some x, Some y => Some (100 * x + y)
  | _, _ => None
  end.

Definition isLeap (y : Z) : bool :=
  (y mod 4 =? 0) && (negb (y mod 100 =? 0) || (y mod 400 =? 0)).

Definition daysIn (m y : Z) : Z :=
  if m =? 2 then (if isLeap y then 29 else 28)
  else if (m =? 4) || (m =? 6) || (m =? 9) || (m =? 11) then 30
  else 31.

(** Days from 1970-01-01 to the civil date [y-m-d]. *)
Definition daysFromCivil (y m d : Z) : Z :=
  let y' := if m <=? 2 then y - 1 else y in
  let era := y' / 400 in
  let yoe := y' - era * 400 in
  let mp := if 2 <? m then m - 3 else m + 9 in
  let doy := (153 * mp + 2) / 5 + d - 1 in
  let doe := yoe * 365 + yoe / 4 - yoe / 100 + doy in
  era * 146097 + doe - 719468.

(** The digits of a fraction of a second, as nanoseconds: at most nine
    digits count.  Returns the nanoseconds and the rest of the input. *)
Fixpoint fraction (s : string) (scale acc : Z) : Z * string :=
  match s with
  | String c s' =>
      match digit c with
      | Some d => fraction s' (scale / 10) (acc + d * scale)
      | None => (acc, s)
      end
  | EmptyString => (acc, s)
  end.

(** The zone: [Z], or [+hh:mm] / [-hh:mm]; nothing may follow it.
    Returns the offset from UTC in seconds. *)
Definition zone (s : string) : option Z :=
  match s with
  | String "Z" EmptyString => Some 0
  | String sg (String h1 (String h2 (String ":" (String m1 (String m2 EmptyString))))) =>
      match num2 h1 h2, num2 m1 m2 with
      | Some hh, Some mm =>
          if (hh <=? 24) && (mm <=? 60) then
            if Ascii.eqb sg "+" then Some ((hh * 60 + mm) * 60)
            else if Ascii.eqb sg "-" then Some (- ((hh * 60 + mm) * 60))
            else None
          else None
      | _, _ => None
      end
  | _ => None
  end.

(** [getnum(value, false)]: a number of one or two digits, and the rest
    of the input. *)
Definition getnum (s : string) : option (Z * string) :=
  match s with
  | String a rest =>
      match digit a with
      | Some x =>
          match rest with
          | String b rest' =>
              match digit b with
              | Some y => Some (10 * x + y, rest')
              | None => Some (x, rest)
              end
          | EmptyString => Some (x, rest)
          end
      | None => None
      end
  | EmptyString => None
  end.

Definition commaOrPeriod (c : ascii) : bool :=
  Ascii.eqb c "." || Ascii.eqb c ",".

Definition Parse (s : string) : option Time :=
  match s with
  | String y1 (String y2 (String y3 (String y4 (String "-"
    (String mo1 (String mo2 (String "-"
    (String da1 (String da2 (String "T" clock)))))))))) =>
      match num4 y1 y2 y3 y4, num2 mo1 mo2, num2 da1 da2, getnum clock with
      | Some y, Some mo, Some d,
        Some (h, String ":" (String mi1 (String mi2 (String ":"
                (String se1 (String se2 rest)))))) =>
          match num2 mi1 mi2, num2 se1 se2 with
          | Some mi, Some sec =>
              if (1 <=? mo) && (mo <=? 12) && (1 <=? d) && (d <=? daysIn mo y)
                 && (h <=? 23) && (mi <=? 59) && (sec <=? 59)
              then
                let '(nsec, rest') :=
                  match rest with
                  | String p (String c r) =>
                      match commaOrPeriod p, digit c with
                      | true, Some _ => fraction (String c r) 100000000 0
                      | _, _ => (0, rest)
                      end
                  | _ => (0, rest)
                  end in
                match zone rest' with
                | Some off =>
                    Some ((((daysFromCivil y mo d * 24 + h) * 60 + mi) * 60
                           + sec - off) * 1000000000 + nsec)
                | None => None
                end
              else None
          | _, _ => None
          end
      | _, _, _, _ => None
      end
  | _ => None
  end.

End RFC3339.

(** ** Parsed documents *)

(** The node tree that [goquery.NewDocumentFromReader] builds (the
    [html.Node] tree of [golang.org/x/net/html]): text nodes, comments, and
    elements with their attributes and children.  A comment is also what
    the parser makes of an XML declaration and, outside SVG and MathML, of
    a CDATA section: the data of the comment is then what stands between
    the opening angle bracket with its exclamation mark and the next
    closing one. *)
Inductive Node : Type :=
| TextNode (data : string)
| CommentNode (data : string)
| ElementNode (tag : string) (attrs : list (string * string)) (children : list Node).

(** A CSS selector, as far as the extractor uses them: a tag name
    (["script"], ["url"], ["loc"], ["lastmod"]), a class ([".subtitle"]),
    and a tag with an attribute value (["meta[property='og:image']"]). *)
Inductive Selector : Type :=
| SelTag (tag : string)
| SelClass (class : string)
| SelTagAttr (tag attr val : string).

Module goquery.

Definition joinText (l : list string) : string := fold_right append EmptyString l.

(** The text content of a node: its text descendants, in document
    order. *)
Fixpoint nodeText (n : Node) : string :=
  match n with
  | TextNode d => d
  | CommentNode _ => EmptyString
  | ElementNode _ _ cs => joinText (map nodeText cs)
  end.

(** The proper descendants of a node in document order. *)
Fixpoint descendants (n : Node) : list Node :=
  match n with
  | TextNode _ | CommentNode _ => []
  | ElementNode _ _ cs => flat_map (fun c => c :: descendants c) cs
  end.

(** The first value of attribute [key]. *)
Fixpoint lookupAttr (key : string) (attrs : list (string * string)) : option string :=
  match attrs with
  | [] => None
  | (k, v) :: attrs' => if String.eqb k key then Some v else lookupAttr key attrs'
  end.

(** The white space at which the selector library ([cascadia]) splits a
    [class] attribute: space, tab, carriage return, line feed and form
    feed (the vertical tab is not among them). *)
Definition isClassSpace (c : ascii) : bool :=
  let n := N_of_ascii c in
  ((n =? 32) || (n =? 9) || (n =? 13) || (n =? 10) || (n =? 12))%N.

(** [matchInclude(val, s, false)] of the selector library: whether [val]
    is one of the pieces of [s] between its white space bytes.  [cur] is
    the piece being read; the loop ends when nothing is left, so an empty
    last piece is not compared. *)
Fixpoint matchInclude_from (val cur s : string) : bool :=
  match s with
  | EmptyString => negb (isEmpty cur) && String.eqb cur val
  | String c s' =>
      if isClassSpace c
      then String.eqb cur val || matchInclude_from val EmptyString s'
      else matchInclude_from val (cur ++ String c EmptyString) s'
  end.
Definition matchInclude (val s : string) : bool :=
  matchInclude_from val EmptyString s.

(** [matchAttribute(n, key, f)] of the selector library: whether [f]
    holds of the value of some attribute named [key]. *)
Definition matchAttribute (key : string) (f : string → bool)
    (attrs : list (string * string)) : bool :=
  existsb (fun a => String.eqb (fst a) key && f (snd a)) attrs.

(** The class selector [.class]. *)
Definition hasClass (class : string) (attrs : list (string * string)) : bool :=
  matchAttribute "class" (matchInclude class) attrs.

Definition matches (sel : Selector) (n : Node) : bool :=
  match n with
  | TextNode _ | CommentNode _ => false
  | ElementNode tag attrs _ =>
      match sel with
      | SelTag t => String.eqb tag t
      | SelClass c => hasClass c attrs
      | SelTagAttr t a v =>
          String.eqb tag t && matchAttribute a (fun v' => String.eqb v' v) attrs
      end
  end.

(** [sel.Find(selector)] from one node: the matching descendants, in
    document order. *)
Definition Find (sel : Selector) (n : Node) : list Node :=
  List.filter (matches sel) (descendants n).

(** [sel.First()] *)
Definition First (s : list Node) : list Node :=
  match s with
  | [] => []
  | n :: _ => [n]
  end.

(** [sel.Text()]: the text contents of the selected nodes, joined. *)
Definition Text (s : list Node) : string := joinText (map nodeText s).

(** [sel.Attr(name)]: the attribute of the first selected node, and
    whether it exists. *)
Definition Attr (name : string) (s : list Node) : option string :=
  match s with
  | ElementNode _ attrs _ :: _ => lookupAttr name attrs
  | _ => None
  end.

End goquery.

(** ** [encoding/json] *)

(** Go's standard library, embedded as far as the extractor calls it:
    [json.Unmarshal] into a [string] and into a [PostWrapper], and
    [json.Marshal] of a [PostWrapper] (used by the test helpers that build
    pages).  The decoder is the library's byte-at-a-time scanner, so a
    document that is not valid JSON as a whole is rejected before anything
    is stored. *)
Module json.

Inductive value : Type :=
| JNull
| JBool (b : bool)
| JNumber (lit : string)
| JString (s : string)
| JArray (es : list value)
| JObject (ms : list (string * value)).

Definition byte (c : ascii) : Z := Z.of_N (N_of_ascii c).
Definition chr (z : Z) : ascii := ascii_of_N (Z.to_N z).

(** *** UTF-8 *)

Definition isCont (lo hi : Z) (c : ascii) : bool :=
  (lo <=? byte c) && (byte c <=? hi).

(** The length of the well-formed UTF-8 sequence that starts with the
    byte [c] followed by [s], or [0] when there is none
    ([utf8.DecodeRune] then returns [RuneError] of width one).  Only
    called on [c >= 0x80]. *)
Definition utf8Len (c : ascii) (s : string) : nat :=
  let b := byte c in
  if (0xC2 <=? b) && (b <=? 0xDF) then
    match s with
    | String c1 _ => if isCont 0x80 0xBF c1 then 2%nat else 0%nat
    | _ => 0%nat
    end
  else if (0xE0 <=? b) && (b <=? 0xEF) then
    match s with
    | String c1 (String c2 _) =>
        let lo := if b =? 0xE0 then 0xA0 else 0x80 in
        let hi := if b =? 0xED then 0x9F else 0xBF in
        if isCont lo hi c1 && isCont 0x80 0xBF c2 then 3%nat else 0%nat
    | _ => 0%nat
    end
  else if (0xF0 <=? b) && (b <=? 0xF4) then
    match s with
    | String c1 (String c2 (String c3 _)) =>
        let lo := if b =? 0xF0 then 0x90 else 0x80 in
        let hi := if b =? 0xF4 then 0x8F else 0xBF in
        if isCont lo hi c1 && isCont 0x80 0xBF c2 && isCont 0x80 0xBF c3
        then 4%nat else 0%nat
    | _ => 0%nat
    end
  else 0%nat.

(** U+FFFD, the replacement character, in UTF-8. *)
Definition replacementChar : string :=
  String (chr 0xEF) (String (chr 0xBF) (String (chr 0xBD) EmptyString)).

(** [utf8.EncodeRune] *)
Definition EncodeRune (r : Z) : string :=
  if r <? 0x80 then String (chr r) EmptyString
  else if r <? 0x800 then
    String (chr (0xC0 + r / 64)) (String (chr (0x80 + r mod 64)) EmptyString)
  else if ((0xD800 <=? r) && (r <? 0xE000)) || (0x10FFFF <? r) then replacementChar
  else if r <? 0x10000 then
    String (chr (0xE0 + r / 4096))
      (String (chr (0x80 + (r / 64) mod 64)) (String (chr (0x80 + r mod 64)) EmptyString))
  else
    String (chr (0xF0 + r / 262144))
      (String (chr (0x80 + (r / 4096) mod 64))
        (String (chr (0x80 + (r / 64) mod 64)) (String (chr (0x80 + r mod 64)) EmptyString))).

(** *** String literals *)

Definition hexDigit (c : ascii) : option Z :=
  let b := byte c in
  if (48 <=? b) && (b <=? 57) then Some (b - 48)
  else if (97 <=? b) && (b <=? 102) then Some (b - 87)
  else if (65 <=? b) && (b <=? 70) then Some (b - 55)
  else None.

(** [getu4]: the code unit of the four hex digits of a [\u] escape. *)
Definition hex4 (a b c d : ascii) : option Z :=
  match hexDigit a, hexDigit b, hexDigit c, hexDigit d with
  | Some x, Some y, Some z, Some w => Some (((x * 16 + y) * 16 + z) * 16 + w)
  | _, _, _, _ => None
  end.

(** The character a one-letter escape stands for. *)
Definition simpleEscape (c : ascii) : option ascii :=
  if Ascii.eqb c dquote then Some dquote
  else if Ascii.eqb c bslash then Some bslash
  else if Ascii.eqb c "/" then Some "/"%char
  else if Ascii.eqb c "b" then Some (chr 8)
  else if Ascii.eqb c "f" then Some (chr 12)
  else if Ascii.eqb c "n" then Some (chr 10)
  else if Ascii.eqb c "r" then Some (chr 13)
  else if Ascii.eqb c "t" then Some (chr 9)
  else None.

Definition isSurrogate (r : Z) : bool := (0xD800 <=? r) && (r <? 0xE000).

(** [utf16.DecodeRune]: the code point of a surrogate pair, if it is
    one. *)
Definition decodeSurrogates (r1 r2 : Z) : option Z :=
  if (0xD800 <=? r1) && (r1 <? 0xDC00) && (0xDC00 <=? r2) && (r2 <? 0xE000)
  then Some ((r1 - 0xD800) * 1024 + (r2 - 0xDC00) + 0x10000)
  else None.

(** [unquote], on the bytes between the quotes of a string literal.
    [copy] counts the continuation bytes of a well-formed UTF-8 sequence
    still to be copied. *)
Fixpoint unquote (copy : nat) (s : string) {struct s} : option string :=
  match s with
  | EmptyString => Some EmptyString
  | String c s1 =>
      match copy with
      | S k => String c <$> unquote k s1
      | O =>
          if Ascii.eqb c bslash then
            match s1 with
            | EmptyString => None
            | String e s2 =>
                if Ascii.eqb e "u" then
                  match s2 with
                  | String h1 (String h2 (String h3 (String h4 s3))) =>
                      match hex4 h1 h2 h3 h4 with
                      | None => None
                      | Some rr =>
                          if isSurrogate rr then
                            match s3 with
                            | String b1 (String b2 (String g1 (String g2
                                (String g3 (String g4 s4))))) =>
                                match (if Ascii.eqb b1 bslash && Ascii.eqb b2 "u"
                                       then hex4 g1 g2 g3 g4 else None)
                                      ≫= decodeSurrogates rr with
                                | Some dec => append (EncodeRune dec) <$> unquote O s4
                                | None => append replacementChar <$> unquote O s3
                                end
                            | _ => append replacementChar <$> unquote O s3
                            end
                          else append (EncodeRune rr) <$> unquote O s3
                      end
                  | _ => None
                  end
                else
                  match simpleEscape e with
                  | Some x => String x <$> unquote O s2
                  | None => None
                  end
            end
          else if Ascii.eqb c dquote || (byte c <? 0x20) then None
          else if byte c <? 0x80 then String c <$> unquote O s1
          else
            match utf8Len c s1 with
            | O => append replacementChar <$> unquote O s1
            | S k => String c <$> unquote k s1
            end
      end
  end.

(** *** The scanner *)

(** What is being built at each nesting level: the top-level value, an
    array, or an object with the key whose value is awaited. *)
Inductive frame : Type :=
| FTop (v : option value)
| FArray (es : list value)
| FObject (ms : list (string * value)) (key : option string).

Inductive numState : Type :=
| NNeg | N0 | N1 | NDot | NDot0 | NE | NESign | NE0.

Inductive mode : Type :=
| MValue                               (* stateBeginValue *)
| MValueOrEnd                          (* stateBeginValueOrEmpty *)
| MKeyOrEnd                            (* stateBeginStringOrEmpty *)
| MKey                                 (* stateBeginString *)
| MEndValue                            (* stateEndValue, stateEndTop *)
| MString (raw : string)               (* stateInString *)
| MStringEsc (raw : string)            (* stateInStringEsc *)
| MStringU (raw : string) (n : nat)    (* stateInStringEscU ... U123 *)
| MNumber (st : numState) (lit : string)
| MLiteral (rest : string) (v : value).

Definition state : Type := mode * list frame.

Definition isJSONSpace (c : ascii) : bool :=
  Ascii.eqb c " " || (byte c =? 9) || (byte c =? 13) || (byte c =? 10).

Definition isDigit (c : ascii) : bool := (48 <=? byte c) && (byte c <=? 57).

Definition maxNestingDepth : Z := 10000.

(** A finished value goes into the enclosing frame; a string in key
    position becomes the awaited key. *)
Definition attach (v : value) (stk : list frame) : option (list frame) :=
  match stk with
  | FTop None :: r => Some (FTop (Some v) :: r)
  | FArray es :: r => Some (FArray (v :: es) :: r)
  | FObject ms (Some k) :: r => Some (FObject ((k, v) :: ms) None :: r)
  | FObject ms None :: r =>
      match v with
      | JString k => Some (FObject ms (Some k) :: r)
      | _ => None
      end
  | _ => None
  end.

Definition finish (v : value) (stk : list frame) : option state :=
  stk' ← attach v stk; Some (MEndValue, stk').

(** [stateEndValue] *)
Definition endValue (stk : list frame) (c : ascii) : option state :=
  if isJSONSpace c then Some (MEndValue, stk)
  else match stk with
       | FObject ms (Some k) :: r =>
           if Ascii.eqb c ":" then Some (MValue, stk) else None
       | FObject ms None :: r =>
           if Ascii.eqb c "," then Some (MKey, stk)
           else if Ascii.eqb c "}" then finish (JObject (rev ms)) r
           else None
       | FArray es :: r =>
           if Ascii.eqb c "," then Some (MValue, stk)
           else if Ascii.eqb c "]" then finish (JArray (rev es)) r
           else None
       | _ => None
       end.

Definition push (f : frame) (m : mode) (stk : list frame) : option state :=
  if Z.of_nat (length stk) <=? maxNestingDepth then Some (m, f :: stk) else None.

(** [stateBeginValue] *)
Definition beginValue (stk : list frame) (c : ascii) : option state :=
  if isJSONSpace c then Some (MValue, stk)
  else if Ascii.eqb c "{" then push (FObject [] None) MKeyOrEnd stk
  else if Ascii.eqb c "[" then push (FArray []) MValueOrEnd stk
  else if Ascii.eqb c dquote then Some (MString EmptyString, stk)
  else if Ascii.eqb c "-" then Some (MNumber NNeg "-", stk)
  else if Ascii.eqb c "0" then Some (MNumber N0 "0", stk)
  else if Ascii.eqb c "t" then Some (MLiteral "rue" (JBool true), stk)
  else if Ascii.eqb c "f" then Some (MLiteral "alse" (JBool false), stk)
  else if Ascii.eqb c "n" then Some (MLiteral "ull" JNull, stk)
  else if isDigit c then Some (MNumber N1 (String c EmptyString), stk)
  else None.

(** [stateBeginString] *)
Definition beginString (stk : list frame) (c : ascii) : option state :=
  if isJSONSpace c then Some (MKey, stk)
  else if Ascii.eqb c dquote then Some (MString EmptyString, stk)
  else None.

(** The number states [stateNeg], [state0], [state1], [stateDot],
    [stateDot0], [stateE], [stateESign], [stateE0]. *)
Definition numberStep (st : numState) (lit : string) (stk : list frame)
    (c : ascii) : option state :=
  let more st' := Some (MNumber st' (lit ++ String c EmptyString), stk) in
  let done := stk' ← attach (JNumber lit) stk; endValue stk' c in
  let zero :=
    if Ascii.eqb c "." then more NDot
    else if Ascii.eqb c "e" || Ascii.eqb c "E" then more NE
    else done in
  let esign := if isDigit c then more NE0 else None in
  match st with
  | NNeg => if Ascii.eqb c "0" then more N0
            else if isDigit c then more N1 else None
  | N1 => if isDigit c then more N1 else zero
  | N0 => zero
  | NDot => if isDigit c then more NDot0 else None
  | NDot0 => if isDigit c then more NDot0
             else if Ascii.eqb c "e" || Ascii.eqb c "E" then more NE
             else done
  | NE => if Ascii.eqb c "+" || Ascii.eqb c "-" then more NESign else esign
  | NESign => esign
  | NE0 => if isDigit c then more NE0 else done
  end.

(** One byte of input: [scanner.step]. *)
Definition step (s : state) (c : ascii) : option state :=
  let '(m, stk) := s in
  match m with
  | MValue => beginValue stk c
  | MValueOrEnd =>
      if isJSONSpace c then Some (MValueOrEnd, stk)
      else if Ascii.eqb c "]" then endValue stk c
      else beginValue stk c
  | MKeyOrEnd =>
      if isJSONSpace c then Some (MKeyOrEnd, stk)
      else if Ascii.eqb c "}" then endValue stk c
      else beginString stk c
  | MKey => beginString stk c
  | MEndValue => endValue stk c
  | MString raw =>
      if Ascii.eqb c dquote then v ← unquote O raw; finish (JString v) stk
      else if Ascii.eqb c bslash then Some (MStringEsc (raw ++ String c EmptyString), stk)
      else if byte c <? 0x20 then None
      else Some (MString (raw ++ String c EmptyString), stk)
  | MStringEsc raw =>
      if Ascii.eqb c "u" then Some (MStringU (raw ++ String c EmptyString) 4, stk)
      else match simpleEscape c with
           | Some _ => Some (MString (raw ++ String c EmptyString), stk)
           | None => None
           end
  | MStringU raw n =>
      match hexDigit c, n with
      | Some _, S O => Some (MString (raw ++ String c EmptyString), stk)
      | Some _, S n' => Some (MStringU (raw ++ String c EmptyString) n', stk)
      | _, _ => None
      end
  | MNumber st lit => numberStep st lit stk c
  | MLiteral rest v =>
      match rest with
      | String x EmptyString => if Ascii.eqb c x then finish v stk else None
      | String x rest' => if Ascii.eqb c x then Some (MLiteral rest' v, stk) else None
      | EmptyString => None
      end
  end.

(** The scan of a whole input. *)
Fixpoint scan (s : state) (input : string) : option state :=
  match input with
  | EmptyString => Some s
  | String c input' =>
      match step s c with
      | Some s' => scan s' input'
      | None => None
      end
  end.

(** [scanner.eof]: the input must end after one complete top-level
    value; a number is ended by the end of the input. *)
Definition eof (s : state) : option value :=
  match s with
  | (MEndValue, [FTop (Some v)]) => Some v
  | (MNumber st lit, [FTop None]) =>
      match st with
      | N0 | N1 | NDot0 | NE0 => Some (JNumber lit)
      | _ => None
      end
  | _ => None
  end.

(** The value a document denotes, [None] on a syntax error. *)
Definition parse (data : string) : option value :=
  scan (MValue, [FTop None]) data ≫= eof.

(** *** Decoding *)

Definition SyntaxError : error := errors_New "json: syntax error".
Definition UnmarshalTypeError : error :=
  errors_New "json: cannot unmarshal value into Go value".

(** [json.Unmarshal(data, &s)] for a [string] variable holding [old]:
    a string literal is stored, [null] leaves the variable alone, any
    other value is a type error. *)
Definition Unmarshal_string (data : string) (old : string) : error + string :=
  match parse data with
  | None => inl SyntaxError
  | Some (JString s) => inr s
  | Some JNull => inr old
  | Some _ => inl UnmarshalTypeError
  end.

Definition minInt64 : Z := - 2 ^ 63.
Definition maxInt64 : Z := 2 ^ 63 - 1.

(** [strconv.ParseInt(lit, 10, 64)] on a JSON number literal. *)
Definition ParseInt (lit : string) : option Z :=
  match NilZero.int_of_string lit with
  | Some d =>
      let z := Z.of_int d in
      if (minInt64 <=? z) && (z <=? maxInt64) then Some z else None
  | None => None
  end.

Definition decodeInt (v : value) (old : Z) : option Z :=
  match v with
  | JNumber lit => ParseInt lit
  | JNull => Some old
  | _ => None
  end.

Definition decodeString (v : value) (old : string) : option string :=
  match v with
  | JString s => Some s
  | JNull => Some old
  | _ => None
  end.

(** [foldName]: keys match field names without regard to case; the two
    non-ASCII letters that fold to ASCII ones are the long s (U+017F) and
    the Kelvin sign (U+212A). *)
Fixpoint foldName (s : string) : string :=
  match s with
  | EmptyString => EmptyString
  | String c s1 =>
      let b := byte c in
      if (97 <=? b) && (b <=? 122) then String (chr (b - 32)) (foldName s1)
      else
        match s1 with
        | String c1 s2 =>
            if (b =? 0xC5) && (byte c1 =? 0xBF) then String "S" (foldName s2)
            else
              match s2 with
              | String c2 s3 =>
                  if (b =? 0xE2) && (byte c1 =? 0x84) && (byte c2 =? 0xAA)
                  then String "K" (foldName s3)
                  else String c (foldName s1)
              | EmptyString => String c (foldName s1)
              end
        | EmptyString => String c (foldName s1)
        end
  end.

Definition keyIs (key name : string) : bool :=
  String.eqb (foldName key) (foldName name).

(** One member of the object that decodes into a [Post]: the field with
    the member's name, by its [json] tag, is set; a member that names no
    field is skipped.  [None] is a type error. *)
Definition setField (p : Post) (key : string) (v : value) : option Post :=
  if keyIs key "id" then
    z ← decodeInt v (Id p);
    Some (mkPost z (PublicationId p) (Type_ p) (Slug p) (PostDate p)
            (CanonicalUrl p) (PreviousPostSlug p) (NextPostSlug p) (CoverImage p)
            (Description p) (Subtitle p) (WordCount p) (Title p) (BodyHTML p))
  else if keyIs key "publication_id" then
    z ← decodeInt v (PublicationId p);
    Some (mkPost (Id p) z (Type_ p) (Slug p) (PostDate p)
            (CanonicalUrl p) (PreviousPostSlug p) (NextPostSlug p) (CoverImage p)
            (Description p) (Subtitle p) (WordCount p) (Title p) (BodyHTML p))
  else if keyIs key "type" then
    s ← decodeString v (Type_ p);
    Some (mkPost (Id p) (PublicationId p) s (Slug p) (PostDate p)
            (CanonicalUrl p) (PreviousPostSlug p) (NextPostSlug p) (CoverImage p)
            (Description p) (Subtitle p) (WordCount p) (Title p) (BodyHTML p))
  else if keyIs key "slug" then
    s ← decodeString v (Slug p);
    Some (mkPost (Id p) (PublicationId p) (Type_ p) s (PostDate p)
            (CanonicalUrl p) (PreviousPostSlug p) (NextPostSlug p) (CoverImage p)
            (Description p) (Subtitle p) (WordCount p) (Title p) (BodyHTML p))
  else if keyIs key "post_date" then
    s ← decodeString v (PostDate p);
    Some (mkPost (Id p) (PublicationId p) (Type_ p) (Slug p) s
            (CanonicalUrl p) (PreviousPostSlug p) (NextPostSlug p) (CoverImage p)
            (Description p) (Subtitle p) (WordCount p) (Title p) (BodyHTML p))
  else if keyIs key "canonical_url" then
    s ← decodeString v (CanonicalUrl p);
    Some (mkPost (Id p) (PublicationId p) (Type_ p) (Slug p) (PostDate p)
            s (PreviousPostSlug p) (NextPostSlug p) (CoverImage p)
            (Description p) (Subtitle p) (WordCount p) (Title p) (BodyHTML p))
  else if keyIs key "previous_post_slug" then
    s ← decodeString v (PreviousPostSlug p);
    Some (mkPost (Id p) (PublicationId p) (Type_ p) (Slug p) (PostDate p)
            (CanonicalUrl p) s (NextPostSlug p) (CoverImage p)
            (Description p) (Subtitle p) (WordCount p) (Title p) (BodyHTML p))
  else if keyIs key "next_post_slug" then
    s ← decodeString v (NextPostSlug p);
    Some (mkPost (Id p) (PublicationId p) (Type_ p) (Slug p) (PostDate p)
            (CanonicalUrl p) (PreviousPostSlug p) s (CoverImage p)
            (Description p) (Subtitle p) (WordCount p) (Title p) (BodyHTML p))
  else if keyIs key "cover_image" then
    s ← decodeString v (CoverImage p); Some (set_CoverImage p s)
  else if keyIs key "description" then
    s ← decodeString v (Description p);
    Some (mkPost (Id p) (PublicationId p) (Type_ p) (Slug p) (PostDate p)
            (CanonicalUrl p) (PreviousPostSlug p) (NextPostSlug p) (CoverImage p)
            s (Subtitle p) (WordCount p) (Title p) (BodyHTML p))
  else if keyIs key "subtitle" then
    s ← decodeString v (Subtitle p); Some (set_Subtitle p s)
  else if keyIs key "wordcount" then
    z ← decodeInt v (WordCount p);
    Some (mkPost (Id p) (PublicationId p) (Type_ p) (Slug p) (PostDate p)
            (CanonicalUrl p) (PreviousPostSlug p) (NextPostSlug p) (CoverImage p)
            (Description p) (Subtitle p) z (Title p) (BodyHTML p))
  else if keyIs key "title" then
    s ← decodeString v (Title p);
    Some (mkPost (Id p) (PublicationId p) (Type_ p) (Slug p) (PostDate p)
            (CanonicalUrl p) (PreviousPostSlug p) (NextPostSlug p) (CoverImage p)
            (Description p) (Subtitle p) (WordCount p) s (BodyHTML p))
  else if keyIs key "body_html" then
    s ← decodeString v (BodyHTML p);
    Some (mkPost (Id p) (PublicationId p) (Type_ p) (Slug p) (PostDate p)
            (CanonicalUrl p) (PreviousPostSlug p) (NextPostSlug p) (CoverImage p)
            (Description p) (Subtitle p) (WordCount p) (Title p) s)
  else Some p.

(** A value decoded into a [Post] struct holding [old]. *)
Definition decodePost (v : value) (old : Post) : option Post :=
  match v with
  | JObject ms =>
      fold_left (fun acc m => p ← acc; setField p (fst m) (snd m)) ms (Some old)
  | JNull => Some old
  | _ => None
  end.

(** [json.Unmarshal(data, &wrapper)] for a zero [PostWrapper]: the
    wrapper's [Post] on success.  The library reports a type error after
    decoding the rest of the document; the partly filled wrapper is of
    no use to the caller, which drops it. *)
Definition Unmarshal_PostWrapper (data : string) : error + Post :=
  match parse data with
  | None => inl SyntaxError
  | Some (JObject ms) =>
      match fold_left (fun acc m =>
               p ← acc;
               if keyIs (fst m) "post" then decodePost (snd m) p else Some p)
             ms (Some Post_zero) with
      | Some p => inr p
      | None => inl UnmarshalTypeError
      end
  | Some JNull => inr Post_zero
  | Some _ => inl UnmarshalTypeError
  end.

(** *** Encoding *)

Definition hexLower (n : Z) : ascii := chr (if n <? 10 then 48 + n else 87 + n).

(** [htmlSafeSet]: the ASCII bytes that are written as they are. *)
Definition htmlSafe (c : ascii) : bool :=
  (0x20 <=? byte c) && (byte c <? 0x80)
  && negb (Ascii.eqb c dquote) && negb (Ascii.eqb c bslash)
  && negb (Ascii.eqb c "<") && negb (Ascii.eqb c ">") && negb (Ascii.eqb c "&").

Definition escapeByte (c : ascii) : string :=
  if Ascii.eqb c dquote || Ascii.eqb c bslash then String bslash (String c EmptyString)
  else if byte c =? 8 then "\b"
  else if byte c =? 12 then "\f"
  else if byte c =? 10 then "\n"
  else if byte c =? 13 then "\r"
  else if byte c =? 9 then "\t"
  else "\u00" ++ String (hexLower (byte c / 16)) (String (hexLower (byte c mod 16)) EmptyString).

(** What to do with the bytes that follow the first byte of a multi-byte
    sequence. *)
Inductive carry : Type :=
| Fresh
| Copy (n : nat)
| Skip (n : nat).

(** [appendString] with [escapeHTML] set: the bytes between the quotes. *)
Fixpoint encodeBytes (k : carry) (s : string) : string :=
  match s with
  | EmptyString => EmptyString
  | String c s1 =>
      match k with
      | Copy (S n) => String c (encodeBytes (Copy n) s1)
      | Skip (S n) => encodeBytes (Skip n) s1
      | _ =>
          if byte c <? 0x80 then
            if htmlSafe c then String c (encodeBytes Fresh s1)
            else escapeByte c ++ encodeBytes Fresh s1
          else
            match utf8Len c s1 with
            | O => "\ufffd" ++ encodeBytes Fresh s1
            | S n =>
                match s1 with
                | String c1 (String c2 _) =>
                    if (byte c =? 0xE2) && (byte c1 =? 0x80) && (byte c2 =? 0xA8)
                    then "\u2028" ++ encodeBytes (Skip n) s1
                    else if (byte c =? 0xE2) && (byte c1 =? 0x80) && (byte c2 =? 0xA9)
                    then "\u2029" ++ encodeBytes (Skip n) s1
                    else String c (encodeBytes (Copy n) s1)
                | _ => String c (encodeBytes (Copy n) s1)
                end
            end
      end
  end.

Definition encodeString (s : string) : string :=
  String dquote (encodeBytes Fresh s ++ String dquote EmptyString).

(** [strconv.Itoa] *)
Definition Itoa (z : Z) : string := NilZero.string_of_int (Z.to_int z).

(** A member [ "name":val ]. *)
Definition member (name val : string) : string :=
  String dquote (name ++ String dquote (":" ++ val)).

(** [json.Marshal(post)], by the struct tags of [Post]; [subtitle] is
    [omitempty]. *)
Definition Marshal_Post (p : Post) : string :=
  "{" ++ member "id" (Itoa (Id p))
  ++ "," ++ member "publication_id" (Itoa (PublicationId p))
  ++ "," ++ member "type" (encodeString (Type_ p))
  ++ "," ++ member "slug" (encodeString (Slug p))
  ++ "," ++ member "post_date" (encodeString (PostDate p))
  ++ "," ++ member "canonical_url" (encodeString (CanonicalUrl p))
  ++ "," ++ member "previous_post_slug" (encodeString (PreviousPostSlug p))
  ++ "," ++ member "next_post_slug" (encodeString (NextPostSlug p))
  ++ "," ++ member "cover_image" (encodeString (CoverImage p))
  ++ "," ++ member "description" (encodeString (Description p))
  ++ (if isEmpty (Subtitle p) then EmptyString
      else "," ++ member "subtitle" (encodeString (Subtitle p)))
  ++ "," ++ member "wordcount" (Itoa (WordCount p))
  ++ "," ++ member "title" (encodeString (Title p))
  ++ "," ++ member "body_html" (encodeString (BodyHTML p))
  ++ "}".

(** [json.Marshal(PostWrapper{Post: post})] *)
Definition Marshal_PostWrapper (p : Post) : string :=
  "{" ++ member "post" (Marshal_Post p) ++ "}".

End json.

(** ** Results of calls *)

(** A call either returns or panics (a slice expression out of range). *)
Inductive outcome (A : Type) : Type :=
| Returned (a : A)
| Panicked.
Arguments Returned {A} a.
Arguments Panicked {A}.

(** A string between double quotes, and one double quote. *)
Definition dq : string := String dquote EmptyString.
Definition quoted (s : string) : string := String dquote (s ++ dq).

(** [context.Context], as a call sees it: [ctx k] tells whether the context
    is cancelled the [k]-th time the call looks at it. *)
Definition Context : Type := nat → bool.

(** [context.Background()] *)
Definition Background : Context := fun _ => false.

(** ** The extractor *)

(** [type RawPost struct], [type ExtractResult struct] *)
Record RawPost : Type := mkRawPost { str : string }.

Record ExtractResult : Type := mkExtractResult {
  resultPost : Post;
  resultErr : option error
}.

(** [func (r *RawPost) ToPost() (Post, error)] *)
Definition ToPost (r : RawPost) : Post * option error :=
  match json.Unmarshal_PostWrapper (str r) with
  | inl err => (Post_zero, Some err)
  | inr post => (post, None)
  end.

(** The markers [extractJSONString] looks for. *)
Definition preloadsMarker : string := "window._preloads".
Definition parseCall : string := "JSON.parse(".
Definition parseOpen : string := "JSON.parse(" ++ dq.
Definition parseClose : string := dq ++ ")".

(** The callback that [extractJSONString] runs on the text of each script
    element: [Some] is the payload found (the callback returns [false] and
    the iteration stops), [None] moves on to the next script. *)
Definition scriptCallback (content : string) : outcome (option string) :=
  if Contains content preloadsMarker && Contains content parseCall then
    let start := Index content parseOpen in
    if start =? -1 then Returned None
    else
      let start := start + len parseOpen in
      let end_ := LastIndex content parseClose in
      if (end_ =? -1) || (end_ <=? start) then Returned None
      else match slice content start end_ with
           | Some jsonString => Returned (Some jsonString)
           | None => Panicked
           end
  else Returned None.

(** [doc.Find("script").EachWithBreak(...)] *)
Fixpoint eachScript (scripts : list Node) : outcome (option string) :=
  match scripts with
  | [] => Returned None
  | s :: scripts' =>
      match scriptCallback (goquery.nodeText s) with
      | Panicked => Panicked
      | Returned (Some jsonString) => Returned (Some jsonString)
      | Returned None => eachScript scripts'
      end
  end.

(** [func extractJSONString(doc *goquery.Document) (string, error)] *)
Definition extractJSONString (doc : Node) : outcome (string * option error) :=
  match eachScript (goquery.Find (SelTag "script") doc) with
  | Panicked => Panicked
  | Returned (Some jsonString) => Returned (jsonString, None)
  | Returned None =>
      Returned (EmptyString, Some (errors_New "failed to extract JSON string"))
  end.

(** The two enrichments that [ExtractPost] runs on the decoded post. *)
Definition enrichSubtitle (doc : Node) (p : Post) : Post :=
  let subtitle := goquery.Text (goquery.First (goquery.Find (SelClass "subtitle") doc)) in
  if negb (isEmpty subtitle) then set_Subtitle p (TrimSpace subtitle) else p.

Definition enrichCoverImage (doc : Node) (p : Post) : Post :=
  if isEmpty (CoverImage p) then
    match goquery.Attr "content"
            (goquery.Find (SelTagAttr "meta" "property" "og:image") doc) with
    | Some ogImage => if negb (isEmpty ogImage) then set_CoverImage p ogImage else p
    | None => p
    end
  else p.

(** [type DateFilterFunc func(string) bool]; [nil] is [None]. *)
Definition DateFilterFunc : Type := option (string → bool).

(** The callback of [doc.Find("url").EachWithBreak] in [GetAllPostsURLs],
    iterated: [i] counts the looks at the context so far. *)
Fixpoint eachURL (ctx : Context) (i : nat) (f : DateFilterFunc)
    (sel : list Node) (urls : list string) : list string :=
  match sel with
  | [] => urls
  | s :: sel' =>
      if ctx i then urls
      else
        let url := goquery.Text (goquery.Find (SelTag "loc") s) in
        if negb (Contains url "/p/") then eachURL ctx (S i) f sel' urls
        else
          match f with
          | Some f' =>
              let lastmod := goquery.Text (goquery.Find (SelTag "lastmod") s) in
              if negb (f' lastmod) then eachURL ctx (S i) f sel' urls
              else eachURL ctx (S i) f sel' (urls ++ [url])
          | None => eachURL ctx (S i) f sel' (urls ++ [url])
          end
  end.

(** The states of a worker goroutine of [ExtractAllPosts]. *)
Inductive worker : Type :=
| WRange                   (* at [for url := range urlCh] *)
| WSelect (url : string)   (* received [url], at the [select] *)
| WExtract (url : string)  (* in [e.ExtractPost(ctx, url)] *)
| WDone.                   (* returned: [wg.Done()] has run *)

(** The state of one [ExtractAllPosts] call once the URL channel is filled
    and closed and the workers are started.  [resultCh] lists what has been
    sent on the result channel, oldest first; [cap] is its capacity. *)
Record pool : Type := mkPool {
  urlCh : list string;
  workers : list worker;
  resultCh : list ExtractResult;
  cap : nat;
  closed : bool;
  ctxDone : bool
}.

Definition allDone (ws : list worker) : bool :=
  forallb (fun w => match w with WDone => true | _ => false end) ws.

(** The URL a worker holds, if any, and the URLs held by the workers. *)
Definition held (w : worker) : list string :=
  match w with
  | WSelect url | WExtract url => [url]
  | WRange | WDone => []
  end.

Definition inflight (ws : list worker) : list string := flat_map held ws.

(** How many steps a worker is from being done with what it holds, and an
    upper bound on the steps a call has left. *)
Definition workerWeight (w : worker) : nat :=
  match w with
  | WSelect _ => 3
  | WExtract _ => 2
  | WRange => 1
  | WDone => 0
  end.

Definition poolWork (s : pool) : nat :=
  3 * length (urlCh s) + sum_list_with workerWeight (workers s)
  + (if closed s then 0 else 1).

(** The state after the context is cancelled. *)
Definition cancel (s : pool) : pool :=
  mkPool (urlCh s) (workers s) (resultCh s) (cap s) (closed s) true.

Section Extractor.
(** The fetcher ([lib/fetcher.go]) and the HTML parser are outside this
    embedding: [FetchURL ctxDone url] is the outcome of
    [e.fetcher.FetchURL(ctx, url)], where [ctxDone] tells whether the
    fetch finds the context cancelled, and [NewDocumentFromReader] is
    [goquery.NewDocumentFromReader]. *)
Variable Body : Type.
Variable FetchURL : bool → string → error + Body.
Variable NewDocumentFromReader : Body → error + Node.

(** [url.Parse(pubUrl)], [url.JoinPath(u.Path, "sitemap.xml")] and
    [u.String()]. *)
Variable sitemapURL : string → error + string.

(** [func (e *Extractor) ExtractPost(ctx, pageUrl) (Post, error)] *)
Definition ExtractPost (ctx : Context) (pageUrl : string)
    : outcome (Post * option error) :=
  match FetchURL (ctx O) pageUrl with
  | inl err => Returned (Post_zero, Some (Errorf_w "failed to fetch page" err))
  | inr body =>
      match NewDocumentFromReader body with
      | inl err => Returned (Post_zero, Some (Errorf_w "failed to parse HTML" err))
      | inr doc =>
          match extractJSONString doc with
          | Panicked => Panicked
          | Returned (_, Some err) =>
              Returned (Post_zero, Some (Errorf_w "failed to extract post data" err))
          | Returned (jsonString, None) =>
              match json.Unmarshal_string (quoted jsonString) EmptyString with
              | inl err =>
                  Returned (Post_zero, Some (Errorf_w "failed to unescape JSON" err))
              | inr rawStr =>
                  match ToPost (mkRawPost rawStr) with
                  | (_, Some err) =>
                      Returned (Post_zero, Some (Errorf_w "failed to parse post data" err))
                  | (p, None) =>
                      Returned (enrichCoverImage doc (enrichSubtitle doc p), None)
                  end
              end
          end
      end
  end.

(** [func (e *Extractor) GetAllPostsURLs(ctx, pubUrl, f) ([]string, error)] *)
Definition GetAllPostsURLs (ctx : Context) (pubUrl : string) (f : DateFilterFunc)
    : list string * option error :=
  match sitemapURL pubUrl with
  | inl err => ([], Some err)
  | inr u =>
      match FetchURL (ctx O) u with
      | inl err => ([], Some err)
      | inr body =>
          match NewDocumentFromReader body with
          | inl err => ([], Some err)
          | inr doc => (eachURL ctx 1 f (goquery.Find (SelTag "url") doc) [], None)
          end
      end
  end.

(** [ExtractAllPosts]: the pool right after the workers are started.
    [cancelled] tells whether the context is already cancelled. *)
Definition startPool (cancelled : bool) (urls : list string) : pool :=
  let workerCount := Nat.min 10 (length urls) in
  mkPool urls (replicate workerCount WRange) [] (length urls) false cancelled.

(** One step of one goroutine, or of whoever cancels the context. *)
Inductive poolStep : pool → pool → Prop :=
| step_cancel s :
    poolStep s (cancel s)
| step_receive s i u q :
    workers s !! i = Some WRange →
    urlCh s = u :: q →
    poolStep s (mkPool q (<[i := WSelect u]> (workers s)) (resultCh s) (cap s)
                       (closed s) (ctxDone s))
| step_drained s i :
    workers s !! i = Some WRange →
    urlCh s = [] →
    poolStep s (mkPool (urlCh s) (<[i := WDone]> (workers s)) (resultCh s) (cap s)
                       (closed s) (ctxDone s))
| step_select_done s i u :
    workers s !! i = Some (WSelect u) →
    ctxDone s = true →
    poolStep s (mkPool (urlCh s) (<[i := WDone]> (workers s)) (resultCh s) (cap s)
                       (closed s) (ctxDone s))
| step_select_default s i u :
    workers s !! i = Some (WSelect u) →
    ctxDone s = false →
    poolStep s (mkPool (urlCh s) (<[i := WExtract u]> (workers s)) (resultCh s)
                       (cap s) (closed s) (ctxDone s))
| step_send s i u c post err :
    workers s !! i = Some (WExtract u) →
    (c = true → ctxDone s = true) →
    ExtractPost (fun _ => c) u = Returned (post, err) →
    (length (resultCh s) < cap s)%nat →
    poolStep s (mkPool (urlCh s) (<[i := WRange]> (workers s))
                       (resultCh s ++ [mkExtractResult post err]) (cap s)
                       (closed s) (ctxDone s))
| step_close s :
    allDone (workers s) = true →
    closed s = false →
    poolStep s (mkPool (urlCh s) (workers s) (resultCh s) (cap s) true (ctxDone s)).

(** The states a call can reach. *)
Inductive poolReach (s0 : pool) : pool → Prop :=
| reach_start : poolReach s0 s0
| reach_step s s' : poolReach s0 s → poolStep s s' → poolReach s0 s'.

(** The pair that a worker sends for [url] when the context stays alive. *)
Definition resultOf (url : string) : ExtractResult :=
  match ExtractPost Background url with
  | Returned (post, err) => mkExtractResult post err
  | Panicked => mkExtractResult Post_zero None
  end.

(** [r] is the pair of [ExtractPost] for [url], run under a context that
    the call found cancelled only if it is ([done]). *)
Definition produced (done : bool) (url : string) (r : ExtractResult) : Prop :=
  ∃ c : bool, (c = true → done = true)
              ∧ ExtractPost (fun _ => c) url = Returned (resultPost r, resultErr r).

(** What holds of every state of a call on [urls]: each URL is accounted
    for once, as sent ([sent], in the order of the result channel), held by
    a worker, still in the URL channel, or received and given up
    ([dropped]); URLs are given up only under a cancelled context. *)
Definition poolInv (urls : list string) (s : pool) : Prop :=
  ∃ sent dropped : list string,
    urls ≡ₚ sent ++ inflight (workers s) ++ urlCh s ++ dropped
    ∧ Forall2 (produced (ctxDone s)) sent (resultCh s)
    ∧ (dropped ≠ [] → ctxDone s = true)
    ∧ cap s = length urls
    ∧ (closed s = true → allDone (workers s) = true)
    ∧ (ctxDone s = false → WDone ∈ workers s → urlCh s = [])
    ∧ length (workers s) = Nat.min 10 (length urls).
End Extractor.

(** ** Files *)

Definition nlChar : ascii := Eval cbv in ascii_of_N 10.
Definition tabChar : ascii := Eval cbv in ascii_of_N 9.
Definition nl : string := String nlChar EmptyString.
Definition tab : string := String tabChar EmptyString.

(** The file system, as far as the library touches it: the directories
    that exist and the regular files with their contents. *)
Record FS : Type := mkFS {
  dirs : gset string;
  files : gmap string string
}.

Module os.

(** The elements of a path: the pieces between its slashes, empty ones
    included.  [cur] is the piece being read. *)
Fixpoint elements_from (cur s : string) : list string :=
  match s with
  | EmptyString => [cur]
  | String c s' =>
      if Ascii.eqb c "/" then cur :: elements_from EmptyString s'
      else elements_from (cur ++ String c EmptyString) s'
  end.
Definition elements (path : string) : list string :=
  elements_from EmptyString path.

(** One round of the loop of [filepath.Clean] on the element [e]; [out]
    holds the elements written so far, the last one first.  An empty
    element and [.] are skipped; [..] takes the last element back when
    there is one that is not itself a kept [..], and is otherwise kept on
    a relative path and dropped on a rooted one. *)
Definition cleanStep (rooted : bool) (out : list string) (e : string)
    : list string :=
  if isEmpty e || String.eqb e "." then out
  else if String.eqb e ".." then
    match out with
    | top :: out' => if String.eqb top ".." then e :: out else out'
    | [] => if rooted then [] else [e]
    end
  else e :: out.

(** The elements joined by slashes. *)
Fixpoint joinElements (es : list string) : string :=
  match es with
  | [] => EmptyString
  | [e] => e
  | e :: es' => e ++ "/" ++ joinElements es'
  end.

(** [filepath.Clean(path)], with the slash as separator. *)
Definition Clean (path : string) : string :=
  if isEmpty path then "."
  else
    let rooted := HasPrefix path "/" in
    let out := reverse (fold_left (cleanStep rooted) (elements path) []) in
    if rooted then "/" ++ joinElements out
    else if bool_decide (out = []) then "."
    else joinElements out.

(** The part of a path before its last slash, if it has a slash. *)
Fixpoint beforeLastSlash (s : string) : option string :=
  match s with
  | EmptyString => None
  | String c s' =>
      match beforeLastSlash s' with
      | Some d => Some (String c d)
      | None => if Ascii.eqb c "/" then Some EmptyString else None
      end
  end.

(** [filepath.Dir(path)]: [Clean] of the path up to its last slash. *)
Definition Dir (path : string) : string :=
  match beforeLastSlash path with
  | None => Clean EmptyString
  | Some d => Clean (d ++ "/")
  end.

(** [filepath.Join(dir, name)]: [Clean] of the elements joined by a
    slash, from the first element that is not empty on. *)
Definition Join (dir name : string) : string :=
  if negb (isEmpty dir) then Clean (dir ++ "/" ++ name)
  else if negb (isEmpty name) then Clean name
  else EmptyString.

(** A directory path and the directories above it, outermost first. *)
Fixpoint ancestors_from (pre s : string) : list string :=
  match s with
  | EmptyString => if isEmpty pre then [] else [pre]
  | String c s' =>
      if Ascii.eqb c "/"
      then (if isEmpty pre then [] else [pre]) ++ ancestors_from (pre ++ "/") s'
      else ancestors_from (pre ++ String c EmptyString) s'
  end.
Definition ancestors (path : string) : list string := ancestors_from EmptyString path.

Definition isFile (fs : FS) (path : string) : bool :=
  bool_decide (is_Some (files fs !! path)).

Definition isDir (fs : FS) (path : string) : bool :=
  bool_decide (path ∈ dirs fs) || String.eqb path "." || String.eqb path "/".

(** [os.MkdirAll(path, 0755)]: fails when [path] or a directory above it
    is a regular file, and otherwise makes every missing directory. *)
Definition MkdirAll (path : string) (fs : FS) : FS * option error :=
  match List.find (isFile fs) (ancestors path) with
  | Some a => (fs, Some (errors_New ("mkdir " ++ a ++ ": not a directory")))
  | None => (mkFS (dirs fs ∪ list_to_set (ancestors path)) (files fs), None)
  end.

(** [os.WriteFile(path, content, 0644)]: opening the file fails on the
    empty path, on a directory and when the directory of [path] does not
    exist; once the file is open the content is written.  A write that
    fails after the file is opened (a full disk, a size limit) is an
    event of the system that this function does not have: what is said
    below about a failing call is said of a failure to open. *)
Definition WriteFile (path content : string) (fs : FS) : FS * option error :=
  if isEmpty path then
    (fs, Some (errors_New ("open " ++ path ++ ": no such file or directory")))
  else if isDir fs path then
    (fs, Some (errors_New ("open " ++ path ++ ": is a directory")))
  else if isDir fs (Dir path) then
    (mkFS (dirs fs) (<[path := content]> (files fs)), None)
  else (fs, Some (errors_New ("open " ++ path ++ ": no such file or directory"))).

End os.

(** A file name: a path element that [filepath.Clean] keeps as it is,
    that is one without a slash that is not empty, [.] or [..]. *)
Definition plainElement (name : string) : bool :=
  negb (isEmpty name)
  && forallb (fun c => negb (Ascii.eqb c "/")) (list_ascii_of_string name)
  && negb (String.eqb name ".") && negb (String.eqb name "..").

(** ** Writing a post *)

Section Formats.
(** The converters are libraries of their own:
    [mdConverter.ConvertString] and [html2text.HTML2Text]. *)
Variable ConvertString : string → error + string.
Variable HTML2Text : string → string.

(** [func (p *Post) ToMD(withTitle bool) (string, error)] *)
Definition ToMD (p : Post) (withTitle : bool) : string * option error :=
  if withTitle then
    match ConvertString (BodyHTML p) with
    | inl err => (EmptyString, Some err)
    | inr body => ("# " ++ Title p ++ nl ++ nl ++ body, None)
    end
  else
    match ConvertString (BodyHTML p) with
    | inl err => (EmptyString, Some err)
    | inr body => (body, None)
    end.

(** [func (p *Post) ToText(withTitle bool) string] *)
Definition ToText (p : Post) (withTitle : bool) : string :=
  if withTitle then Title p ++ nl ++ nl ++ HTML2Text (BodyHTML p)
  else HTML2Text (BodyHTML p).

(** [func (p *Post) ToHTML(withTitle bool) string] *)
Definition ToHTML (p : Post) (withTitle : bool) : string :=
  if withTitle then "<h1>" ++ Title p ++ "</h1>" ++ nl ++ nl ++ BodyHTML p
  else BodyHTML p.

(** [func (p *Post) contentForFormat(format, withTitle) (string, error)] *)
Definition contentForFormat (p : Post) (format : string) (withTitle : bool)
    : string * option error :=
  if String.eqb format "html" then (ToHTML p withTitle, None)
  else if String.eqb format "md" then ToMD p withTitle
  else if String.eqb format "txt" then (ToText p withTitle, None)
  else (EmptyString, Some (errors_New ("unknown format: " ++ format))).

(** [func (p *Post) WriteToFile(path, format, addSourceURL) error], on
    the file system [fs]: the file system after the call and the error
    returned. *)
Definition WriteToFile (p : Post) (path format : string) (addSourceURL : bool)
    (fs : FS) : FS * option error :=
  match os.MkdirAll (os.Dir path) fs with
  | (fs1, Some err) => (fs1, Some err)
  | (fs1, None) =>
      match contentForFormat p format true with
      | (_, Some err) => (fs1, Some err)
      | (content, None) =>
          let content :=
            if addSourceURL && negb (isEmpty (CanonicalUrl p)) then
              let sourceLine :=
                if String.eqb format "html" then
                  "<p style=" ++ quoted "margin-top: 2em; font-size: small; color: grey;"
                  ++ ">original content: <a href=" ++ quoted (CanonicalUrl p) ++ ">"
                  ++ CanonicalUrl p ++ "</a></p>"
                else nl ++ nl ++ "original content: " ++ CanonicalUrl p in
              content ++ sourceLine
            else content in
          os.WriteFile path content fs1
      end
  end.
End Formats.

(** ** Rendering the archive *)

Section Render.
Variable time_Parse_RFC3339 : string → option Time.
(** [t.Format("January 2, 2006")], [t.Format("January 2, 2006 15:04")]
    and [filepath.Rel(outputDir, path)] with its error dropped. *)
Variable formatDate : Time → string.
Variable formatDateTime : Time → string.
Variable filepath_Rel : string → string → string.

Definition pubDateOf (entry : ArchiveEntry) : string :=
  match time_Parse_RFC3339 (PostDate (entryPost entry)) with
  | Some parsedDate => formatDate parsedDate
  | None => PostDate (entryPost entry)
  end.

Definition htmlHead : string :=
  "<!DOCTYPE html>" ++ nl
  ++ "<html lang=" ++ quoted "en" ++ ">" ++ nl
  ++ "<head>" ++ nl
  ++ tab ++ "<meta charset=" ++ quoted "UTF-8" ++ ">" ++ nl
  ++ tab ++ "<meta name=" ++ quoted "viewport" ++ " content="
     ++ quoted "width=device-width, initial-scale=1.0" ++ ">" ++ nl
  ++ tab ++ "<title>Substack Archive</title>" ++ nl
  ++ tab ++ "<style>" ++ nl
  ++ tab ++ tab ++ "body { font-family: Arial, sans-serif; max-width: 800px; margin: 0 auto; padding: 20px; }" ++ nl
  ++ tab ++ tab ++ "h1 { color: #333; }" ++ nl
  ++ tab ++ tab ++ ".post { margin-bottom: 30px; padding: 20px; border: 1px solid #eee; border-radius: 8px; }" ++ nl
  ++ tab ++ tab ++ ".post h2 { margin-top: 0; }" ++ nl
  ++ tab ++ tab ++ ".post h2 a { text-decoration: none; color: #ff6719; }" ++ nl
  ++ tab ++ tab ++ ".post h2 a:hover { text-decoration: underline; }" ++ nl
  ++ tab ++ tab ++ ".meta { color: #666; font-size: 14px; margin-bottom: 10px; }" ++ nl
  ++ tab ++ tab ++ ".subtitle { color: #777; font-style: italic; margin-bottom: 10px; }" ++ nl
  ++ tab ++ tab ++ ".cover-image { max-width: 200px; float: right; margin-left: 15px; }" ++ nl
  ++ tab ++ "</style>" ++ nl
  ++ "</head>" ++ nl
  ++ "<body>" ++ nl
  ++ tab ++ "<h1>Substack Archive</h1>" ++ nl.

(** The body of the loop of [GenerateHTML]: [html] with what one entry
    adds to it. *)
Definition htmlEntry (outputDir : string) (html : string) (entry : ArchiveEntry)
    : string :=
  let relPath := filepath_Rel outputDir (FilePath entry) in
  let pubDate := pubDateOf entry in
  let downloadDate := formatDateTime (DownloadTime entry) in
  let html := html ++ tab ++ "<div class=" ++ quoted "post" ++ ">" ++ nl in
  let html :=
    if negb (isEmpty (CoverImage (entryPost entry))) then
      html ++ tab ++ tab ++ "<img src=" ++ quoted (CoverImage (entryPost entry))
      ++ " alt=" ++ quoted "Cover" ++ " class=" ++ quoted "cover-image" ++ ">" ++ nl
    else html in
  let html :=
    html ++ tab ++ tab ++ "<h2><a href=" ++ quoted relPath ++ ">"
    ++ Title (entryPost entry) ++ "</a></h2>" ++ nl
    ++ tab ++ tab ++ "<div class=" ++ quoted "meta" ++ ">Published: " ++ pubDate
    ++ " | Downloaded: " ++ downloadDate ++ "</div>" ++ nl in
  let description := Subtitle (entryPost entry) in
  let description :=
    if isEmpty description then Description (entryPost entry) else description in
  let html :=
    if negb (isEmpty description) then
      html ++ tab ++ tab ++ "<div class=" ++ quoted "subtitle" ++ ">" ++ description
      ++ "</div>" ++ nl
    else html in
  html ++ tab ++ "</div>" ++ nl.

(** What [GenerateHTML] writes to [index.html]. *)
Definition htmlPage (a : Archive) (outputDir : string) : string :=
  fold_left (htmlEntry outputDir) (Entries a) htmlHead ++ "</body>" ++ nl ++ "</html>".

(** [func (a *Archive) GenerateHTML(outputDir string) error] *)
Definition GenerateHTML (a : Archive) (outputDir : string) (fs : FS)
    : FS * option error :=
  let archivePath := os.Join outputDir "index.html" in
  os.WriteFile archivePath (htmlPage a outputDir) fs.

(** The body of the loop of [GenerateMarkdown]. *)
Definition markdownEntry (outputDir : string) (content : string)
    (entry : ArchiveEntry) : string :=
  let relPath := filepath_Rel outputDir (FilePath entry) in
  let pubDate := pubDateOf entry in
  let downloadDate := formatDateTime (DownloadTime entry) in
  let content :=
    content ++ "## [" ++ Title (entryPost entry) ++ "](" ++ relPath ++ ")" ++ nl ++ nl in
  let content :=
    content ++ "**Published:** " ++ pubDate ++ " | **Downloaded:** " ++ downloadDate
    ++ nl ++ nl in
  let content :=
    if negb (isEmpty (CoverImage (entryPost entry))) then
      content ++ "![Cover Image](" ++ CoverImage (entryPost entry) ++ ")" ++ nl ++ nl
    else content in
  let description := Subtitle (entryPost entry) in
  let description :=
    if isEmpty description then Description (entryPost entry) else description in
  let content :=
    if negb (isEmpty description) then content ++ "*" ++ description ++ "*" ++ nl ++ nl
    else content in
  content ++ "---" ++ nl ++ nl.

(** What [GenerateMarkdown] writes to [index.md]. *)
Definition markdownPage (a : Archive) (outputDir : string) : string :=
  fold_left (markdownEntry outputDir) (Entries a) ("# Substack Archive" ++ nl ++ nl).

(** [func (a *Archive) GenerateMarkdown(outputDir string) error] *)
Definition GenerateMarkdown (a : Archive) (outputDir : string) (fs : FS)
    : FS * option error :=
  let archivePath := os.Join outputDir "index.md" in
  os.WriteFile archivePath (markdownPage a outputDir) fs.

(** The body of the loop of [GenerateText]. *)
Definition textEntry (outputDir : string) (content : string) (entry : ArchiveEntry)
    : string :=
  let relPath := filepath_Rel outputDir (FilePath entry) in
  let pubDate := pubDateOf entry in
  let downloadDate := formatDateTime (DownloadTime entry) in
  let content := content ++ "Title: " ++ Title (entryPost entry) ++ nl in
  let content := content ++ "File: " ++ relPath ++ nl in
  let content := content ++ "Published: " ++ pubDate ++ nl in
  let content := content ++ "Downloaded: " ++ downloadDate ++ nl in
  let description := Subtitle (entryPost entry) in
  let description :=
    if isEmpty description then Description (entryPost entry) else description in
  let content :=
    if negb (isEmpty description) then content ++ "Description: " ++ description ++ nl
    else content in
  content ++ nl ++ Repeat "-" 50 ++ nl ++ nl.

(** What [GenerateText] writes to [index.txt]. *)
Definition textPage (a : Archive) (outputDir : string) : string :=
  fold_left (textEntry outputDir) (Entries a)
    ("SUBSTACK ARCHIVE" ++ nl ++ "================" ++ nl ++ nl).

(** [func (a *Archive) GenerateText(outputDir string) error] *)
Definition GenerateText (a : Archive) (outputDir : string) (fs : FS)
    : FS * option error :=
  let archivePath := os.Join outputDir "index.txt" in
  os.WriteFile archivePath (textPage a outputDir) fs.
End Render.

(** ** The pages of the tests *)

(** The root of a parsed document. *)
Definition document (children : list Node) : Node :=
  ElementNode "#document" [] children.

(** [escapeJSONForJS(post)]: the JSON of the wrapper with every double
    quote turned into backslash, double quote. *)
Definition escapeJSONForJS (post : Post) : string :=
  ReplaceAll_byte (json.Marshal_PostWrapper post) dquote (String bslash dq).

(** The text of the script element of the mock page around [payload]. *)
Definition preloadScript (payload : string) : string :=
  nl ++ "    window._preloads = JSON.parse(" ++ dq ++ payload ++ dq ++ ")" ++ nl ++ "  ".

(** The document that the HTML parser builds from the page of
    [createMockSubstackHTML], for a title [title] that is plain text and
    a script payload [payload]; [extra] stands for the elements that
    [TestEnhancedPostExtraction] adds to the page. *)
Definition mockPage (title payload : string) (headExtra bodyExtra : list Node) : Node :=
  document
    [ElementNode "html" []
       [ElementNode "head" []
          ([TextNode (nl ++ "  "); ElementNode "title" [] [TextNode title];
            TextNode nl] ++ headExtra);
        TextNode nl;
        ElementNode "body" []
          (bodyExtra ++
           [TextNode (nl ++ "  ");
            ElementNode "div" [("class", "post")] [TextNode "Some content"];
            TextNode (nl ++ "  ");
            ElementNode "script" [] [TextNode (preloadScript payload)];
            TextNode (nl ++ nl ++ nl)])]].

(** [createMockSubstackHTML(post)], parsed. *)
Definition createMockSubstackHTML (post : Post) : Node :=
  mockPage (Title post) (escapeJSONForJS post) [] [].

(** [createSamplePost()] *)
Definition createSamplePost : Post :=
  mkPost 123 456 "post" "test-post" "2023-01-01"
         "https://example.substack.com/p/test-post" "previous-post" "next-post"
         "https://example.com/image.jpg" "Test description" "Test subtitle" 100
         "Test Post" "<p>This is a <strong>test</strong> post.</p>".

(** A test server: the pages it serves, by URL.  A cancelled context
    makes the fetch fail, and so does an unknown URL. *)
Definition serve (pages : list (string * Node)) (ctxDone : bool) (url : string)
    : error + Node :=
  if ctxDone then inl (errors_New "context canceled")
  else match List.find (fun page => String.eqb (fst page) url) pages with
       | Some page => inr (snd page)
       | None => inl (errors_New "not found")
       end.

(** The server's responses are parsed documents already. *)
Definition parsed (body : Node) : error + Node := inr body.

(** The site map URL of a publication whose URL has no path. *)
Definition joinSitemap (pubUrl : string) : error + string :=
  inr (pubUrl ++ "/sitemap.xml").

(** ** Site maps *)

(** One [<url>] entry of a site map: its [<loc>] and, if present, its
    [<lastmod>]. *)
Record SitemapEntry : Type := mkSitemapEntry {
  loc : string;
  lastmod : option string
}.

Definition urlElement (e : SitemapEntry) : Node :=
  ElementNode "url" []
    ([TextNode (nl ++ "    "); ElementNode "loc" [] [TextNode (loc e)]]
     ++ match lastmod e with
        | Some d => [TextNode (nl ++ "    "); ElementNode "lastmod" [] [TextNode d]]
        | None => []
        end
     ++ [TextNode (nl ++ "  ")]).

(** The document of a site map with the entries [es]. *)
Definition sitemapDoc (es : list SitemapEntry) : Node :=
  document
    [ElementNode "html" []
       [ElementNode "head" [] [];
        ElementNode "body" []
          [ElementNode "urlset"
             [("xmlns", "http://www.sitemaps.org/schemas/sitemap/0.9")]
             (flat_map (fun e => [TextNode (nl ++ "  "); urlElement e]) es
              ++ [TextNode nl])]]].

(** A site map as a server may as well write it: after an XML
    declaration, without indentation, and with a [changefreq] and a
    [priority] in each entry. *)
Definition denseURLElement (e : SitemapEntry) : Node :=
  ElementNode "url" []
    ([ElementNode "loc" [] [TextNode (loc e)]]
     ++ match lastmod e with
        | Some d => [ElementNode "lastmod" [] [TextNode d]]
        | None => []
        end
     ++ [ElementNode "changefreq" [] [TextNode "weekly"];
         ElementNode "priority" [] [TextNode "0.5"]]).

Definition denseSitemapDoc (es : list SitemapEntry) : Node :=
  document
    [CommentNode ("?xml version=" ++ quoted "1.0" ++ " encoding=" ++ quoted "UTF-8"
                  ++ "?");
     ElementNode "html" []
       [ElementNode "head" [] [];
        ElementNode "body" []
          [ElementNode "urlset"
             [("xmlns", "http://www.sitemaps.org/schemas/sitemap/0.9")]
             (map denseURLElement es)]]].

(** A site map with one post, whose [loc] is written as a CDATA section,
    and the document of it: the parser hands the section over as a
    comment, so the [loc] element has no text. *)
Definition cdataSitemap : list SitemapEntry :=
  [mkSitemapEntry "https://example.substack.com/p/cdata-post" (Some "2023-01-01")].

Definition cdataSitemapDoc : Node :=
  document
    [ElementNode "html" []
       [ElementNode "head" [] [];
        ElementNode "body" []
          [ElementNode "urlset"
             [("xmlns", "http://www.sitemaps.org/schemas/sitemap/0.9")]
             [ElementNode "url" []
                [ElementNode "loc" []
                   [CommentNode "[CDATA[https://example.substack.com/p/cdata-post]]"];
                 ElementNode "lastmod" [] [TextNode "2023-01-01"]]]]]].

(** ** The properties, in the words of the specification *)

(** The content of a CDATA section, from the data of the comment that the
    parser makes of it; any other comment has no content. *)
Definition cdataContent (d : string) : string :=
  let n := String.length d in
  if HasPrefix d "[CDATA[" && (9 <=? n)%nat && String.eqb (drop (n - 2) d) "]]"
  then take (n - 9) (drop 7 d)
  else EmptyString.

(** The character data of a node as XML has it: its text, the content of
    its CDATA sections included. *)
Fixpoint xmlText (n : Node) : string :=
  match n with
  | TextNode d => d
  | CommentNode d => cdataContent d
  | ElementNode _ _ cs => goquery.joinText (map xmlText cs)
  end.

Definition xmlContent (s : list Node) : string :=
  goquery.joinText (map xmlText s).

(** The document [doc] is a site map with the entries [es]: its [url]
    elements are the entries, in their order, each with the [loc] of the
    entry as the content of its [loc] element and the [lastmod] of the
    entry, if it has one, as the content of its [lastmod] element.
    [content] tells how the content of elements is read: [xmlContent] reads
    it as XML does, [goquery.Text] as the program does. *)
Definition writes (content : list Node → string) (doc : Node)
    (es : list SitemapEntry) : Prop :=
  Forall2 (fun u e =>
             content (goquery.Find (SelTag "loc") u) = loc e
             ∧ content (goquery.Find (SelTag "lastmod") u)
               = default EmptyString (lastmod e))
          (goquery.Find (SelTag "url") doc) es.

(** No comment, and so no CDATA section, is in the tree of [n]. *)
Fixpoint noComment (n : Node) : bool :=
  match n with
  | TextNode _ => true
  | CommentNode _ => false
  | ElementNode _ _ cs => forallb noComment cs
  end.

(** The entries a listing must return: those whose [loc] contains the
    post marker and whose [lastmod] the filter accepts. *)
Definition isPostEntry (f : DateFilterFunc) (e : SitemapEntry) : bool :=
  Contains (loc e) "/p/" &&
  match f with
  | Some f' => f' (default EmptyString (lastmod e))
  | None => true
  end.

Definition expectedPostURLs (f : DateFilterFunc) (es : list SitemapEntry)
    : list string :=
  map loc (List.filter (isPostEntry f) es).

(** The description an index shows for a post: the subtitle if there is
    one, else the description if there is one, else none. *)
Definition shownDescription (p : Post) : option string :=
  if negb (isEmpty (Subtitle p)) then Some (Subtitle p)
  else if negb (isEmpty (Description p)) then Some (Description p)
  else None.

(** A script text holds the preload: the marker, and a [JSON.parse] call
    whose quoted argument is not empty. *)
Definition holdsPreload (content : string) : Prop :=
  Contains content preloadsMarker = true ∧
  ∃ before payload after,
    payload ≠ EmptyString ∧
    content = before ++ parseOpen ++ payload ++ parseClose ++ after.

(** The order the archive is specified to keep between an entry [a] and
    an entry [b] placed after it: the later date first when both dates
    parse, the title in ascending order when one of them does not. *)
Definition inOrder (parse : string → option Time) (a b : ArchiveEntry) : Prop :=
  match parse (PostDate (entryPost a)), parse (PostDate (entryPost b)) with
  | Some ta, Some tb => tb <= ta
  | _, _ => ltb (Title (entryPost b)) (Title (entryPost a)) = false
  end.

(** The comparison of [sortEntries] is a strict total order on the
    entries [es]: it is transitive on them, and of two different entries
    one is before the other. *)
Definition strictTotalOn (parse : string → option Time) (es : list ArchiveEntry)
    : Prop :=
  (∀ a b c, a ∈ es → b ∈ es → c ∈ es →
     entryLess parse a b = true → entryLess parse b c = true →
     entryLess parse a c = true)
  ∧ (∀ a b, a ∈ es → b ∈ es →
       entryLess parse a b = false → entryLess parse b a = false → a = b).

(** Every string of a post is made of the bytes [0x20] to [0x7F] other
    than the double quote and the backslash, and its integers are in the
    range of [int]. *)
Definition plainByte (c : ascii) : bool :=
  (0x20 <=? json.byte c) && (json.byte c <? 0x80)
  && negb (Ascii.eqb c dquote) && negb (Ascii.eqb c bslash).

Fixpoint plainString (s : string) : bool :=
  match s with
  | EmptyString => true
  | String c s' => plainByte c && plainString s'
  end.

Definition inInt (z : Z) : bool := (json.minInt64 <=? z) && (z <=? json.maxInt64).

Definition plainPost (p : Post) : bool :=
  inInt (Id p) && inInt (PublicationId p) && inInt (WordCount p)
  && plainString (Type_ p) && plainString (Slug p) && plainString (PostDate p)
  && plainString (CanonicalUrl p) && plainString (PreviousPostSlug p)
  && plainString (NextPostSlug p) && plainString (CoverImage p)
  && plainString (Description p) && plainString (Subtitle p)
  && plainString (Title p) && plainString (BodyHTML p).

(** ** The archive entries of the tests *)

(** The sample post with a publish date and a title of its own, as
    [TestArchive] builds its posts, and its archive entry. *)
Definition postDated (date title : string) : Post :=
  mkPost 123 456 "post" "test-post" date
         "https://example.substack.com/p/test-post" "previous-post" "next-post"
         "https://example.com/image.jpg" "Test description" "Test subtitle" 100
         title "<p>This is a <strong>test</strong> post.</p>".

Definition entryDated (date title : string) : ArchiveEntry :=
  mkArchiveEntry (postDated date title) (title ++ ".html") 0.

Definition entryJan01 : ArchiveEntry := entryDated "2023-01-01T00:00:00Z" "First Post".
Definition entryJan02 : ArchiveEntry := entryDated "2023-01-02T00:00:00Z" "Second Post".
Definition entryJan03 : ArchiveEntry := entryDated "2023-01-03T00:00:00Z" "Third Post".
Definition entryA : ArchiveEntry := entryDated "invalid-date" "A post".
Definition entryB : ArchiveEntry := entryDated "also-invalid" "B post".

(** Three entries that the comparison orders in a cycle: the newer of the
    two dated ones first, and by title around the undated one. *)
Definition cycleOld : ArchiveEntry := entryDated "2023-01-01T00:00:00Z" "A".
Definition cycleNew : ArchiveEntry := entryDated "2023-01-02T00:00:00Z" "C".
Definition cycleUndated : ArchiveEntry := entryDated "no date" "B".

(** Two different entries published at the same instant. *)
Definition sameDay1 : ArchiveEntry := entryDated "2023-01-01T00:00:00Z" "One".
Definition sameDay2 : ArchiveEntry := entryDated "2023-01-01T00:00:00Z" "Two".

(** Two different entries without a date and with the same title. *)
Definition sameTitle1 : ArchiveEntry :=
  mkArchiveEntry (postDated "no date" "Same") "one.html" 0.
Definition sameTitle2 : ArchiveEntry :=
  mkArchiveEntry (postDated "no date" "Same") "two.html" 0.

(** The post decoded from the payload embedded in a page, before the
    enrichments: what [ExtractPost] holds in [p] after [rawJSON.ToPost()]. *)
Definition payloadPost (doc : Node) : option Post :=
  match extractJSONString doc with
  | Returned (jsonString, None) =>
      match json.Unmarshal_string (quoted jsonString) EmptyString with
      | inr rawStr =>
          match ToPost (mkRawPost rawStr) with
          | (p, None) => Some p
          | _ => None
          end
      | inl _ => None
      end
  | _ => None
  end.

(** The text of the first [.subtitle] element of a page and the content
    of its [og:image] meta tag. *)
Definition subtitleText (doc : Node) : string :=
  goquery.Text (goquery.First (goquery.Find (SelClass "subtitle") doc)).

Definition ogImage (doc : Node) : option string :=
  goquery.Attr "content" (goquery.Find (SelTagAttr "meta" "property" "og:image") doc).

(** The mock page of the sample post with a subtitle element in its
    body, as in [TestEnhancedPostExtraction]. *)
Definition pageWithSubtitle : Node :=
  mockPage (Title createSamplePost) (escapeJSONForJS createSamplePost) []
    [TextNode (nl ++ "  ");
     ElementNode "div" [("class", "subtitle")] [TextNode "   HTML subtitle   "]].

(** A no-break space, U+00A0, as UTF-8 writes it and as the parser reads
    the character reference of that name; and the mock page of the sample
    post with a subtitle element whose text has one at each end. *)
Definition nbsp : string :=
  String (json.chr 0xC2) (String (json.chr 0xA0) EmptyString).

Definition pageWithSpacedSubtitle : Node :=
  mockPage (Title createSamplePost) (escapeJSONForJS createSamplePost) []
    [TextNode (nl ++ "  ");
     ElementNode "div" [("class", "subtitle")] [TextNode (nbsp ++ "Hi there" ++ nbsp)]].

(** The page of the test [invalidHTML]: no script at all. *)
Definition pageWithoutScript : Node :=
  document
    [ElementNode "html" []
       [ElementNode "head" [] [];
        ElementNode "body" [] [ElementNode "p" [] [TextNode "No script here"]]]].

(** The site map of the test server: five posts, dated day by day, and a
    page that is not a post. *)
Definition testSitemap : list SitemapEntry :=
  [mkSitemapEntry "https://example.substack.com/p/test-post-1" (Some "2023-01-01");
   mkSitemapEntry "https://example.substack.com/p/test-post-2" (Some "2023-01-02");
   mkSitemapEntry "https://example.substack.com/about" None;
   mkSitemapEntry "https://example.substack.com/p/test-post-3" (Some "2023-01-03");
   mkSitemapEntry "https://example.substack.com/p/test-post-4" (Some "2023-01-04");
   mkSitemapEntry "https://example.substack.com/p/test-post-5" (Some "2023-01-05")].

(** The date filter of the test: [date > "2023-01-02"]. *)
Definition afterJan02 (date : string) : bool := ltb "2023-01-02" date.

(** A server with one post, at [u1]; [u2] is not found. *)
Definition testPages : list (string * Node) :=
  [("u1", createMockSubstackHTML createSamplePost)].

(** The pair a worker sends for [u1]. *)
Definition samplePair : ExtractResult := mkExtractResult createSamplePost None.

(** The end of a run on [u1], [u2] with two workers in which the context
    is cancelled after the pair of [u1] is sent: [u2] is received and
    given up. *)
Definition cancelledRunEnd : pool :=
  mkPool [] [WDone; WDone] [samplePair] 2 true true.

(** The end of a run on [u1] alone, with no cancellation. *)
Definition aliveRunEnd : pool :=
  mkPool [] [WDone] [samplePair] 1 true false.

(** ** The JSON text of a post, field by field *)

(** A field value: an integer or a string. *)
Inductive scalar : Type :=
| SInt (z : Z)
| SStr (s : string).

(** The text of a field value, with [enc] writing the bytes of a string,
    and the value it is read back as. *)
Definition scalarText (enc : string → string) (x : scalar) : string :=
  match x with
  | SInt z => json.Itoa z
  | SStr s => String dquote (enc s ++ dq)
  end.

Definition scalarValue (x : scalar) : json.value :=
  match x with
  | SInt z => json.JNumber (json.Itoa z)
  | SStr s => json.JString s
  end.

(** The members of an object, separated by commas. *)
Fixpoint membersText (enc : string → string) (ms : list (string * scalar)) : string :=
  match ms with
  | [] => EmptyString
  | [(k, x)] => json.member k (scalarText enc x)
  | (k, x) :: ms' => json.member k (scalarText enc x) ++ "," ++ membersText enc ms'
  end.

(** The fields that [json.Marshal] writes for a post, in order. *)
Definition postFields (p : Post) : list (string * scalar) :=
  [("id", SInt (Id p)); ("publication_id", SInt (PublicationId p));
   ("type", SStr (Type_ p)); ("slug", SStr (Slug p));
   ("post_date", SStr (PostDate p)); ("canonical_url", SStr (CanonicalUrl p));
   ("previous_post_slug", SStr (PreviousPostSlug p));
   ("next_post_slug", SStr (NextPostSlug p));
   ("cover_image", SStr (CoverImage p)); ("description", SStr (Description p))]
  ++ (if isEmpty (Subtitle p) then [] else [("subtitle", SStr (Subtitle p))])
  ++ [("wordcount", SInt (WordCount p)); ("title", SStr (Title p));
      ("body_html", SStr (BodyHTML p))].

(** The JSON of the wrapper of a post with its strings written byte for
    byte: what the page payload of a plain post unescapes to. *)
Definition plainWrapper (p : Post) : string :=
  "{" ++ json.member "post" ("{" ++ membersText (fun s => s) (postFields p) ++ "}") ++ "}".

(** The escaping of [escapeJSONForJS]. *)
Definition escapeQuotes (s : string) : string :=
  ReplaceAll_byte s dquote (String bslash dq).

(** The escaped form of [x] is read as the inside of a string literal
    that stands for [x']: the scanner stays inside the literal over it and
    [unquote] turns it into [x']. *)
Definition carries (x x' : string) : Prop :=
  (∀ raw stk rest,
     json.scan (json.MString raw, stk) (escapeQuotes x ++ rest)
     = json.scan (json.MString (raw ++ escapeQuotes x), stk) rest)
  ∧ (∀ y, json.unquote O (escapeQuotes x ++ y) = append x' <$> json.unquote O y).

(** A string of decimal digits. *)
Fixpoint allDigits (s : string) : bool :=
  match s with
  | EmptyString => true
  | String c s' => json.isDigit c && allDigits s'
  end.

(** A field value and a field of a plain post. *)
Definition plainScalar (x : scalar) : bool :=
  match x with
  | SInt z => inInt z
  | SStr s => plainString s
  end.

Definition plainField (m : string * scalar) : bool :=
  plainString (fst m) && plainScalar (snd m).

(** The state in which the scanner has read the digits of [z]. *)
Definition numberEnd (z : Z) : json.numState :=
  if z =? 0 then json.N0 else json.N1.

(** The bytes that end a member of an object. *)
Definition closesValue (c : ascii) : bool := Ascii.eqb c "," || Ascii.eqb c "}".

(** A post that the quote-only escaping cannot carry: its body has a
    quoted attribute. *)
Definition postWithQuotes : Post :=
  mkPost 123 456 "post" "test-post" "2023-01-01"
         "https://example.substack.com/p/test-post" "previous-post" "next-post"
         "https://example.com/image.jpg" "Test description" "Test subtitle" 100
         "Test Post" ("<p class=" ++ quoted "lead" ++ ">This is a test post.</p>").

(** ** The description line of an index *)

(** An entry without subtitle and description. *)
Definition withoutDescription (e : ArchiveEntry) : ArchiveEntry :=
  mkArchiveEntry
    (mkPost (Id (entryPost e)) (PublicationId (entryPost e)) (Type_ (entryPost e))
       (Slug (entryPost e)) (PostDate (entryPost e)) (CanonicalUrl (entryPost e))
       (PreviousPostSlug (entryPost e)) (NextPostSlug (entryPost e))
       (CoverImage (entryPost e)) EmptyString EmptyString (WordCount (entryPost e))
       (Title (entryPost e)) (BodyHTML (entryPost e)))
    (FilePath e) (DownloadTime e).

(** The line that shows a description in each format; no description, no
    line. *)
Definition htmlDescriptionLine (d : option string) : string :=
  match d with
  | Some d => tab ++ tab ++ "<div class=" ++ quoted "subtitle" ++ ">" ++ d ++ "</div>" ++ nl
  | None => EmptyString
  end.

Definition markdownDescriptionLine (d : option string) : string :=
  match d with
  | Some d => "*" ++ d ++ "*" ++ nl ++ nl
  | None => EmptyString
  end.

Definition textDescriptionLine (d : option string) : string :=
  match d with
  | Some d => "Description: " ++ d ++ nl
  | None => EmptyString
  end.

(** ** The file system of the tests *)

(** A file system whose only entry is the regular file [a]. *)
Definition fsWithFileA : FS := mkFS ∅ {[ "a" := "x" ]}.

(** Stand-ins for the two converters. *)
Definition plainConvert (html : string) : error + string := inr html.
Definition plainText (html : string) : string := html.

(** A Markdown converter that fails on every input. *)
Definition failingConvert (html : string) : error + string :=
  inl (errors_New "conversion failed").

(** ** Contexts that are cancelled midway *)

(** A context that is cancelled from the [n]-th look at it on. *)
Definition cancelledFrom (n : nat) : Context := fun k => Nat.leb n k.

(** The prefixes that [ExtractPost] puts before the error of each of its
    steps. *)
Definition extractErrorPrefixes : list string :=
  ["failed to fetch page"; "failed to parse HTML"; "failed to extract post data";
   "failed to unescape JSON"; "failed to parse post data"].

(** The state of a call on [u1], [u2] under a context that was cancelled
    before the call, after one worker has received [u1] and given it
    up. *)
Definition cancelledEarlyRun : pool :=
  mkPool ["u2"] [WDone; WRange] [] 2 false true.

(** ** Writing a post with its images and files *)

(** [type ImageDownloadResult struct] and the result of a file download,
    as far as [WriteToFileWithImages] reads and builds them.  The
    downloaders themselves ([lib/images.go], [lib/files.go]) are outside
    this embedding. *)
Record ImageDownloadResult (ImageInfo : Type) : Type := mkImageDownloadResult {
  Images : list ImageInfo;
  UpdatedHTML : string;
  Success : Z;
  Failed : Z
}.
Arguments mkImageDownloadResult {ImageInfo} Images UpdatedHTML Success Failed.
Arguments Images {ImageInfo} i.
Arguments UpdatedHTML {ImageInfo} i.
Arguments Success {ImageInfo} i.
Arguments Failed {ImageInfo} i.

Record FileDownloadResult : Type := mkFileDownloadResult {
  fileUpdatedHTML : string;
  fileSuccess : Z;
  fileFailed : Z
}.

(** The line that [WriteToFile] and [WriteToFileWithImages] add for the
    source URL. *)
Definition sourceLine (p : Post) (format : string) : string :=
  if String.eqb format "html" then
    "<p style=" ++ quoted "margin-top: 2em; font-size: small; color: grey;"
    ++ ">original content: <a href=" ++ quoted (CanonicalUrl p) ++ ">"
    ++ CanonicalUrl p ++ "</a></p>"
  else nl ++ nl ++ "original content: " ++ CanonicalUrl p.

(** What [addSourceURL] makes of the content. *)
Definition withSource (p : Post) (format : string) (addSourceURL : bool)
    (content : string) : string :=
  if addSourceURL && negb (isEmpty (CanonicalUrl p)) then content ++ sourceLine p format
  else content.

Section FormatsWithDownloads.
Variable ConvertString : string → error + string.
Variable HTML2Text : string → string.

(** [NewImageDownloader(fetcher, outputDir, imagesDir, imageQuality)
    .DownloadImages(ctx, htmlContent, postSlug)] and
    [NewFileDownloader(fetcher, outputDir, filesDir, fileExtensions)
    .DownloadFiles(ctx, htmlContent, postSlug)]: each may write to the file
    system, and returns a pointer to its result ([None] is [nil]) and an
    error. *)
Variable ImageInfo : Type.
Variable ImageQuality : Type.
Variable DownloadImages :
  string → string → ImageQuality → Context → string → string → FS →
  FS * (option (ImageDownloadResult ImageInfo) * option error).
Variable DownloadFiles :
  string → string → list string → Context → string → string → FS →
  FS * (option FileDownloadResult * option error).

(** [fmt.Sprintf("<h1>%s</h1>\n\n%s", p.Title, html)] and
    [fmt.Sprintf("# %s\n\n%s", p.Title, md)] *)
Definition titledHTML (p : Post) (html : string) : string :=
  "<h1>" ++ Title p ++ "</h1>" ++ nl ++ nl ++ html.
Definition titledMD (p : Post) (md : string) : string :=
  "# " ++ Title p ++ nl ++ nl ++ md.

(** The part of [WriteToFileWithImages] that downloads the images: the
    file system, the content and the image result after it, or the error
    it returns with.  A [nil] result without an error is dereferenced for
    [html] and [md]. *)
Definition imagesPart (p : Post) (ctx : Context) (path format : string)
    (downloadImages : bool) (imageQuality : ImageQuality) (imagesDir : string)
    (content : string) (fs : FS)
    : outcome (FS * (error + string * option (ImageDownloadResult ImageInfo))) :=
  if downloadImages && (String.eqb format "html" || String.eqb format "md") then
    let outputDir := os.Dir path in
    let htmlContent := if String.eqb format "md" then BodyHTML p else content in
    match DownloadImages outputDir imagesDir imageQuality ctx htmlContent (Slug p) fs with
    | (fs', (_, Some err)) =>
        Returned (fs', inl (Errorf_w "failed to download images" err))
    | (fs', (None, None)) => Panicked
    | (fs', (Some imageResult, None)) =>
        if String.eqb format "html" then
          let content := UpdatedHTML imageResult in
          let content :=
            if HasPrefix content "<h1>" then content
            else titledHTML p (UpdatedHTML imageResult) in
          Returned (fs', inr (content, Some imageResult))
        else
          match ConvertString (UpdatedHTML imageResult) with
          | inl err =>
              Returned (fs', inl (Errorf_w "failed to convert updated HTML to markdown" err))
          | inr updatedContent =>
              Returned (fs', inr (titledMD p updatedContent, Some imageResult))
          end
    end
  else if downloadImages && String.eqb format "txt" then
    let outputDir := os.Dir path in
    match DownloadImages outputDir imagesDir imageQuality ctx (BodyHTML p) (Slug p) fs with
    | (fs', (_, Some err)) =>
        Returned (fs', inl (Errorf_w "failed to download images" err))
    | (fs', (imageResult, None)) => Returned (fs', inr (content, imageResult))
    end
  else Returned (fs, inr (content, None)).

(** The part that downloads the files: the file system and the content
    after it, or the error it returns with. *)
Definition filesPart (p : Post) (ctx : Context) (path format : string)
    (downloadFiles : bool) (fileExtensions : list string) (filesDir : string)
    (content : string) (imageResult : option (ImageDownloadResult ImageInfo)) (fs : FS)
    : outcome (FS * (error + string)) :=
  if downloadFiles && (String.eqb format "html" || String.eqb format "md") then
    let outputDir := os.Dir path in
    let htmlContent :=
      match imageResult with
      | Some r =>
          if negb (isEmpty (UpdatedHTML r)) then UpdatedHTML r
          else if String.eqb format "md" then BodyHTML p else content
      | None => if String.eqb format "md" then BodyHTML p else content
      end in
    match DownloadFiles outputDir filesDir fileExtensions ctx htmlContent (Slug p) fs with
    | (fs', (_, Some err)) =>
        Returned (fs', inl (Errorf_w "failed to download files" err))
    | (fs', (None, None)) => Panicked
    | (fs', (Some fileResult, None)) =>
        if (0 <? fileSuccess fileResult) || (0 <? fileFailed fileResult) then
          if String.eqb format "html" then
            let content := fileUpdatedHTML fileResult in
            let content :=
              if negb (HasPrefix content "<h1>")
              then titledHTML p (fileUpdatedHTML fileResult) else content in
            Returned (fs', inr content)
          else
            match ConvertString (fileUpdatedHTML fileResult) with
            | inl err =>
                Returned (fs', inl (Errorf_w "failed to convert updated HTML to markdown" err))
            | inr updatedContent => Returned (fs', inr (titledMD p updatedContent))
            end
        else Returned (fs', inr content)
    end
  else Returned (fs, inr content).

(** [func (p *Post) WriteToFileWithImages(ctx, path, format, addSourceURL,
    downloadImages, imageQuality, imagesDir, downloadFiles, fileExtensions,
    filesDir, fetcher)], which returns a pointer to an
    [ImageDownloadResult] and an error, on the file system [fs]. *)
Definition WriteToFileWithImages (p : Post) (ctx : Context) (path format : string)
    (addSourceURL : bool)
    (downloadImages : bool) (imageQuality : ImageQuality) (imagesDir : string)
    (downloadFiles : bool) (fileExtensions : list string) (filesDir : string)
    (fs : FS)
    : outcome (FS * (option (ImageDownloadResult ImageInfo) * option error)) :=
  match os.MkdirAll (os.Dir path) fs with
  | (fs1, Some err) => Returned (fs1, (None, Some err))
  | (fs1, None) =>
      match contentForFormat ConvertString HTML2Text p format true with
      | (_, Some err) => Returned (fs1, (None, Some err))
      | (content, None) =>
          match imagesPart p ctx path format downloadImages imageQuality imagesDir
                  content fs1 with
          | Panicked => Panicked
          | Returned (fs2, inl err) => Returned (fs2, (None, Some err))
          | Returned (fs2, inr (content, imageResult)) =>
              match filesPart p ctx path format downloadFiles fileExtensions filesDir
                      content imageResult fs2 with
              | Panicked => Panicked
              | Returned (fs3, inl err) => Returned (fs3, (None, Some err))
              | Returned (fs3, inr content) =>
                  let content := withSource p format addSourceURL content in
                  match os.WriteFile path content fs3 with
                  | (fs4, Some err) => Returned (fs4, (imageResult, Some err))
                  | (fs4, None) =>
                      let imageResult :=
                        match imageResult with
                        | None => Some (mkImageDownloadResult [] content 0 0)
                        | Some r => Some r
                        end in
                      Returned (fs4, (imageResult, None))
                  end
              end
          end
      end
  end.
End FormatsWithDownloads.

(** ** Stand-ins for the downloaders *)

(** An image downloader that finds one image and rewrites the page, and a
    file downloader that finds nothing; neither writes to the disk. *)
Definition oneImage (outputDir imagesDir : string) (quality : unit) (ctx : Context)
    (htmlContent slug : string) (fs : FS)
    : FS * (option (ImageDownloadResult string) * option error) :=
  (fs, (Some (mkImageDownloadResult ["images/" ++ slug ++ "/a.png"]
                ("<p>local</p>") 1 0), None)).

Definition noFiles (outputDir filesDir : string) (extensions : list string)
    (ctx : Context) (htmlContent slug : string) (fs : FS)
    : FS * (option FileDownloadResult * option error) :=
  (fs, (Some (mkFileDownloadResult htmlContent 0 0), None)).

(** ** The cover image of an index entry *)

(** An entry without its cover image. *)
Definition withoutCover (e : ArchiveEntry) : ArchiveEntry :=
  mkArchiveEntry (set_CoverImage (entryPost e) EmptyString) (FilePath e) (DownloadTime e).

(** The line that shows a cover image in the HTML and in the Markdown
    index; no image, no line. *)
Definition htmlCoverLine (cover : string) : string :=
  if isEmpty cover then EmptyString
  else tab ++ tab ++ "<img src=" ++ quoted cover ++ " alt=" ++ quoted "Cover"
       ++ " class=" ++ quoted "cover-image" ++ ">" ++ nl.

Definition markdownCoverLine (cover : string) : string :=
  if isEmpty cover then EmptyString
  else "![Cover Image](" ++ cover ++ ")" ++ nl ++ nl.

(** An archive of one post and a disk with the directory [out]. *)
Definition oneEntryArchive : Archive :=
  mkArchive [mkArchiveEntry createSamplePost "out/test-post.html" 0].

Definition fsWithOut : FS := mkFS {[ "out" ]} ∅.

(** Stand-ins for the formatting of dates and for [filepath.Rel]. *)
Definition plainDate (t : Time) : string := json.Itoa t.
Definition plainRel (base target : string) : string := target.

(** ** JSON text that reads back *)

(** [func (p *Post) ToJSON() (string, error)]: [json.Marshal] of a [Post]
    has no error. *)
Definition ToJSON (p : Post) : string * option error := (json.Marshal_Post p, None).

(** The bytes [x], met inside a string literal, are read as the bytes
    [x']: the scanner stays inside the literal over them and [unquote]
    turns them into [x']. *)
Definition reads (x x' : string) : Prop :=
  (∀ raw stk rest,
     json.scan (json.MString raw, stk) (x ++ rest)
     = json.scan (json.MString (raw ++ x), stk) rest)
  ∧ (∀ y, json.unquote O (x ++ y) = append x' <$> json.unquote O y).

(** Well-formed UTF-8, as [utf8.ValidString] accepts it; [k] counts the
    continuation bytes that the sequence being read still has to come. *)
Fixpoint validUTF8 (k : nat) (s : string) : bool :=
  match s with
  | EmptyString => match k with O => true | S _ => false end
  | String c s1 =>
      match k with
      | S k' => (0x80 <=? json.byte c) && validUTF8 k' s1
      | O =>
          if json.byte c <? 0x80 then validUTF8 O s1
          else match json.utf8Len c s1 with
               | O => false
               | S n => validUTF8 n s1
               end
      end
  end.

(** A post as the decoder can have produced it: its strings are
    well-formed UTF-8 and its numbers fit a 64-bit [int]. *)
Definition validPost (p : Post) : bool :=
  inInt (Id p) && inInt (PublicationId p) && inInt (WordCount p)
  && validUTF8 O (Type_ p) && validUTF8 O (Slug p) && validUTF8 O (PostDate p)
  && validUTF8 O (CanonicalUrl p) && validUTF8 O (PreviousPostSlug p)
  && validUTF8 O (NextPostSlug p) && validUTF8 O (CoverImage p)
  && validUTF8 O (Description p) && validUTF8 O (Subtitle p)
  && validUTF8 O (Title p) && validUTF8 O (BodyHTML p).

(** What the encoder writes for one ASCII byte. *)
Definition encodedByte (c : ascii) : string :=
  if json.htmlSafe c then String c EmptyString else json.escapeByte c.

(** A field value whose text, written with [enc], reads back. *)
Definition readable (enc : string → string) (x : scalar) : Prop :=
  match x with
  | SInt z => True
  | SStr s => reads (enc s) s
  end.

(** A post with a quoted attribute, a backslash, a line break and letters
    outside ASCII (an e with an acute accent, and U+2028) in its body. *)
Definition postWithEscapes : Post :=
  mkPost 123 456 "post" "test-post" "2023-01-01"
         "https://example.substack.com/p/test-post" "previous-post" "next-post"
         "https://example.com/image.jpg" "Test description" EmptyString 100
         "Test Post"
         ("<p class=" ++ quoted "lead" ++ ">a" ++ String bslash "b &amp; caf"
          ++ String (json.chr 0xC3) (String (json.chr 0xA9) nl)
          ++ String (json.chr 0xE2) (String (json.chr 0x80) (String (json.chr 0xA8) "</p>"))).

(** The mock page of the sample post with a subtitle element that holds
    white space only. *)
Definition pageWithBlankSubtitle : Node :=
  mockPage (Title createSamplePost) (escapeJSONForJS createSamplePost) []
    [TextNode (nl ++ "  ");
     ElementNode "div" [("class", "subtitle")] [TextNode "   "]].

(** ** A payload that is a valid string literal *)

(** The payload of a post as a page embeds it: the JSON text of
    [PostWrapper{Post: r}], written as the inside of a string literal of
    JSON with the escapes of [encoding/json] (what [json.Marshal] of the
    text as a string gives between its quotes).  Every quote and backslash
    of the text has its backslash, and no [<], [>] or [&] is left in
    it. *)
Definition escapedPayload (r : Post) : string :=
  json.encodeBytes json.Fresh (json.Marshal_PostWrapper r).

(** The page of [createMockSubstackHTML], under the title of the sample
    post, with that payload in its script. *)
Definition pageWithPayload (r : Post) : Node :=
  mockPage (Title createSamplePost) (escapedPayload r) [] [].

(** A post whose title is not well-formed UTF-8: its last byte is the
    Latin-1 code of an e with an acute accent.  [json.Marshal] writes
    U+FFFD for that byte, which is what comes back. *)
Definition postWithLatin1 : Post :=
  mkPost 123 456 "post" "test-post" "2023-01-01"
         "https://example.substack.com/p/test-post" "previous-post" "next-post"
         "https://example.com/image.jpg" "Test description" "Test subtitle" 100
         ("Caf" ++ String (json.chr 0xE9) EmptyString)
         "<p>This is a <strong>test</strong> post.</p>".

Definition postWithReplacement : Post :=
  mkPost 123 456 "post" "test-post" "2023-01-01"
         "https://example.substack.com/p/test-post" "previous-post" "next-post"
         "https://example.com/image.jpg" "Test description" "Test subtitle" 100
         ("Caf" ++ json.replacementChar)
         "<p>This is a <strong>test</strong> post.</p>".

(** * Proofs *)

Local Arguments String.append : simpl nomatch.

(** ** Strings *)

Lemma append_nil_r s : s ++ EmptyString = s.
Proof. induction s as [|c s IH]; simpl; [done|by rewrite IH]. Qed.

Lemma append_assoc s t u : (s ++ t) ++ u = s ++ (t ++ u).
Proof. induction s as [|c s IH]; simpl; [done|by rewrite IH]. Qed.

Lemma length_append s t : String.length (s ++ t) = (String.length s + String.length t)%nat.
Proof. induction s as [|c s IH]; simpl; [done|by rewrite IH]. Qed.

Lemma isEmpty_true s : isEmpty s = true ↔ s = EmptyString.
Proof. by destruct s. Qed.

Lemma isEmpty_false s : isEmpty s = false ↔ s ≠ EmptyString.
Proof. by destruct s. Qed.

(** ** Insertion sort *)

Section InsertionSortFacts.
Context {A : Type} (less : A → A → bool).

Lemma sink_Permutation x before : sink less x before ≡ₚ x :: before.
Proof.
  induction before as [|y before IH]; simpl; [done|].
  destruct (less x y); [|done].
  rewrite IH. apply Permutation_swap.
Qed.

Lemma insertionSort_rev_Permutation l acc :
  fold_left (fun before x => sink less x before) l acc ≡ₚ l ++ acc.
Proof.
  revert acc. induction l as [|x l IH]; intros acc; simpl; [done|].
  rewrite IH, sink_Permutation. by rewrite Permutation_middle.
Qed.

Lemma sort_Slice_Permutation l : sort_Slice less l ≡ₚ l.
Proof.
  unfold sort_Slice, insertionSort_rev.
  rewrite reverse_Permutation, insertionSort_rev_Permutation.
  by rewrite app_nil_r.
Qed.

(** The comparison never holds both ways. *)
Hypothesis less_asym : ∀ a b, less a b = true → less b a = false.

Lemma sink_Sorted x before :
  Sorted (fun a b => less a b = false) before →
  Sorted (fun a b => less a b = false) (sink less x before).
Proof.
  induction 1 as [|y before Hs IH Hhd]; simpl.
  - repeat constructor.
  - destruct (less x y) eqn:Hxy.
    + constructor; [done|].
      destruct Hhd as [|z before' Hyz]; simpl.
      * constructor. by apply less_asym.
      * destruct (less x z); constructor; [done|by apply less_asym].
    + repeat constructor; done.
Qed.

Lemma insertionSort_rev_Sorted l acc :
  Sorted (fun a b => less a b = false) acc →
  Sorted (fun a b => less a b = false)
         (fold_left (fun before x => sink less x before) l acc).
Proof.
  revert acc. induction l as [|x l IH]; intros acc Hacc; simpl; [done|].
  by apply IH, sink_Sorted.
Qed.

(** After [sort.Slice] no element is [less] than the one before it. *)
Lemma sort_Slice_Sorted l :
  Sorted (fun a b => less b a = false) (sort_Slice less l).
Proof.
  unfold sort_Slice, insertionSort_rev.
  apply (Sorted_reverse (fun a b => less a b = false)).
  apply insertionSort_rev_Sorted. constructor.
Qed.
End InsertionSortFacts.

Lemma Sorted_lookup_adjacent {A} (R : relation A) l i a b :
  Sorted R l → l !! i = Some a → l !! S i = Some b → R a b.
Proof.
  intros Hs. revert i. induction Hs as [|x l Hs IH Hhd]; intros i Ha Hb; [done|].
  destruct i as [|i]; simpl in *.
  - simplify_eq. destruct Hhd; simpl in *; by simplify_eq.
  - by eapply IH.
Qed.

Lemma StronglySorted_lookup_lt {A} (R : relation A) l i j a b :
  StronglySorted R l → (i < j)%nat → l !! i = Some a → l !! j = Some b → R a b.
Proof.
  intros Hs. revert i j.
  induction Hs as [|x l Hs IH Hall]; intros i j Hij Ha Hb; [done|].
  destruct j as [|j]; [lia|]. destruct i as [|i]; simpl in *.
  - simplify_eq. rewrite Forall_forall in Hall.
    apply Hall. by eapply list_elem_of_lookup_2.
  - eapply IH; [|done..]. lia.
Qed.

Lemma Sorted_weaken {A} (R1 R2 : relation A) l :
  (∀ a b, a ∈ l → b ∈ l → R1 a b → R2 a b) → Sorted R1 l → Sorted R2 l.
Proof.
  intros Himp Hs. induction Hs as [|x l Hs IH Hhd]; [constructor|].
  constructor.
  - apply IH. intros a b Ha Hb. apply Himp; by right.
  - destruct Hhd; constructor. apply Himp; [by left|right; by left|done].
Qed.

(** ** The archive order *)

Lemma ltb_asym a b : ltb a b = true → ltb b a = false.
Proof.
  revert b. induction a as [|x a IH]; intros [|y b]; simpl; try done.
  destruct (N.ltb_spec (N_of_ascii x) (N_of_ascii y)),
           (N.ltb_spec (N_of_ascii y) (N_of_ascii x)); try done; try lia.
  apply IH.
Qed.

Lemma ltb_false_trans a b c :
  ltb b a = false → ltb c b = false → ltb c a = false.
Proof.
  revert b c. induction a as [|x a IH]; intros [|y b] [|z c]; simpl; try done.
  destruct (N.ltb_spec (N_of_ascii y) (N_of_ascii x)),
           (N.ltb_spec (N_of_ascii x) (N_of_ascii y)),
           (N.ltb_spec (N_of_ascii z) (N_of_ascii y)),
           (N.ltb_spec (N_of_ascii y) (N_of_ascii z)),
           (N.ltb_spec (N_of_ascii z) (N_of_ascii x)),
           (N.ltb_spec (N_of_ascii x) (N_of_ascii z)); try done; try lia.
  apply IH.
Qed.

Section ArchiveFacts.
Variable parse : string → option Time.

Lemma entryLess_asym a b : entryLess parse a b = true → entryLess parse b a = false.
Proof.
  unfold entryLess, After.
  destruct (parse (PostDate (entryPost a))), (parse (PostDate (entryPost b)));
    try apply ltb_asym.
  intros ?%Z.ltb_lt. apply Z.ltb_ge. lia.
Qed.

Lemma entryLess_inOrder a b : entryLess parse b a = false → inOrder parse a b.
Proof.
  unfold entryLess, inOrder, After.
  destruct (parse (PostDate (entryPost a))), (parse (PostDate (entryPost b)));
    try done.
  intros ?%Z.ltb_ge. lia.
Qed.

Lemma Entries_AddEntry a post path t :
  Entries (AddEntry parse a post path t) =
  sort_Slice (entryLess parse) (Entries a ++ [mkArchiveEntry post path t]).
Proof. done. Qed.

Lemma addAll_snoc a es e :
  addAll parse a (es ++ [e]) =
  AddEntry parse (addAll parse a es) (entryPost e) (FilePath e) (DownloadTime e).
Proof. unfold addAll. by rewrite fold_left_app. Qed.

Lemma addAll_Permutation a es : Entries (addAll parse a es) ≡ₚ Entries a ++ es.
Proof.
  induction es as [|e es IH] using rev_ind.
  - by rewrite app_nil_r.
  - rewrite addAll_snoc, Entries_AddEntry, sort_Slice_Permutation, IH.
    destruct e. by rewrite app_assoc.
Qed.

(** Whatever was inserted, and in whatever order: no entry of the
    archive is [less] than the entry before it. *)
Lemma addAll_Sorted es :
  Sorted (fun a b => entryLess parse b a = false)
         (Entries (addAll parse NewArchive es)).
Proof.
  destruct es as [|e es _] using rev_ind; [constructor|].
  rewrite addAll_snoc, Entries_AddEntry.
  apply sort_Slice_Sorted, entryLess_asym.
Qed.

Lemma addAll_elem_of es e :
  e ∈ Entries (addAll parse NewArchive es) ↔ e ∈ es.
Proof. by rewrite addAll_Permutation. Qed.

Lemma addAll_StronglySorted_dates es :
  (∀ e, e ∈ es → is_Some (parse (PostDate (entryPost e)))) →
  StronglySorted (fun a b => instantOf parse b <= instantOf parse a)
                 (Entries (addAll parse NewArchive es)).
Proof.
  intros Hparse.
  apply Sorted.Sorted_StronglySorted.
  { intros a b c ??. lia. }
  eapply Sorted_weaken; [|apply addAll_Sorted].
  intros a b Ha Hb. rewrite addAll_elem_of in Ha, Hb.
  destruct (Hparse a Ha) as [ta Hta], (Hparse b Hb) as [tb Htb].
  unfold entryLess, instantOf, After. rewrite Hta, Htb. simpl.
  intros ?%Z.ltb_ge. lia.
Qed.

Lemma addAll_StronglySorted_titles es :
  (∀ e, e ∈ es → parse (PostDate (entryPost e)) = None) →
  StronglySorted (fun a b => ltb (Title (entryPost b)) (Title (entryPost a)) = false)
                 (Entries (addAll parse NewArchive es)).
Proof.
  intros Hparse.
  apply Sorted.Sorted_StronglySorted.
  { intros a b c. apply ltb_false_trans. }
  eapply Sorted_weaken; [|apply addAll_Sorted].
  intros a b Ha Hb. rewrite addAll_elem_of in Ha, Hb.
  unfold entryLess. by rewrite (Hparse a Ha), (Hparse b Hb).
Qed.

End ArchiveFacts.

(** [time.Parse] reads an hour of one digit and a fraction behind a
    comma, and refuses a day that the month does not have. *)
Example Parse_reads :
  RFC3339.Parse "2023-01-01T1:02:03Z" = RFC3339.Parse "2023-01-01T01:02:03Z"
  ∧ RFC3339.Parse "2023-01-01T01:02:03,5Z" = RFC3339.Parse "2023-01-01T01:02:03.5Z"
  ∧ RFC3339.Parse "2023-01-01T01:02:03.5Z" = Some 1672534923500000000
  ∧ RFC3339.Parse "2023-01-01T02:02:03+01:00" = Some 1672534923000000000
  ∧ RFC3339.Parse "2023-02-29T01:02:03Z" = None
  ∧ RFC3339.Parse "2023-01-01" = None.
Proof. repeat split; vm_compute; reflexivity. Qed.

(** The two orderings of the tests of the archive. *)
Example archive_order_by_date :
  Entries (addAll RFC3339.Parse NewArchive [entryJan03; entryJan01; entryJan02])
  = [entryJan03; entryJan02; entryJan01].
Proof. vm_compute. reflexivity. Qed.

Example archive_order_by_title :
  Entries (addAll RFC3339.Parse NewArchive [entryB; entryA]) = [entryA; entryB].
Proof. vm_compute. reflexivity. Qed.

(** The claim C5 as it is written fails: the comparison is not transitive
    on entries of which some have a date that parses and some have not, so
    the sort leaves two entries that are not next to each other out of the
    order the claim gives for them.  After [cycleOld], [cycleNew] and
    [cycleUndated] the archive holds the entry titled [C] before the entry
    titled [B], two entries that are to be compared by title. *)
Lemma C5_far_entries_out_of_order :
  Entries (addAll RFC3339.Parse NewArchive [cycleOld; cycleNew; cycleUndated])
  = [cycleNew; cycleOld; cycleUndated]
  ∧ ¬ inOrder RFC3339.Parse cycleNew cycleUndated
  ∧ ¬ (∀ es i j a b,
         (i < j)%nat →
         Entries (addAll RFC3339.Parse NewArchive es) !! i = Some a →
         Entries (addAll RFC3339.Parse NewArchive es) !! j = Some b →
         inOrder RFC3339.Parse a b).
Proof.
  assert (¬ inOrder RFC3339.Parse cycleNew cycleUndated) as Hout
    by (intros H; vm_compute in H; discriminate H).
  split; [vm_compute; reflexivity|]. split; [done|].
  intros H. apply Hout.
  apply (H [cycleOld; cycleNew; cycleUndated] 0%nat 2%nat);
    [lia|vm_compute; reflexivity..].
Qed.

(** C5, amended.  After every [AddEntry] call that leaves at most twelve
    entries in the archive, each entry and the entry after it are in the
    order of the comparison: the later date first when both dates parse,
    the titles in ascending order when one does not.  When all dates parse
    this holds of every two entries of the archive, whatever its length,
    and so it does when none parses.  Entries dated 2023-01-03, 2023-01-01
    and 2023-01-02, inserted in that order, end as 01-03, 01-02, 01-01;
    entries with unparseable dates titled [B post], then [A post], end as
    [A post], [B post]. *)
Theorem C5_archive_sorted_after_AddEntry :
  (∀ parse es i a b,
     (length es <= 12)%nat →
     Entries (addAll parse NewArchive es) !! i = Some a →
     Entries (addAll parse NewArchive es) !! S i = Some b →
     inOrder parse a b) ∧
  (∀ parse es i j a b,
     (∀ e, e ∈ es → is_Some (parse (PostDate (entryPost e)))) →
     (i < j)%nat →
     Entries (addAll parse NewArchive es) !! i = Some a →
     Entries (addAll parse NewArchive es) !! j = Some b →
     inOrder parse a b) ∧
  (∀ parse es i j a b,
     (∀ e, e ∈ es → parse (PostDate (entryPost e)) = None) →
     (i < j)%nat →
     Entries (addAll parse NewArchive es) !! i = Some a →
     Entries (addAll parse NewArchive es) !! j = Some b →
     inOrder parse a b) ∧
  map (fun e => PostDate (entryPost e))
      (Entries (addAll RFC3339.Parse NewArchive [entryJan03; entryJan01; entryJan02]))
  = ["2023-01-03T00:00:00Z"; "2023-01-02T00:00:00Z"; "2023-01-01T00:00:00Z"] ∧
  map (fun e => Title (entryPost e))
      (Entries (addAll RFC3339.Parse NewArchive [entryB; entryA]))
  = ["A post"; "B post"].
Proof.
  split; [|split; [|split; [|split]]].
  - intros parse es i a b _ Ha Hb.
    apply entryLess_inOrder.
    by apply (Sorted_lookup_adjacent _ _ _ _ _ (addAll_Sorted parse es) Ha Hb).
  - intros parse es i j a b Hparse Hij Ha Hb.
    pose proof (StronglySorted_lookup_lt _ _ _ _ _ _
                  (addAll_StronglySorted_dates parse es Hparse) Hij Ha Hb) as Hle.
    assert (a ∈ es) as Hain by (eapply addAll_elem_of, list_elem_of_lookup_2, Ha).
    assert (b ∈ es) as Hbin by (eapply addAll_elem_of, list_elem_of_lookup_2, Hb).
    destruct (Hparse a Hain) as [ta Hta], (Hparse b Hbin) as [tb Htb].
    unfold inOrder, instantOf in *. by rewrite Hta, Htb in *.
  - intros parse es i j a b Hparse Hij Ha Hb.
    pose proof (StronglySorted_lookup_lt _ _ _ _ _ _
                  (addAll_StronglySorted_titles parse es Hparse) Hij Ha Hb) as Hle.
    assert (a ∈ es) as Hain by (eapply addAll_elem_of, list_elem_of_lookup_2, Ha).
    unfold inOrder. by rewrite (Hparse a Hain).
  - by rewrite archive_order_by_date.
  - by rewrite archive_order_by_title.
Qed.

Lemma C5_archive_sorted_witness : inOrder RFC3339.Parse entryJan03 entryJan02.
Proof.
  apply (proj1 C5_archive_sorted_after_AddEntry RFC3339.Parse
           [entryJan03; entryJan01; entryJan02] 0%nat);
    [simpl; lia|vm_compute; reflexivity|vm_compute; reflexivity].
Defined.

(** The claim C4 as it is written fails: the final order can depend on the
    order of the calls, both for entries that the comparison orders in a
    cycle and for different entries with the same publish date. *)
Lemma C4_order_depends_on_calls :
  ¬ (∀ es1 es2, es1 ≡ₚ es2 →
       Entries (addAll RFC3339.Parse NewArchive es1)
       = Entries (addAll RFC3339.Parse NewArchive es2)).
Proof.
  intros H.
  specialize (H [cycleOld; cycleNew; cycleUndated] [cycleUndated; cycleOld; cycleNew]).
  assert ([cycleOld; cycleNew; cycleUndated] ≡ₚ [cycleUndated; cycleOld; cycleNew])
    as Hperm by exact (Permutation_app_comm [cycleOld; cycleNew] [cycleUndated]).
  specialize (H Hperm). vm_compute in H. discriminate H.
Qed.

Example archive_order_same_instant :
  Entries (addAll RFC3339.Parse NewArchive [sameDay1; sameDay2]) = [sameDay1; sameDay2] ∧
  Entries (addAll RFC3339.Parse NewArchive [sameDay2; sameDay1]) = [sameDay2; sameDay1].
Proof. split; vm_compute; reflexivity. Qed.

(** Different entries without a date and with the same title stay in the
    order of the calls as well. *)
Example archive_order_same_title :
  Entries (addAll RFC3339.Parse NewArchive [sameTitle1; sameTitle2])
  = [sameTitle1; sameTitle2] ∧
  Entries (addAll RFC3339.Parse NewArchive [sameTitle2; sameTitle1])
  = [sameTitle2; sameTitle1].
Proof. split; vm_compute; reflexivity. Qed.

Lemma ltb_trans a b c : ltb a b = true → ltb b c = true → ltb a c = true.
Proof.
  intros Hab Hbc. destruct (ltb a c) eqn:Hac; [done|].
  apply ltb_asym in Hab.
  by rewrite (ltb_false_trans c a b Hac Hab) in Hbc.
Qed.

Lemma ltb_total a b : ltb a b = false → ltb b a = false → a = b.
Proof.
  revert b. induction a as [|x a IH]; intros [|y b]; simpl; try done.
  destruct (N.ltb_spec (N_of_ascii x) (N_of_ascii y)),
           (N.ltb_spec (N_of_ascii y) (N_of_ascii x)); try done.
  intros Hab Hba. f_equal; [|by apply IH].
  rewrite <-(ascii_N_embedding x), <-(ascii_N_embedding y). f_equal. lia.
Qed.

Section OrderFacts.
Variable parse : string → option Time.

(** On a strict total order being sorted leaves one order only. *)
Lemma strictTotalOn_unique es1 es2 :
  es1 ≡ₚ es2 → strictTotalOn parse es1 →
  Entries (addAll parse NewArchive es1) = Entries (addAll parse NewArchive es2).
Proof.
  intros Hperm [Htrans Htotal].
  set (R := fun a b : ArchiveEntry =>
              a ∈ es1 ∧ b ∈ es1 ∧ entryLess parse b a = false).
  assert (Transitive R) as HR.
  { intros a b c (Ha & Hb & Hab) (_ & Hc & Hbc). split; [done|split; [done|]].
    destruct (entryLess parse c a) eqn:Hca; [|done].
    destruct (entryLess parse a b) eqn:Hab'.
    - destruct (entryLess parse b c) eqn:Hbc'.
      + by rewrite (entryLess_asym parse _ _ (Htrans a b c Ha Hb Hc Hab' Hbc')) in Hca.
      + rewrite (Htotal b c Hb Hc Hbc' Hbc) in Hab. by rewrite Hab in Hca.
    - rewrite (Htotal a b Ha Hb Hab' Hab) in Hca. by rewrite Hca in Hbc. }
  assert (∀ es, es1 ≡ₚ es →
            StronglySorted R (Entries (addAll parse NewArchive es))) as Hsorted.
  { intros es Hes. apply Sorted.Sorted_StronglySorted; [exact HR|].
    eapply Sorted_weaken; [|apply addAll_Sorted].
    intros a b Ha Hb Hab. rewrite addAll_elem_of in Ha, Hb.
    rewrite <-Hes in Ha, Hb. by repeat split. }
  apply (StronglySorted_unique_strong R).
  - intros a b _ _ (Ha & Hb & Hba) (_ & _ & Hab). by apply Htotal.
  - by apply Hsorted.
  - by apply Hsorted.
  - by rewrite !addAll_Permutation, Hperm.
Qed.

Lemma dated_strictTotalOn es :
  (∀ e, e ∈ es → is_Some (parse (PostDate (entryPost e)))) →
  (∀ a b, a ∈ es → b ∈ es → instantOf parse a = instantOf parse b → a = b) →
  strictTotalOn parse es.
Proof.
  intros Hparse Hinj. split.
  - intros a b c Ha Hb Hc.
    destruct (Hparse a Ha) as [ta Hta], (Hparse b Hb) as [tb Htb],
             (Hparse c Hc) as [tc Htc].
    unfold entryLess, After. rewrite Hta, Htb, Htc.
    intros ?%Z.ltb_lt ?%Z.ltb_lt. apply Z.ltb_lt. lia.
  - intros a b Ha Hb.
    destruct (Hparse a Ha) as [ta Hta], (Hparse b Hb) as [tb Htb].
    unfold entryLess, After. rewrite Hta, Htb.
    intros ?%Z.ltb_ge ?%Z.ltb_ge. apply Hinj; [done..|].
    unfold instantOf. rewrite Hta, Htb. simpl. lia.
Qed.

Lemma undated_strictTotalOn es :
  (∀ e, e ∈ es → parse (PostDate (entryPost e)) = None) →
  (∀ a b, a ∈ es → b ∈ es → Title (entryPost a) = Title (entryPost b) → a = b) →
  strictTotalOn parse es.
Proof.
  intros Hparse Hinj. split.
  - intros a b c Ha Hb Hc. unfold entryLess.
    rewrite (Hparse a Ha), (Hparse b Hb), ?(Hparse c Hc). apply ltb_trans.
  - intros a b Ha Hb. unfold entryLess.
    rewrite (Hparse a Ha), (Hparse b Hb).
    intros Hab Hba. apply Hinj; [done..|]. by apply ltb_total.
Qed.
End OrderFacts.

(** C4, amended.  For every finite collection of archive entries on which
    the comparison of [sortEntries] is a strict total order, the final
    order of the archive after inserting all of them with [AddEntry] is the
    same whatever the order of the calls.  The comparison is such an order
    on every collection whose publish dates all parse and in which
    different entries have different instants, and on every collection in
    which no publish date parses and different entries have different
    titles. *)
Theorem C4_AddEntry_order_independent (parse : string → option Time) :
  (∀ es1 es2,
     es1 ≡ₚ es2 → strictTotalOn parse es1 →
     Entries (addAll parse NewArchive es1) = Entries (addAll parse NewArchive es2))
  ∧ (∀ es,
       (∀ e, e ∈ es → is_Some (parse (PostDate (entryPost e)))) →
       (∀ a b, a ∈ es → b ∈ es → instantOf parse a = instantOf parse b → a = b) →
       strictTotalOn parse es)
  ∧ (∀ es,
       (∀ e, e ∈ es → parse (PostDate (entryPost e)) = None) →
       (∀ a b, a ∈ es → b ∈ es →
          Title (entryPost a) = Title (entryPost b) → a = b) →
       strictTotalOn parse es).
Proof.
  split; [apply strictTotalOn_unique|].
  split; [apply dated_strictTotalOn|apply undated_strictTotalOn].
Qed.

Lemma C4_AddEntry_order_independent_witness :
  Entries (addAll RFC3339.Parse NewArchive [entryJan03; entryJan01; entryJan02])
  = Entries (addAll RFC3339.Parse NewArchive [entryJan01; entryJan03; entryJan02])
  ∧ Entries (addAll RFC3339.Parse NewArchive [entryB; entryA])
    = Entries (addAll RFC3339.Parse NewArchive [entryA; entryB]).
Proof.
  split.
  - apply (proj1 (C4_AddEntry_order_independent RFC3339.Parse)); [apply perm_swap|].
    apply (proj1 (proj2 (C4_AddEntry_order_independent RFC3339.Parse))).
    + intros e He. repeat (apply elem_of_cons in He as [->|He]); try (by eexists).
      by apply elem_of_nil in He.
    + intros a b Ha Hb.
      repeat (apply elem_of_cons in Ha as [->|Ha]); try (by apply elem_of_nil in Ha);
      repeat (apply elem_of_cons in Hb as [->|Hb]); try (by apply elem_of_nil in Hb);
      vm_compute; intros; try reflexivity; discriminate.
  - apply (proj1 (C4_AddEntry_order_independent RFC3339.Parse)); [apply perm_swap|].
    apply (proj2 (proj2 (C4_AddEntry_order_independent RFC3339.Parse))).
    + intros e He. repeat (apply elem_of_cons in He as [->|He]); try reflexivity.
      by apply elem_of_nil in He.
    + intros a b Ha Hb.
      repeat (apply elem_of_cons in Ha as [->|Ha]); try (by apply elem_of_nil in Ha);
      repeat (apply elem_of_cons in Hb as [->|Hb]); try (by apply elem_of_nil in Hb);
      vm_compute; intros; try reflexivity; discriminate.
Defined.

(** ** Rendering *)

Section RenderFacts.
Variable parse : string → option Time.
Variable formatDate formatDateTime : Time → string.
Variable rel : string → string → string.

Local Abbreviation hEntry := (htmlEntry parse formatDate formatDateTime rel).
Local Abbreviation mEntry := (markdownEntry parse formatDate formatDateTime rel).
Local Abbreviation tEntry := (textEntry parse formatDate formatDateTime rel).

(** Each loop only appends to what is already written. *)
Ltac appended :=
  cbv zeta; cbn [negb];
  repeat match goal with
         | |- context [if ?b then _ else _] =>
             let H := fresh in destruct b eqn:H; rewrite ?H
         end;
  rewrite ?append_assoc; reflexivity.

Lemma htmlEntry_append dir html e :
  hEntry dir html e = html ++ hEntry dir EmptyString e.
Proof. unfold htmlEntry. appended. Qed.

Lemma markdownEntry_append dir content e :
  mEntry dir content e = content ++ mEntry dir EmptyString e.
Proof. unfold markdownEntry. appended. Qed.

Lemma textEntry_append dir content e :
  tEntry dir content e = content ++ tEntry dir EmptyString e.
Proof. unfold textEntry. appended. Qed.

Lemma fold_left_appending (f : string → ArchiveEntry → string) es start :
  (∀ acc e, f acc e = acc ++ f EmptyString e) →
  fold_left f es start = start ++ goquery.joinText (map (f EmptyString) es).
Proof.
  intros Hf. revert start. induction es as [|e es IH]; intros start; simpl.
  - by rewrite append_nil_r.
  - by rewrite IH, Hf, append_assoc.
Qed.

End RenderFacts.

(** ** Writing a post *)

Lemma MkdirAll_files path fs : files (fst (os.MkdirAll path fs)) = files fs.
Proof. unfold os.MkdirAll. by destruct (List.find _ _). Qed.

(** The claim C10 as it is written fails: when the directory of the target
    cannot be made, the error is that of [os.MkdirAll] and the format is
    never looked at. *)
Lemma C10_mkdir_error_comes_first :
  ¬ (∀ (p : Post) (path format : string) (addSourceURL : bool) (fs : FS),
       format ≠ "html" → format ≠ "md" → format ≠ "txt" →
       ∃ err,
         snd (WriteToFile plainConvert plainText p path format addSourceURL fs) = Some err
         ∧ Contains (Error err) "unknown format" = true).
Proof.
  intros H.
  destruct (H createSamplePost "a/b.invalid" "invalid" false fsWithFileA)
    as (err & Herr & Hmsg); try discriminate.
  vm_compute in Herr. injection Herr as <-. vm_compute in Hmsg. discriminate Hmsg.
Qed.

(** C10, amended.  For every post, path and file system, [WriteToFile]
    with a format other than [html], [md] and [txt] returns an error and
    leaves every regular file as it was: the error is the unknown-format
    error when the directory of the target could be made, and the error of
    making that directory otherwise. *)
Theorem C10_unknown_format_writes_nothing
    (ConvertString : string → error + string) (HTML2Text : string → string)
    (p : Post) (path format : string) (addSourceURL : bool) (fs : FS) :
  format ≠ "html" → format ≠ "md" → format ≠ "txt" →
  files (fst (WriteToFile ConvertString HTML2Text p path format addSourceURL fs))
    = files fs
  ∧ snd (WriteToFile ConvertString HTML2Text p path format addSourceURL fs)
    = Some (default (errors_New ("unknown format: " ++ format))
                    (snd (os.MkdirAll (os.Dir path) fs))).
Proof.
  intros Hhtml Hmd Htxt.
  unfold WriteToFile, contentForFormat.
  pose proof (MkdirAll_files (os.Dir path) fs) as Hfiles.
  destruct (os.MkdirAll (os.Dir path) fs) as [fs1 [err|]]; simpl in *; [done|].
  apply String.eqb_neq in Hhtml, Hmd, Htxt.
  by rewrite Hhtml, Hmd, Htxt.
Qed.

Lemma C10_unknown_format_witness :
  files (fst (WriteToFile plainConvert plainText createSamplePost
                "out/test.invalid" "invalid" false (mkFS ∅ ∅))) = ∅
  ∧ snd (WriteToFile plainConvert plainText createSamplePost
                "out/test.invalid" "invalid" false (mkFS ∅ ∅))
    = Some (default (errors_New "unknown format: invalid")
                    (snd (os.MkdirAll (os.Dir "out/test.invalid") (mkFS ∅ ∅)))).
Proof.
  apply (C10_unknown_format_writes_nothing plainConvert plainText createSamplePost
           "out/test.invalid" "invalid" false (mkFS ∅ ∅)); discriminate.
Defined.

Example unknown_format_error :
  snd (WriteToFile plainConvert plainText createSamplePost
         "out/test.invalid" "invalid" false (mkFS ∅ ∅))
  = Some (errors_New "unknown format: invalid").
Proof. vm_compute. reflexivity. Qed.

(** ** Searching strings *)

Lemma take_drop n s : take n s ++ drop n s = s.
Proof.
  revert s. induction n as [|n IH]; intros [|c s]; simpl; try done.
  by rewrite IH.
Qed.

Lemma drop_drop a b s : drop b (drop a s) = drop (a + b) s.
Proof.
  revert s. induction a as [|a IH]; intros s; simpl; [done|].
  destruct s as [|c s]; [by destruct b|]. apply IH.
Qed.

Lemma length_drop n s : String.length (drop n s) = (String.length s - n)%nat.
Proof.
  revert s. induction n as [|n IH]; intros [|c s]; simpl; try done; lia.
Qed.

Lemma length_take n s :
  (n ≤ String.length s)%nat → String.length (take n s) = n.
Proof.
  revert s. induction n as [|n IH]; intros [|c s]; simpl; try done; try lia.
  intros ?. rewrite IH; lia.
Qed.

Lemma HasPrefix_spec s p :
  HasPrefix s p = true → s = p ++ drop (String.length p) s.
Proof.
  revert s. induction p as [|x p IH]; intros [|c s]; simpl; try done.
  destruct (Ascii.eqb_spec c x) as [->|]; [|done].
  intros ?. f_equal. by apply IH.
Qed.

Lemma HasPrefix_append p s : HasPrefix (p ++ s) p = true.
Proof.
  induction p as [|x p IH]; simpl; [by destruct s|].
  by rewrite Ascii.eqb_refl.
Qed.

Lemma HasPrefix_length s p :
  HasPrefix s p = true → (String.length p ≤ String.length s)%nat.
Proof.
  intros H%HasPrefix_spec. rewrite H, length_append. lia.
Qed.

Lemma Index_from_nil i sub :
  Index_from i EmptyString sub = if HasPrefix EmptyString sub then i else -1.
Proof. done. Qed.

Lemma Index_from_cons i c s sub :
  Index_from i (String c s) sub
  = if HasPrefix (String c s) sub then i else Index_from (i + 1) s sub.
Proof. done. Qed.

Lemma LastIndex_from_nil i found sub :
  LastIndex_from i found EmptyString sub
  = if HasPrefix EmptyString sub then i else found.
Proof. done. Qed.

Lemma LastIndex_from_cons i found c s sub :
  LastIndex_from i found (String c s) sub
  = LastIndex_from (i + 1) (if HasPrefix (String c s) sub then i else found) s sub.
Proof. done. Qed.

(** [Index] returns the offset of an occurrence. *)
Lemma Index_from_found i s sub :
  0 <= i → Index_from i s sub ≠ -1 →
  ∃ n, Index_from i s sub = i + Z.of_nat n ∧ HasPrefix (drop n s) sub = true.
Proof.
  revert i. induction s as [|c s IH]; intros i Hi.
  - rewrite Index_from_nil.
    destruct (HasPrefix EmptyString sub) eqn:Hp; [|done].
    intros _. exists 0%nat. split; [lia|done].
  - rewrite Index_from_cons.
    destruct (HasPrefix (String c s) sub) eqn:Hp.
    + intros _. exists 0%nat. split; [lia|done].
    + intros Hne. destruct (IH (i + 1)) as (n & Hn & Hpre); [lia|done|].
      exists (S n). split; [lia|done].
Qed.

(** [LastIndex] returns what it started from or the offset of an
    occurrence. *)
Lemma LastIndex_from_found i found s sub :
  LastIndex_from i found s sub = found ∨
  ∃ n, LastIndex_from i found s sub = i + Z.of_nat n
       ∧ HasPrefix (drop n s) sub = true.
Proof.
  revert i found. induction s as [|c s IH]; intros i found.
  - rewrite LastIndex_from_nil.
    destruct (HasPrefix EmptyString sub) eqn:Hp; [|by left].
    right. exists 0%nat. split; [lia|done].
  - rewrite LastIndex_from_cons.
    destruct (HasPrefix (String c s) sub) eqn:Hp.
    + destruct (IH (i + 1) i) as [->|(n & -> & Hpre)].
      * right. exists 0%nat. split; [lia|done].
      * right. exists (S n). split; [lia|done].
    + destruct (IH (i + 1) found) as [->|(n & -> & Hpre)]; [by left|].
      right. exists (S n). split; [lia|done].
Qed.

(** ** The payload of a page *)

Lemma length_parseOpen : String.length parseOpen = 12%nat.
Proof. reflexivity. Qed.

Lemma length_parseClose : String.length parseClose = 2%nat.
Proof. reflexivity. Qed.

(** What the callback of [extractJSONString] has found when it stops the
    iteration, and that its slice expression is always in range. *)
Lemma scriptCallback_cases content :
  scriptCallback content = Returned None ∨
  ∃ payload, scriptCallback content = Returned (Some payload)
             ∧ payload ≠ EmptyString ∧ holdsPreload content.
Proof.
  unfold scriptCallback.
  destruct (Contains content preloadsMarker) eqn:Hmarker; [|by left].
  destruct (Contains content parseCall); [|by left]. simpl.
  destruct (Z.eqb_spec (Index content parseOpen) (-1)) as [|Hstart]; [by left|].
  destruct (Z.eqb_spec (LastIndex content parseClose) (-1)) as [|Hend]; [by left|].
  simpl.
  destruct (Z.leb_spec (LastIndex content parseClose)
                       (Index content parseOpen + len parseOpen)) as [|Hlt];
    [by left|].
  destruct (Index_from_found 0 content parseOpen) as (n & Hn & Hopen); [lia|done|].
  destruct (LastIndex_from_found 0 (-1) content parseClose)
    as [?|(m & Hm & Hclose)]; [done|].
  fold (Index content parseOpen) in Hn. fold (LastIndex content parseClose) in Hm.
  rewrite Hn, Hm in *. unfold len in *. rewrite length_parseOpen in *.
  pose proof (HasPrefix_length _ _ Hclose) as Hlen.
  rewrite length_drop, length_parseClose in Hlen.
  right. unfold slice, len.
  replace ((0 <=? 0 + Z.of_nat n + Z.of_nat 12)
           && (0 + Z.of_nat n + Z.of_nat 12 <=? 0 + Z.of_nat m)
           && (0 + Z.of_nat m <=? Z.of_nat (String.length content))) with true
    by (symmetry; rewrite !andb_true_iff, !Z.leb_le; lia).
  replace (Z.to_nat (0 + Z.of_nat m - (0 + Z.of_nat n + Z.of_nat 12)))
    with (m - (n + 12))%nat by lia.
  replace (Z.to_nat (0 + Z.of_nat n + Z.of_nat 12)) with (n + 12)%nat by lia.
  eexists. split; [reflexivity|].
  assert (String.length (take (m - (n + 12)) (drop (n + 12) content))
          = (m - (n + 12))%nat) as Hpayload.
  { apply length_take. rewrite length_drop. lia. }
  split.
  { intros Hempty. rewrite Hempty in Hpayload. simpl in Hpayload. lia. }
  split; [done|].
  exists (take n content), (take (m - (n + 12)) (drop (n + 12) content)),
         (drop 2 (drop m content)).
  split.
  { intros Hempty. rewrite Hempty in Hpayload. simpl in Hpayload. lia. }
  rewrite <-(take_drop n content) at 1. f_equal.
  rewrite (HasPrefix_spec _ _ Hopen) at 1. f_equal.
  rewrite length_parseOpen, drop_drop.
  rewrite <-(take_drop (m - (n + 12)) (drop (n + 12) content)) at 1. f_equal.
  rewrite drop_drop. replace (n + 12 + (m - (n + 12)))%nat with m by lia.
  rewrite (HasPrefix_spec _ _ Hclose) at 1. by rewrite length_parseClose.
Qed.

Lemma eachScript_cases scripts :
  (eachScript scripts = Returned None
   ∧ Forall (fun s => scriptCallback (goquery.nodeText s) = Returned None) scripts)
  ∨ ∃ s payload, s ∈ scripts ∧ eachScript scripts = Returned (Some payload)
                 ∧ holdsPreload (goquery.nodeText s).
Proof.
  induction scripts as [|s scripts IH]; simpl; [left; by split|].
  destruct (scriptCallback_cases (goquery.nodeText s))
    as [Hnone|(payload & Hsome & _ & Hholds)].
  - rewrite Hnone. destruct IH as [[Hret Hall]|(s' & payload & Hin & Hret & Hholds)].
    + left. split; [done|by constructor].
    + right. exists s', payload. split; [by right|done].
  - rewrite Hsome. right. exists s, payload. split; [by left|done].
Qed.

Lemma extractJSONString_no_panic doc : extractJSONString doc ≠ Panicked.
Proof.
  unfold extractJSONString.
  destruct (eachScript_cases (goquery.Find (SelTag "script") doc))
    as [[-> _]|(s & payload & _ & -> & _)]; done.
Qed.

Lemma extractJSONString_without_preload doc :
  (∀ s, s ∈ goquery.Find (SelTag "script") doc → ¬ holdsPreload (goquery.nodeText s)) →
  extractJSONString doc
  = Returned (EmptyString, Some (errors_New "failed to extract JSON string")).
Proof.
  intros Hnone. unfold extractJSONString.
  destruct (eachScript_cases (goquery.Find (SelTag "script") doc))
    as [[-> _]|(s & payload & Hin & _ & Hholds)]; [done|].
  by destruct (Hnone s Hin).
Qed.

(** ** Extraction of one post *)

Lemma TrimSpace_empty : TrimSpace EmptyString = EmptyString.
Proof. done. Qed.

(** [strings.TrimSpace] on white space outside ASCII: the no-break space
    goes at both ends, alone it leaves nothing, the wide spaces go as
    well, and a byte that only looks like the end of an encoded space
    stays. *)
Example TrimSpace_beyond_ASCII :
  TrimSpace (nbsp ++ "Hi there" ++ nbsp) = "Hi there"
  ∧ TrimSpace nbsp = EmptyString
  ∧ TrimSpace (" " ++ String (json.chr 0xE3) (String (json.chr 0x80)
                        (String (json.chr 0x80) "x"))
               ++ String (json.chr 0xE2) (String (json.chr 0x80)
                    (String (json.chr 0x83) nl))) = "x"
  ∧ TrimSpace ("x" ++ String (json.chr 0xA0) EmptyString)
    = "x" ++ String (json.chr 0xA0) EmptyString.
Proof. repeat split; vm_compute; reflexivity. Qed.

(** The class selector splits the attribute at a tab and not at a
    vertical tab. *)
Example class_pieces :
  goquery.matches (SelClass "subtitle")
    (ElementNode "div" [("class", "lead" ++ tab ++ "subtitle")] []) = true
  ∧ goquery.matches (SelClass "subtitle")
      (ElementNode "div"
         [("class", "lead" ++ String (json.chr 11) "subtitle")] []) = false.
Proof. split; vm_compute; reflexivity. Qed.

Section ExtractorFacts.
Variable Body : Type.
Variable FetchURL : bool → string → error + Body.
Variable NewDocumentFromReader : Body → error + Node.
Variable sitemapURL : string → error + string.

Local Abbreviation extractPost := (ExtractPost Body FetchURL NewDocumentFromReader).

(** [ExtractPost] never panics. *)
Lemma ExtractPost_no_panic ctx url : extractPost ctx url ≠ Panicked.
Proof.
  unfold ExtractPost.
  destruct (FetchURL (ctx 0%nat) url) as [?|body]; [done|].
  destruct (NewDocumentFromReader body) as [?|doc]; [done|].
  pose proof (extractJSONString_no_panic doc) as Hpanic.
  destruct (extractJSONString doc) as [[js [?|]]|]; try done.
  destruct (json.Unmarshal_string _ _); [done|].
  by destruct (ToPost _) as [? [?|]].
Qed.

(** C8.  On a fetched page none of whose scripts holds the preload (the
    marker together with a [JSON.parse] call whose quoted argument can be
    cut out), [ExtractPost] returns, without a panic, the zero [Post] and the
    extraction error. *)
Theorem C8_ExtractPost_without_preload ctx url body doc :
  FetchURL (ctx 0%nat) url = inr body →
  NewDocumentFromReader body = inr doc →
  (∀ s, s ∈ goquery.Find (SelTag "script") doc → ¬ holdsPreload (goquery.nodeText s)) →
  extractPost ctx url
  = Returned (Post_zero,
              Some (Errorf_w "failed to extract post data"
                      (errors_New "failed to extract JSON string"))).
Proof.
  intros Hfetch Hdoc Hnone. unfold ExtractPost.
  by rewrite Hfetch, Hdoc, (extractJSONString_without_preload doc Hnone).
Qed.

(** C3, amended.  When [ExtractPost] succeeds, the post it returns is the
    post decoded from the payload of the page except for two fields.  The
    cover image is never overwritten when the decoded one is not empty, and
    is the content of the [og:image] meta tag (if any) when the decoded one
    is empty.  The subtitle is the trimmed text of the first [.subtitle]
    element whenever that trimmed text is not empty, whatever the decoded
    subtitle was, and is the decoded subtitle when that element is missing
    or has no text. *)
Theorem C3_enrichment_of_decoded_post ctx url p :
  extractPost ctx url = Returned (p, None) →
  ∃ body doc p0,
    FetchURL (ctx 0%nat) url = inr body
    ∧ NewDocumentFromReader body = inr doc
    ∧ payloadPost doc = Some p0
    ∧ (TrimSpace (subtitleText doc) ≠ EmptyString →
       Subtitle p = TrimSpace (subtitleText doc))
    ∧ (subtitleText doc = EmptyString → Subtitle p = Subtitle p0)
    ∧ (CoverImage p0 ≠ EmptyString → CoverImage p = CoverImage p0)
    ∧ (CoverImage p0 = EmptyString →
       CoverImage p = default EmptyString (ogImage doc))
    ∧ set_CoverImage (set_Subtitle p (Subtitle p0)) (CoverImage p0) = p0.
Proof.
  unfold ExtractPost. intros H.
  destruct (FetchURL (ctx 0%nat) url) as [?|body]; [done|].
  destruct (NewDocumentFromReader body) as [?|doc] eqn:Hdoc; [done|].
  exists body, doc. unfold payloadPost.
  destruct (extractJSONString doc) as [[js [?|]]|]; try done.
  destruct (json.Unmarshal_string _ _) as [?|raw]; [done|].
  destruct (ToPost _) as [p0 [?|]]; [done|].
  exists p0. injection H as <-.
  do 3 (split; [done|]).
  unfold enrichCoverImage, enrichSubtitle, subtitleText, ogImage.
  set (t := goquery.Text _). set (og := goquery.Attr _ _).
  destruct p0 as [id pid ty slug date url' prev next cover desc sub wc title html].
  destruct (isEmpty t) eqn:Ht; simpl.
  - apply isEmpty_true in Ht. rewrite Ht. rewrite TrimSpace_empty.
    destruct (isEmpty cover) eqn:Hc; simpl.
    + apply isEmpty_true in Hc. subst cover.
      destruct og as [[|c o]|]; simpl; by repeat split.
    + apply isEmpty_false in Hc. by repeat split.
  - apply isEmpty_false in Ht.
    destruct (isEmpty cover) eqn:Hc; simpl.
    + apply isEmpty_true in Hc. subst cover.
      destruct og as [[|c o]|]; simpl; by repeat split.
    + apply isEmpty_false in Hc. by repeat split.
Qed.

(** ** Listing the posts of a site map *)

Lemma Find_url_sitemap es :
  goquery.Find (SelTag "url") (sitemapDoc es) = map urlElement es.
Proof.
  unfold goquery.Find, sitemapDoc, document. simpl.
  rewrite app_nil_r.
  induction es as [|e es IH]; simpl; [done|].
  rewrite <-IH. unfold urlElement at 2. destruct (lastmod e); reflexivity.
Qed.

Lemma Text_loc e :
  goquery.Text (goquery.Find (SelTag "loc") (urlElement e)) = loc e.
Proof.
  unfold urlElement, goquery.Text, goquery.Find, goquery.joinText.
  destruct (lastmod e); simpl; by rewrite !append_nil_r.
Qed.

Lemma Text_lastmod e :
  goquery.Text (goquery.Find (SelTag "lastmod") (urlElement e))
  = default EmptyString (lastmod e).
Proof.
  unfold urlElement, goquery.Text, goquery.Find, goquery.joinText.
  destruct (lastmod e); simpl; by rewrite ?append_nil_r.
Qed.

(** While the context stays alive the loop lists the entries that the
    [url] elements hold as text. *)
Lemma eachURL_writes ctx i f sel es urls :
  (∀ k, ctx k = false) →
  Forall2 (fun u e =>
             goquery.Text (goquery.Find (SelTag "loc") u) = loc e
             ∧ goquery.Text (goquery.Find (SelTag "lastmod") u)
               = default EmptyString (lastmod e)) sel es →
  eachURL ctx i f sel urls = (urls ++ expectedPostURLs f es)%list.
Proof.
  intros Hctx Hsel. revert i urls.
  induction Hsel as [|u e sel es [Hloc Hlastmod] _ IH]; intros i urls.
  { simpl. by rewrite app_nil_r. }
  cbn [eachURL]. rewrite Hctx, Hloc, Hlastmod.
  unfold expectedPostURLs, isPostEntry in *. cbn [List.filter].
  destruct (Contains (loc e) "/p/"); cbn [negb andb]; [|apply IH].
  destruct f as [f'|].
  - destruct (f' (default EmptyString (lastmod e))); cbn [negb]; [|apply IH].
    rewrite IH. cbn [map]. by rewrite <-app_assoc.
  - rewrite IH. cbn [map]. by rewrite <-app_assoc.
Qed.

Lemma eachURL_expected ctx i f es urls :
  (∀ k, ctx k = false) →
  eachURL ctx i f (map urlElement es) urls = (urls ++ expectedPostURLs f es)%list.
Proof.
  intros Hctx. apply eachURL_writes; [done|].
  induction es as [|e es IH]; constructor; [|done].
  split; [apply Text_loc|apply Text_lastmod].
Qed.

(** The document of the tests is a site map with its entries, and every
    document is a site map with the entries that its [url] elements hold
    as text. *)
Lemma sitemapDoc_writes es : writes goquery.Text (sitemapDoc es) es.
Proof.
  unfold writes. rewrite Find_url_sitemap.
  induction es as [|e es IH]; constructor; [|done].
  split; [apply Text_loc|apply Text_lastmod].
Qed.

Lemma every_document_writes doc :
  writes goquery.Text doc
    (map (fun u => mkSitemapEntry
                     (goquery.Text (goquery.Find (SelTag "loc") u))
                     (Some (goquery.Text (goquery.Find (SelTag "lastmod") u))))
         (goquery.Find (SelTag "url") doc)).
Proof.
  unfold writes. induction (goquery.Find (SelTag "url") doc) as [|u us IH];
    constructor; done.
Qed.

(** Without CDATA sections the text that the program reads is the
    content that XML gives the elements. *)
Lemma Node_induction (P : Node → Prop) :
  (∀ d, P (TextNode d)) →
  (∀ d, P (CommentNode d)) →
  (∀ tag attrs cs, Forall P cs → P (ElementNode tag attrs cs)) →
  ∀ n, P n.
Proof.
  intros Htext Hcomment Helement. fix IH 1.
  intros [d|d|tag attrs cs]; [apply Htext|apply Hcomment|].
  apply Helement. induction cs as [|c cs IHcs]; constructor; [apply IH|apply IHcs].
Qed.

Lemma xmlText_noComment n : noComment n = true → xmlText n = goquery.nodeText n.
Proof.
  induction n as [d|d|tag attrs cs IH] using Node_induction; simpl; [done..|].
  induction IH as [|c cs Hc _ IHcs]; simpl; [done|].
  intros [Hc' Hcs]%andb_prop. by rewrite (Hc Hc'), (IHcs Hcs).
Qed.

Lemma noComment_descendants n d :
  noComment n = true → d ∈ goquery.descendants n → noComment d = true.
Proof.
  induction n as [x|x|tag attrs cs IH] using Node_induction; simpl;
    [by intros _ ?%elem_of_nil..|].
  induction IH as [|c cs Hc _ IHcs]; simpl; [by intros _ ?%elem_of_nil|].
  intros [Hc' Hcs]%andb_prop [->|[Hd|Hd]%elem_of_app]%elem_of_cons; [done| |].
  - by apply Hc.
  - by apply IHcs.
Qed.

Lemma xmlContent_noComment sel u :
  noComment u = true →
  xmlContent (goquery.Find sel u) = goquery.Text (goquery.Find sel u).
Proof.
  intros Hu. unfold xmlContent, goquery.Text, goquery.Find. f_equal.
  apply map_ext_in. intros d [Hd _]%filter_In.
  apply xmlText_noComment, (noComment_descendants u); [done|].
  by apply list_elem_of_In.
Qed.

Lemma writes_without_CDATA doc es :
  Forall (fun u => noComment u = true) (goquery.Find (SelTag "url") doc) →
  writes xmlContent doc es → writes goquery.Text doc es.
Proof.
  unfold writes. intros Hplain Hwrites.
  induction Hwrites as [|u e us es [Hloc Hlastmod] _ IH]; [constructor|].
  apply Forall_cons in Hplain as [Hu Hus]. constructor; [|by apply IH].
  by rewrite <-!xmlContent_noComment.
Qed.

(** C7, amended.  For every site map with the entries [es] whose [url]
    elements hold the [loc] and the [lastmod] of the entries as text,
    whatever else the document holds, fetched and scanned while the context
    stays alive, [GetAllPostsURLs] returns exactly the [loc] of the entries
    whose [loc] contains [/p/] and whose [lastmod] the filter accepts, in
    the order of the site map and without an error; each returned URL
    contains [/p/], and without a filter there are as many as there are
    [/p/] entries.  The [url] elements hold as text what XML gives them as
    content whenever no comment and no CDATA section is inside them. *)
Theorem C7_GetAllPostsURLs_lists_the_posts :
  (∀ ctx pubUrl f u body doc es,
     sitemapURL pubUrl = inr u →
     FetchURL (ctx 0%nat) u = inr body →
     NewDocumentFromReader body = inr doc →
     (∀ k, ctx k = false) →
     writes goquery.Text doc es →
     GetAllPostsURLs Body FetchURL NewDocumentFromReader sitemapURL ctx pubUrl f
       = (map loc (List.filter (isPostEntry f) es), None)
     ∧ Forall (fun url => Contains url "/p/" = true)
              (map loc (List.filter (isPostEntry f) es))
     ∧ (f = None →
        length (map loc (List.filter (isPostEntry f) es))
        = length (List.filter (fun e => Contains (loc e) "/p/") es)))
  ∧ (∀ doc es,
       Forall (fun u => noComment u = true) (goquery.Find (SelTag "url") doc) →
       writes xmlContent doc es → writes goquery.Text doc es).
Proof.
  split; [|apply writes_without_CDATA].
  intros ctx pubUrl f u body doc es Hurl Hfetch Hdoc Hctx Hwrites. split; [|split].
  - unfold GetAllPostsURLs. rewrite Hurl, Hfetch, Hdoc.
    by rewrite (eachURL_writes _ _ _ _ es).
  - apply Forall_forall. intros url Hin.
    apply list_elem_of_In, in_map_iff in Hin as (e & <- & He).
    apply filter_In in He as [_ He]. unfold isPostEntry in He.
    by apply andb_true_iff in He as [? _].
  - intros ->. rewrite length_map. f_equal.
    apply filter_ext. intros e. unfold isPostEntry. by rewrite andb_true_r.
Qed.
End ExtractorFacts.

(** The claim C3 as it is written fails: a subtitle that the payload
    carries is overwritten by the text of the [.subtitle] element. *)
Lemma C3_subtitle_is_overwritten :
  ¬ (∀ (doc : Node) (p0 p : Post),
       payloadPost doc = Some p0 →
       ExtractPost Node (serve [("u", doc)]) parsed Background "u" = Returned (p, None) →
       Subtitle p0 ≠ EmptyString →
       Subtitle p = Subtitle p0).
Proof.
  intros H.
  specialize (H pageWithSubtitle createSamplePost
                (set_Subtitle createSamplePost "HTML subtitle")).
  assert (Subtitle (set_Subtitle createSamplePost "HTML subtitle")
          = Subtitle createSamplePost) as Heq.
  { apply H; [by vm_compute|by vm_compute|discriminate]. }
  vm_compute in Heq. discriminate Heq.
Qed.

Lemma C3_enrichment_witness :
  ∃ body doc p0,
    serve [("u", pageWithSubtitle)] (Background 0%nat) "u" = inr body
    ∧ parsed body = inr doc
    ∧ payloadPost doc = Some p0
    ∧ (TrimSpace (subtitleText doc) ≠ EmptyString →
       Subtitle (set_Subtitle createSamplePost "HTML subtitle")
       = TrimSpace (subtitleText doc))
    ∧ (subtitleText doc = EmptyString →
       Subtitle (set_Subtitle createSamplePost "HTML subtitle") = Subtitle p0)
    ∧ (CoverImage p0 ≠ EmptyString →
       CoverImage (set_Subtitle createSamplePost "HTML subtitle") = CoverImage p0)
    ∧ (CoverImage p0 = EmptyString →
       CoverImage (set_Subtitle createSamplePost "HTML subtitle")
       = default EmptyString (ogImage doc))
    ∧ set_CoverImage (set_Subtitle (set_Subtitle createSamplePost "HTML subtitle")
                        (Subtitle p0)) (CoverImage p0) = p0.
Proof.
  apply (C3_enrichment_of_decoded_post Node (serve [("u", pageWithSubtitle)]) parsed
           Background "u"). vm_compute. reflexivity.
Defined.

Lemma C8_ExtractPost_without_preload_witness :
  ExtractPost Node (serve [("u", pageWithoutScript)]) parsed Background "u"
  = Returned (Post_zero,
              Some (Errorf_w "failed to extract post data"
                      (errors_New "failed to extract JSON string"))).
Proof.
  apply (C8_ExtractPost_without_preload Node (serve [("u", pageWithoutScript)]) parsed
           Background "u" pageWithoutScript pageWithoutScript);
    [reflexivity|reflexivity|].
  intros s Hs. vm_compute in Hs. by apply elem_of_nil in Hs.
Defined.

(** The claim C7 as it is written fails: a site map is valid XML also when
    the [loc] of an entry is written as a CDATA section, and of such an
    entry the program reads an empty [loc], because its parser is one of
    HTML; the post is not listed. *)
Lemma C7_CDATA_loc_is_not_listed :
  writes xmlContent cdataSitemapDoc cdataSitemap
  ∧ expectedPostURLs None cdataSitemap = ["https://example.substack.com/p/cdata-post"]
  ∧ GetAllPostsURLs Node (serve [("https://example.substack.com/sitemap.xml",
                                  cdataSitemapDoc)]) parsed joinSitemap
      Background "https://example.substack.com" None
    = ([], None)
  ∧ ¬ (∀ doc es,
         writes xmlContent doc es →
         GetAllPostsURLs Node (serve [("https://example.substack.com/sitemap.xml",
                                       doc)]) parsed joinSitemap
           Background "https://example.substack.com" None
         = (expectedPostURLs None es, None)).
Proof.
  assert (writes xmlContent cdataSitemapDoc cdataSitemap) as Hwrites.
  { unfold writes. vm_compute goquery.Find. repeat constructor. }
  split; [done|]. split; [reflexivity|]. split; [vm_compute; reflexivity|].
  intros H. specialize (H cdataSitemapDoc cdataSitemap Hwrites).
  vm_compute in H. discriminate H.
Qed.

Lemma C7_GetAllPostsURLs_witness :
  GetAllPostsURLs Node (serve [("https://example.substack.com/sitemap.xml",
                                denseSitemapDoc testSitemap)]) parsed joinSitemap
    Background "https://example.substack.com" (Some afterJan02)
    = (map loc (List.filter (isPostEntry (Some afterJan02)) testSitemap), None)
  ∧ Forall (fun url => Contains url "/p/" = true)
           (map loc (List.filter (isPostEntry (Some afterJan02)) testSitemap))
  ∧ (Some afterJan02 = None →
     length (map loc (List.filter (isPostEntry (Some afterJan02)) testSitemap))
     = length (List.filter (fun e => Contains (loc e) "/p/") testSitemap)).
Proof.
  apply (proj1 (C7_GetAllPostsURLs_lists_the_posts Node
                  (serve [("https://example.substack.com/sitemap.xml",
                           denseSitemapDoc testSitemap)]) parsed joinSitemap)
           Background "https://example.substack.com" (Some afterJan02)
           "https://example.substack.com/sitemap.xml" (denseSitemapDoc testSitemap)
           (denseSitemapDoc testSitemap) testSitemap);
    [reflexivity|reflexivity|reflexivity|reflexivity|].
  apply (proj2 (C7_GetAllPostsURLs_lists_the_posts Node
                  (serve [("https://example.substack.com/sitemap.xml",
                           denseSitemapDoc testSitemap)]) parsed joinSitemap)).
  - vm_compute goquery.Find. repeat constructor.
  - unfold writes. vm_compute goquery.Find. repeat constructor.
Defined.

(** The listing of the test: the three posts after 2023-01-02. *)
Example listing_after_Jan02 :
  GetAllPostsURLs Node (serve [("https://example.substack.com/sitemap.xml",
                                sitemapDoc testSitemap)]) parsed joinSitemap
    Background "https://example.substack.com" (Some afterJan02)
  = (["https://example.substack.com/p/test-post-3";
      "https://example.substack.com/p/test-post-4";
      "https://example.substack.com/p/test-post-5"], None).
Proof. vm_compute. reflexivity. Qed.

(** ** The worker pool *)

Local Close Scope string_scope.

Lemma insert_split {A} (l : list A) i x y :
  l !! i = Some x → ∃ l1 l2, l = l1 ++ x :: l2 ∧ <[i := y]> l = l1 ++ y :: l2.
Proof.
  revert i. induction l as [|z l IH]; intros [|i] Hl; simplify_eq/=.
  - by exists [], l.
  - destruct (IH _ Hl) as (l1 & l2 & -> & ->). by exists (z :: l1), l2.
Qed.

Lemma inflight_app ws1 ws2 : inflight (ws1 ++ ws2) = inflight ws1 ++ inflight ws2.
Proof. apply flat_map_app. Qed.

Lemma inflight_cons w ws : inflight (w :: ws) = held w ++ inflight ws.
Proof. done. Qed.

Lemma inflight_replicate n : inflight (replicate n WRange) = [].
Proof. induction n as [|n IH]; simpl; [done|]. apply IH. Qed.

Lemma allDone_app ws1 ws2 : allDone (ws1 ++ ws2) = allDone ws1 && allDone ws2.
Proof. apply forallb_app. Qed.

Lemma allDone_lookup ws i w : allDone ws = true → ws !! i = Some w → w = WDone.
Proof.
  unfold allDone. rewrite forallb_forall. intros Hall Hw.
  apply list_elem_of_lookup_2, list_elem_of_In, Hall in Hw. by destruct w.
Qed.

Lemma allDone_inflight ws : allDone ws = true → inflight ws = [].
Proof.
  induction ws as [|w ws IH]; [done|].
  intros H.
  change (allDone (w :: ws))
    with (match w with WDone => true | _ => false end && allDone ws) in H.
  apply andb_true_iff in H as [Hw Hws].
  rewrite inflight_cons, IH by done. by destruct w.
Qed.

Lemma allDone_false ws :
  allDone ws = false → ∃ i w, ws !! i = Some w ∧ w ≠ WDone.
Proof.
  induction ws as [|w ws IH]; simpl; [done|].
  destruct w; simpl; try (intros _; by eexists 0%nat, _).
  intros (i & w & Hi & Hw)%IH. by exists (S i), w.
Qed.

Lemma poolWork_insert ws i w w' :
  ws !! i = Some w →
  (sum_list_with workerWeight (<[i := w']> ws) + workerWeight w
   = sum_list_with workerWeight ws + workerWeight w')%nat.
Proof.
  intros (l1 & l2 & -> & ->)%(insert_split _ _ _ w').
  rewrite !sum_list_with_app. simpl. lia.
Qed.

Section PoolFacts.
Variable Body : Type.
Variable FetchURL : bool → string → error + Body.
Variable NewDocumentFromReader : Body → error + Node.

Local Abbreviation extractPost := (ExtractPost Body FetchURL NewDocumentFromReader).
Local Abbreviation step := (poolStep Body FetchURL NewDocumentFromReader).
Local Abbreviation reach := (poolReach Body FetchURL NewDocumentFromReader).
Local Abbreviation inv := (poolInv Body FetchURL NewDocumentFromReader).
Local Abbreviation made := (produced Body FetchURL NewDocumentFromReader).
Local Abbreviation pairOf := (resultOf Body FetchURL NewDocumentFromReader).

(** Runs compose at the front as well. *)
Lemma reach_first s0 s1 s : step s0 s1 → reach s1 s → reach s0 s.
Proof.
  intros Hstep Hreach. induction Hreach as [|s s' _ IH Hs].
  - eapply reach_step; [apply reach_start|done].
  - by eapply reach_step.
Qed.

Lemma produced_mono (d d' : bool) u r :
  (d = true → d' = true) → made d u r → made d' u r.
Proof. intros Hd (c & Hc & Hr). exists c. split; [tauto|done]. Qed.

Lemma produced_alive u r : made false u r → r = pairOf u.
Proof.
  intros (c & Hc & Hr). destruct c; [by specialize (Hc eq_refl)|].
  unfold resultOf, Background. rewrite Hr. by destruct r.
Qed.

Lemma poolInv_start cancelled urls : inv urls (startPool cancelled urls).
Proof.
  exists [], []. unfold startPool.
  cbn [urlCh workers resultCh cap closed ctxDone app].
  rewrite inflight_replicate, app_nil_r.
  refine (conj _ (conj _ (conj _ (conj _ (conj _ (conj _ _)))))); try done.
  - intros _ Hin. by apply elem_of_replicate_inv in Hin.
  - by rewrite length_replicate.
Qed.

(** A worker that is not done keeps the pool from being closed. *)
Lemma not_closed_with_worker s i w :
  (closed s = true → allDone (workers s) = true) →
  workers s !! i = Some w → w ≠ WDone → closed s = true → False.
Proof.
  intros Hclosed Hw Hne Hc. apply Hne.
  eapply allDone_lookup; [by apply Hclosed|done].
Qed.

Lemma poolInv_step urls s s' : inv urls s → step s s' → inv urls s'.
Proof.
  intros (sent & dropped & Hperm & Hres & Hdrop & Hcap & Hclosed & Hdone & Hlen) Hstep.
  destruct Hstep as [s|s i u q Hw Hq|s i Hw Hq|s i u Hw Hctx|s i u Hw Hctx
                    |s i u c post err Hw Hc Hpost Hroom|s Hall Hopen];
    unfold poolInv; cbn [cancel urlCh workers resultCh cap closed ctxDone].
  - exists sent, dropped.
    refine (conj _ (conj _ (conj _ (conj _ (conj _ (conj _ _)))))); try done.
    eapply Forall2_impl; [done|]. intros u r. by apply produced_mono.
  - pose proof (not_closed_with_worker s i _ Hclosed Hw ltac:(done)) as Hnc.
    destruct (insert_split _ _ _ (WSelect u) Hw) as (l1 & l2 & Hws & ->).
    rewrite Hws in *. exists sent, dropped. refine (conj _ (conj _ (conj _ (conj _ (conj _ (conj _ _)))))); try done.
    + rewrite Hperm, Hq, !inflight_app, !inflight_cons. simpl. solve_Permutation.
    + intros Halive Hin. exfalso.
      assert (WDone ∈ l1 ++ WRange :: l2) as Hin'.
      { rewrite elem_of_app, elem_of_cons in Hin |- *.
        destruct Hin as [?|[?|?]]; [by left|done|right; by right]. }
      by rewrite (Hdone Halive Hin') in Hq.
    + rewrite <-Hlen, !length_app. done.
  - pose proof (not_closed_with_worker s i _ Hclosed Hw ltac:(done)) as Hnc.
    destruct (insert_split _ _ _ WDone Hw) as (l1 & l2 & Hws & ->).
    rewrite Hws in *. exists sent, dropped. refine (conj _ (conj _ (conj _ (conj _ (conj _ (conj _ _)))))); try done.
    + rewrite Hperm, !inflight_app, !inflight_cons. simpl. solve_Permutation.
    + rewrite <-Hlen, !length_app. done.
  - pose proof (not_closed_with_worker s i _ Hclosed Hw ltac:(done)) as Hnc.
    destruct (insert_split _ _ _ WDone Hw) as (l1 & l2 & Hws & ->).
    rewrite Hws in *. exists sent, (u :: dropped). refine (conj _ (conj _ (conj _ (conj _ (conj _ (conj _ _)))))); try done.
    + rewrite Hperm, !inflight_app, !inflight_cons. simpl. solve_Permutation.
    + intros Halive. by rewrite Halive in Hctx.
    + rewrite <-Hlen, !length_app. done.
  - pose proof (not_closed_with_worker s i _ Hclosed Hw ltac:(done)) as Hnc.
    destruct (insert_split _ _ _ (WExtract u) Hw) as (l1 & l2 & Hws & ->).
    rewrite Hws in *. exists sent, dropped. refine (conj _ (conj _ (conj _ (conj _ (conj _ (conj _ _)))))); try done.
    + rewrite Hperm, !inflight_app, !inflight_cons. simpl. solve_Permutation.
    + intros Halive Hin. apply Hdone; [done|].
      rewrite elem_of_app, elem_of_cons in Hin |- *.
      destruct Hin as [?|[?|?]]; [by left|done|right; by right].
    + rewrite <-Hlen, !length_app. done.
  - pose proof (not_closed_with_worker s i _ Hclosed Hw ltac:(done)) as Hnc.
    destruct (insert_split _ _ _ WRange Hw) as (l1 & l2 & Hws & ->).
    rewrite Hws in *. exists (sent ++ [u]), dropped. refine (conj _ (conj _ (conj _ (conj _ (conj _ (conj _ _)))))); try done.
    + rewrite Hperm, !inflight_app, !inflight_cons. simpl. solve_Permutation.
    + apply Forall2_app; [done|]. repeat constructor. by exists c.
    + intros Halive Hin. apply Hdone; [done|].
      rewrite elem_of_app, elem_of_cons in Hin |- *.
      destruct Hin as [?|[?|?]]; [by left|done|right; by right].
    + rewrite <-Hlen, !length_app. done.
  - exists sent, dropped.
    refine (conj _ (conj _ (conj _ (conj _ (conj _ (conj _ _)))))); done.
Qed.

Lemma poolInv_reach cancelled urls s :
  reach (startPool cancelled urls) s → inv urls s.
Proof.
  induction 1 as [|s s' _ IH Hstep]; [apply poolInv_start|].
  by eapply poolInv_step.
Qed.

(** Every step but a cancellation uses up work. *)
Lemma poolStep_work s s' :
  step s s' → (poolWork s' < poolWork s)%nat ∨ s' = cancel s.
Proof.
  intros Hstep.
  destruct Hstep as [s|s i u q Hw Hq|s i Hw Hq|s i u Hw Hctx|s i u Hw Hctx
                    |s i u c post err Hw Hc Hpost Hroom|s Hall Hopen];
    [by right|left; unfold poolWork; simpl..].
  - pose proof (poolWork_insert _ _ _ (WSelect u) Hw). rewrite Hq. simpl in *. lia.
  - pose proof (poolWork_insert _ _ _ WDone Hw). simpl in *. lia.
  - pose proof (poolWork_insert _ _ _ WDone Hw). simpl in *. lia.
  - pose proof (poolWork_insert _ _ _ (WExtract u) Hw). simpl in *. lia.
  - pose proof (poolWork_insert _ _ _ WRange Hw). simpl in *. lia.
  - rewrite Hopen. lia.
Qed.

(** A pool that is not closed can move on. *)
Lemma poolInv_progress urls s :
  inv urls s → closed s = false →
  ∃ s', step s s' ∧ (poolWork s' < poolWork s)%nat.
Proof.
  intros (sent & dropped & Hperm & Hres & Hdrop & Hcap & Hclosed & Hdone & Hlen) Hopen.
  assert (∀ s', step s s' → s' ≠ cancel s →
                ∃ s', step s s' ∧ (poolWork s' < poolWork s)%nat) as Hmove.
  { intros s' Hstep Hne. exists s'. split; [done|].
    by destruct (poolStep_work _ _ Hstep). }
  destruct (allDone (workers s)) eqn:Hall.
  { eapply Hmove; [by apply step_close|].
    unfold cancel. intros [=]. congruence. }
  apply allDone_false in Hall as (i & w & Hw & Hne).
  destruct w as [|u|u|]; [| | |done].
  - destruct (urlCh s) as [|u q] eqn:Hq.
    + eapply Hmove; [by apply step_drained|].
      unfold cancel. intros [= Hws].
      apply (f_equal (.!! i)) in Hws. rewrite Hw in Hws.
      rewrite list_lookup_insert_eq in Hws by (by eapply lookup_lt_Some). done.
    + eapply Hmove; [by eapply step_receive|].
      unfold cancel. rewrite Hq. intros [= Hq' _]. 
      apply (f_equal length) in Hq'. simpl in Hq'. lia.
  - destruct (ctxDone s) eqn:Hctx.
    + eapply Hmove; [by eapply step_select_done|].
      unfold cancel. intros [= Hws].
      apply (f_equal (.!! i)) in Hws. rewrite Hw in Hws.
      rewrite list_lookup_insert_eq in Hws by (by eapply lookup_lt_Some). done.
    + eapply Hmove; [by eapply step_select_default|].
      unfold cancel. intros [= Hws].
      apply (f_equal (.!! i)) in Hws. rewrite Hw in Hws.
      rewrite list_lookup_insert_eq in Hws by (by eapply lookup_lt_Some). done.
  - pose proof (ExtractPost_no_panic Body FetchURL NewDocumentFromReader
                  (fun _ => ctxDone s) u) as Hpanic.
    destruct (extractPost (fun _ => ctxDone s) u) as [[post err]|] eqn:Hpost; [|done].
    assert (length (resultCh s) < cap s)%nat as Hroom.
    { rewrite Hcap, <-(Forall2_length _ _ _ Hres), Hperm, !length_app.
      destruct (insert_split _ _ _ WRange Hw) as (l1 & l2 & -> & _).
      rewrite inflight_app, inflight_cons, !length_app. simpl. lia. }
    eapply Hmove; [by eapply (step_send _ _ _ s i u (ctxDone s))|].
    unfold cancel. intros [= _ Hrc].
    apply (f_equal length) in Hrc. rewrite length_app in Hrc. simpl in Hrc. lia.
Qed.

(** Once the result channel is closed nothing is sent any more. *)
Lemma closed_is_final urls s s' :
  inv urls s → closed s = true → step s s' →
  resultCh s' = resultCh s ∧ closed s' = true.
Proof.
  intros (sent & dropped & _ & _ & _ & _ & Hclosed & _) Hc Hstep.
  specialize (Hclosed Hc).
  destruct Hstep as [s|s i u q Hw Hq|s i Hw Hq|s i u Hw Hctx|s i u Hw Hctx
                    |s i u c post err Hw Hc' Hpost Hroom|s Hall Hopen]; simpl;
    try done;
    by pose proof (allDone_lookup _ _ _ Hclosed Hw).
Qed.

(** What a closed pool has sent. *)
Lemma closed_results urls s :
  inv urls s → closed s = true →
  ∃ processed skipped,
    urls ≡ₚ processed ++ skipped
    ∧ Forall2 (made (ctxDone s)) processed (resultCh s)
    ∧ (skipped ≠ [] → ctxDone s = true).
Proof.
  intros (sent & dropped & Hperm & Hres & Hdrop & Hcap & Hclosed & Hdone & Hlen) Hc.
  specialize (Hclosed Hc).
  rewrite (allDone_inflight _ Hclosed) in Hperm. simpl in Hperm.
  exists sent, (urlCh s ++ dropped). repeat split; try done.
  intros Hskipped. destruct (ctxDone s) eqn:Hctx; [done|exfalso].
  destruct dropped as [|d dropped]; [|by specialize (Hdrop ltac:(done))].
  rewrite app_nil_r in Hskipped, Hperm.
  destruct (workers s) as [|w ws] eqn:Hws.
  - cbn [length] in Hlen. apply Hskipped.
    assert (length urls = 0)%nat as Hurls by lia.
    rewrite Hperm, length_app in Hurls.
    destruct (urlCh s); [done|simpl in Hurls; lia].
  - apply Hskipped, Hdone; [done|].
    simpl in Hclosed. apply andb_true_iff in Hclosed as [Hw _].
    destruct w; try done. by left.
Qed.
Lemma results_bounded urls s :
  inv urls s → (length (resultCh s) ≤ length urls)%nat.
Proof.
  intros (sent & dropped & Hperm & Hres & _).
  rewrite <-(Forall2_length _ _ _ Hres), Hperm, !length_app. lia.
Qed.

Lemma closed_results_alive urls s :
  inv urls s → closed s = true → ctxDone s = false →
  resultCh s ≡ₚ map pairOf urls.
Proof.
  intros Hinv Hc Hctx.
  destruct (closed_results urls s Hinv Hc) as (processed & skipped & Hperm & Hres & Hskip).
  destruct skipped as [|u skipped];
    [|specialize (Hskip ltac:(done)); congruence].
  rewrite app_nil_r in Hperm. rewrite Hperm, Hctx in *. clear Hperm.
  induction Hres as [|u r us rs Hr _ IH]; [done|].
  cbn [map]. by rewrite (produced_alive u r Hr), IH.
Qed.


End PoolFacts.

(** A run in which the context is cancelled between the two URLs. *)
Lemma cancelled_run :
  poolReach Node (serve testPages) parsed
    (startPool false ["u1"; "u2"]%string) cancelledRunEnd.
Proof.
  eapply reach_first.
  { eapply (step_receive _ _ _ _ 0%nat); reflexivity. }
  eapply reach_first.
  { eapply (step_select_default _ _ _ _ 0%nat); reflexivity. }
  eapply reach_first.
  { eapply (step_send _ _ _ _ 0%nat _ false);
      [reflexivity|discriminate|vm_compute; reflexivity|simpl; lia]. }
  eapply reach_first; [apply step_cancel|].
  eapply reach_first.
  { eapply (step_receive _ _ _ _ 0%nat); reflexivity. }
  eapply reach_first.
  { eapply (step_select_done _ _ _ _ 0%nat); reflexivity. }
  eapply reach_first.
  { eapply (step_drained _ _ _ _ 1%nat); reflexivity. }
  eapply reach_first; [apply step_close; reflexivity|].
  apply reach_start.
Qed.

(** A run to the end with no cancellation. *)
Lemma alive_run :
  poolReach Node (serve testPages) parsed (startPool false ["u1"%string]) aliveRunEnd.
Proof.
  eapply reach_first.
  { eapply (step_receive _ _ _ _ 0%nat); reflexivity. }
  eapply reach_first.
  { eapply (step_select_default _ _ _ _ 0%nat); reflexivity. }
  eapply reach_first.
  { eapply (step_send _ _ _ _ 0%nat _ false);
      [reflexivity|discriminate|vm_compute; reflexivity|simpl; lia]. }
  eapply reach_first.
  { eapply (step_drained _ _ _ _ 0%nat); reflexivity. }
  eapply reach_first; [apply step_close; reflexivity|].
  apply reach_start.
Qed.




Local Open Scope string_scope.
Local Open Scope Z_scope.

(** ** The payload of the mock page *)

Lemma take_append s t : take (String.length s) (s ++ t) = s.
Proof. induction s as [|c s IH]; simpl; [by destruct t|by rewrite IH]. Qed.

Lemma LastIndex_from_append i found s t sub :
  ∃ found', LastIndex_from i found (s ++ t) sub
            = LastIndex_from (i + len s) found' t sub.
Proof.
  revert i found. induction s as [|c s IH]; intros i found.
  - exists found. unfold len. simpl. by rewrite Z.add_0_r.
  - change (String c s ++ t) with (String c (s ++ t)).
    rewrite LastIndex_from_cons.
    destruct (IH (i + 1) (if HasPrefix (String c (s ++ t)) sub then i else found))
      as (found' & ->).
    exists found'. f_equal. unfold len. simpl String.length. lia.
Qed.

Lemma scriptCallback_preloadScript payload :
  payload ≠ EmptyString →
  scriptCallback (preloadScript payload) = Returned (Some payload).
Proof.
  intros Hne. unfold scriptCallback.
  assert (Contains (preloadScript payload) preloadsMarker = true) as -> by reflexivity.
  assert (Contains (preloadScript payload) parseCall = true) as -> by reflexivity.
  assert (Index (preloadScript payload) parseOpen = 24) as -> by reflexivity.
  assert (LastIndex (preloadScript payload) parseClose
          = 36 + Z.of_nat (String.length payload)) as ->.
  { unfold LastIndex.
    change (preloadScript payload)
      with ((nl ++ "    window._preloads = JSON.parse(" ++ dq)
            ++ (payload ++ (dq ++ ")" ++ nl ++ "  "))).
    destruct (LastIndex_from_append 0 (-1)
                (nl ++ "    window._preloads = JSON.parse(" ++ dq)
                (payload ++ (dq ++ ")" ++ nl ++ "  ")) parseClose) as (f1 & ->).
    destruct (LastIndex_from_append
                (0 + len (nl ++ "    window._preloads = JSON.parse(" ++ dq)) f1
                payload (dq ++ ")" ++ nl ++ "  ") parseClose) as (f2 & ->).
    unfold len. simpl. lia. }
  assert (String.length payload ≠ 0%nat) by (by destruct payload).
  cbn [andb].
  replace (24 =? -1) with false by done.
  replace (36 + Z.of_nat (String.length payload) =? -1) with false
    by (symmetry; apply Z.eqb_neq; lia).
  replace (36 + Z.of_nat (String.length payload) <=? 24 + len parseOpen) with false
    by (symmetry; apply Z.leb_gt; unfold len; simpl; lia).
  cbn [orb]. unfold slice.
  replace ((0 <=? 24 + len parseOpen)
           && (24 + len parseOpen <=? 36 + Z.of_nat (String.length payload))
           && (36 + Z.of_nat (String.length payload) <=? len (preloadScript payload)))
    with true.
  2:{ symmetry. rewrite !andb_true_iff, !Z.leb_le. unfold len, preloadScript.
      rewrite !length_append. simpl. lia. }
  replace (Z.to_nat (24 + len parseOpen)) with 36%nat by (unfold len; simpl; lia).
  replace (Z.to_nat (36 + Z.of_nat (String.length payload) - (24 + len parseOpen)))
    with (String.length payload) by (unfold len; simpl; lia).
  change (drop 36 (preloadScript payload)) with (payload ++ (dq ++ ")" ++ nl ++ "  ")).
  by rewrite take_append.
Qed.

Lemma extractJSONString_mockPage title payload :
  payload ≠ EmptyString →
  extractJSONString (mockPage title payload [] []) = Returned (payload, None).
Proof.
  intros Hne. unfold extractJSONString.
  change (goquery.Find (SelTag "script") (mockPage title payload [] []))
    with [ElementNode "script" [] [TextNode (preloadScript payload)]].
  cbn [eachScript goquery.nodeText map goquery.joinText fold_right].
  by rewrite append_nil_r, scriptCallback_preloadScript.
Qed.

(** ** The round trip of a post through a page *)

Local Arguments Ascii.eqb : simpl nomatch.
Local Arguments json.byte : simpl nomatch.

(** ** Scanning string literals *)

Lemma scan_app st x y :
  json.scan st (x ++ y) = json.scan st x ≫= fun st' => json.scan st' y.
Proof.
  revert st. induction x as [|c x IH]; intros st; simpl; [done|].
  destruct (json.step st c); [apply IH|done].
Qed.

Lemma escapeQuotes_app x y : escapeQuotes (x ++ y) = escapeQuotes x ++ escapeQuotes y.
Proof.
  unfold escapeQuotes. induction x as [|c x IH]; simpl; [done|].
  rewrite IH. by destruct (Ascii.eqb c dquote).
Qed.

Lemma plainByte_facts c :
  plainByte c = true →
  Ascii.eqb c dquote = false ∧ Ascii.eqb c bslash = false
  ∧ (json.byte c <? 32) = false ∧ (json.byte c <? 128) = true.
Proof.
  unfold plainByte. rewrite !andb_true_iff, !negb_true_iff, Z.leb_le, Z.ltb_lt.
  intros [[[? ?] ?] ?]. repeat split; try done;
    try (apply Z.ltb_ge; lia); by apply Z.ltb_lt.
Qed.

Lemma carries_nil : carries EmptyString EmptyString.
Proof.
  unfold carries, escapeQuotes. split.
  - intros raw stk rest. simpl. by rewrite append_nil_r.
  - intros y. simpl. by destruct (json.unquote 0 y).
Qed.

Lemma carries_app x x' y y' : carries x x' → carries y y' → carries (x ++ y) (x' ++ y').
Proof.
  intros [Hx1 Hx2] [Hy1 Hy2]. split.
  - intros raw stk rest. by rewrite escapeQuotes_app, !append_assoc, Hx1, Hy1, append_assoc.
  - intros z. rewrite escapeQuotes_app, !append_assoc, Hx2, Hy2.
    destruct (json.unquote 0 z); simpl; [|done]. by rewrite append_assoc.
Qed.

Lemma carries_plainByte c :
  plainByte c = true → carries (String c EmptyString) (String c EmptyString).
Proof.
  intros (Hq & Hb & Hlo & Hhi)%plainByte_facts. unfold carries, escapeQuotes. split.
  - intros raw stk rest. simpl. rewrite Hq. simpl. by rewrite Hq, Hb, Hlo.
  - intros y. simpl. rewrite Hq. simpl. rewrite Hb, Hq, Hlo, Hhi. simpl.
    by destruct (json.unquote 0 y).
Qed.

Lemma carries_dquote : carries dq dq.
Proof.
  unfold carries, escapeQuotes. split.
  - intros raw stk rest. simpl. by rewrite !append_assoc.
  - intros y. simpl. by destruct (json.unquote 0 y).
Qed.

Lemma carries_u003c : carries "\u003c" "<".
Proof.
  unfold carries, escapeQuotes. split.
  - intros raw stk rest. simpl. by rewrite !append_assoc.
  - intros y. simpl. by destruct (json.unquote 0 y).
Qed.

Lemma carries_u003e : carries "\u003e" ">".
Proof.
  unfold carries, escapeQuotes. split.
  - intros raw stk rest. simpl. by rewrite !append_assoc.
  - intros y. simpl. by destruct (json.unquote 0 y).
Qed.

Lemma carries_u0026 : carries "\u0026" "&".
Proof.
  unfold carries, escapeQuotes. split.
  - intros raw stk rest. simpl. by rewrite !append_assoc.
  - intros y. simpl. by destruct (json.unquote 0 y).
Qed.

Lemma carries_plainString s : plainString s = true → carries s s.
Proof.
  induction s as [|c s IH]; simpl; [intros _; apply carries_nil|].
  intros [Hc Hs]%andb_true_iff.
  apply (carries_app (String c EmptyString) (String c EmptyString) s s);
    [by apply carries_plainByte|by apply IH].
Qed.

(** The bytes that [json.Marshal] writes for a plain string read back as
    the string. *)
Lemma carries_encodeBytes s :
  plainString s = true → carries (json.encodeBytes json.Fresh s) s.
Proof.
  induction s as [|c s IH]; simpl; [intros _; apply carries_nil|].
  intros [Hc Hs]%andb_true_iff.
  pose proof (plainByte_facts c Hc) as (Hq & Hb & Hlo & Hhi).
  rewrite Hhi. unfold json.htmlSafe, json.escapeByte. unfold plainByte in Hc.
  rewrite Hc, Hq, Hb. simpl.
  destruct (Ascii.eqb_spec c "<") as [->|_]; simpl.
  { apply (carries_app "\u003c" "<"); [apply carries_u003c|by apply IH]. }
  destruct (Ascii.eqb_spec c ">") as [->|_]; simpl.
  { apply (carries_app "\u003e" ">"); [apply carries_u003e|by apply IH]. }
  destruct (Ascii.eqb_spec c "&") as [->|_]; simpl.
  { apply (carries_app "\u0026" "&"); [apply carries_u0026|by apply IH]. }
  apply (carries_app (String c EmptyString) (String c EmptyString));
    [by apply carries_plainByte|by apply IH].
Qed.

(** ** Decimal numbers *)

Lemma string_of_uint_digits d : allDigits (NilEmpty.string_of_uint d) = true.
Proof. induction d; simpl; done. Qed.

Lemma allDigits_plainString s : allDigits s = true → plainString s = true.
Proof.
  induction s as [|c s IH]; simpl; [done|].
  intros [Hc Hs]%andb_true_iff. rewrite IH by done.
  unfold json.isDigit in Hc. apply andb_true_iff in Hc as [Hlo Hhi].
  apply Z.leb_le in Hlo, Hhi.
  unfold plainByte. rewrite !andb_true_iff, !negb_true_iff, Z.leb_le, Z.ltb_lt.
  repeat split; try lia.
  - destruct (Ascii.eqb_spec c dquote) as [->|]; [|done]. vm_compute in Hhi. done.
  - destruct (Ascii.eqb_spec c bslash) as [->|]; [|done]. vm_compute in Hhi. done.
Qed.

(** The decimal digits of a positive number do not start with a zero. *)
Lemma to_uint_head p :
  match Pos.to_uint p with
  | Decimal.Nil | Decimal.D0 _ => False
  | _ => True
  end.
Proof.
  pose proof (DecimalPos.Unsigned.to_of (Pos.to_uint p)) as Hnorm.
  rewrite DecimalPos.Unsigned.of_to in Hnorm. simpl in Hnorm.
  pose proof (DecimalPos.Unsigned.to_uint_nonzero p) as Hnz.
  pose proof (DecimalPos.Unsigned.to_uint_nonnil p) as Hnn.
  destruct (Pos.to_uint p) as [|d| | | | | | | | |] eqn:Hp; try done.
  rewrite DecimalFacts.unorm_D0 in Hnorm.
  assert (d ≠ Decimal.Nil) as Hd by (intros ->; done).
  pose proof (DecimalFacts.nb_digits_unorm d Hd) as Hlen.
  rewrite <-Hnorm in Hlen. simpl in Hlen. lia.
Qed.

Lemma Itoa_plainString z : plainString (json.Itoa z) = true.
Proof.
  unfold json.Itoa, NilZero.string_of_int, NilZero.string_of_uint.
  destruct z as [|p|p]; simpl; [done| |].
  - pose proof (DecimalPos.Unsigned.to_uint_nonnil p).
    destruct (Pos.to_uint p) eqn:Hp; try done;
      rewrite <-Hp; apply allDigits_plainString, string_of_uint_digits.
  - pose proof (DecimalPos.Unsigned.to_uint_nonnil p).
    destruct (Pos.to_uint p) eqn:Hp; try done;
      rewrite <-Hp; apply allDigits_plainString, string_of_uint_digits.
Qed.

Lemma ParseInt_Itoa z : inInt z = true → json.ParseInt (json.Itoa z) = Some z.
Proof.
  intros Hz. unfold json.ParseInt, json.Itoa.
  rewrite NilZero.isi.
  - rewrite DecimalZ.of_to. unfold inInt in Hz. by rewrite Hz.
  - destruct z as [|p|p]; simpl; try done.
    intros [=H]. by apply (DecimalPos.Unsigned.to_uint_nonnil p).
  - destruct z as [|p|p]; simpl; try done.
    intros [=H]. by apply (DecimalPos.Unsigned.to_uint_nonnil p).
Qed.

(** ** The payload unescaped *)

Lemma carries_member k v v' :
  plainString k = true → carries v v' → carries (json.member k v) (json.member k v').
Proof.
  intros Hk Hv. unfold json.member.
  change (carries (dq ++ k ++ dq ++ ":" ++ v) (dq ++ k ++ dq ++ ":" ++ v')).
  repeat apply carries_app; try apply carries_dquote; try done;
    by apply carries_plainString.
Qed.

Lemma carries_scalarText x :
  plainScalar x = true →
  carries (scalarText (json.encodeBytes json.Fresh) x) (scalarText (fun s => s) x).
Proof.
  destruct x as [z|s]; simpl; intros Hx.
  - apply carries_plainString, Itoa_plainString.
  - change (carries (dq ++ json.encodeBytes json.Fresh s ++ dq) (dq ++ s ++ dq)).
    repeat apply carries_app; try apply carries_dquote.
    by apply carries_encodeBytes.
Qed.

Lemma carries_membersText ms :
  forallb plainField ms = true →
  carries (membersText (json.encodeBytes json.Fresh) ms) (membersText (fun s => s) ms).
Proof.
  induction ms as [|[k x] ms IH]; [intros _; apply carries_nil|].
  intros [[Hk Hx]%andb_true_iff Hms]%andb_true_iff.
  destruct ms as [|m ms].
  - apply carries_member; [done|by apply carries_scalarText].
  - change (carries
              (json.member k (scalarText (json.encodeBytes json.Fresh) x) ++ ","
               ++ membersText (json.encodeBytes json.Fresh) (m :: ms))
              (json.member k (scalarText (fun s => s) x) ++ ","
               ++ membersText (fun s => s) (m :: ms))).
    repeat apply carries_app; try (by apply IH).
    + apply carries_member; [done|by apply carries_scalarText].
    + by apply carries_plainString.
Qed.

Lemma Marshal_Post_members p :
  json.Marshal_Post p
  = "{" ++ membersText (json.encodeBytes json.Fresh) (postFields p) ++ "}".
Proof.
  unfold json.Marshal_Post, postFields, json.encodeString, json.member, dq.
  destruct (isEmpty (Subtitle p)); simpl; rewrite ?append_assoc; simpl;
    repeat (f_equal; rewrite ?append_assoc; simpl); reflexivity.
Qed.

Lemma plainPost_fields p : plainPost p = true → forallb plainField (postFields p) = true.
Proof.
  unfold plainPost, postFields. rewrite !andb_true_iff.
  intros [[[[[[[[[[[[[? ?] ?] ?] ?] ?] ?] ?] ?] ?] ?] ?] ?] ?].
  rewrite !forallb_app. simpl. unfold plainField. simpl.
  destruct (isEmpty (Subtitle p)); simpl; unfold plainField; simpl;
    rewrite ?andb_true_iff; repeat split; done.
Qed.

Lemma carries_Marshal p :
  plainPost p = true → carries (json.Marshal_PostWrapper p) (plainWrapper p).
Proof.
  intros Hp. unfold json.Marshal_PostWrapper, plainWrapper.
  rewrite Marshal_Post_members.
  apply (carries_app "{" "{"); [by apply carries_plainString|].
  apply carries_app; [|by apply carries_plainString].
  apply carries_member; [done|].
  apply (carries_app "{" "{"); [by apply carries_plainString|].
  apply (carries_app (membersText _ _) (membersText _ _));
    [|by apply carries_plainString].
  by apply carries_membersText, plainPost_fields.
Qed.

(** The first decoding step of [ExtractPost] on the payload of a plain
    post. *)
Lemma Unmarshal_string_payload p :
  plainPost p = true →
  json.Unmarshal_string (quoted (escapeJSONForJS p)) EmptyString = inr (plainWrapper p).
Proof.
  intros [Hscan Hunq]%carries_Marshal.
  unfold json.Unmarshal_string, json.parse, quoted, escapeJSONForJS.
  fold (escapeQuotes (json.Marshal_PostWrapper p)).
  cbn [json.scan]. change (json.step (json.MValue, [json.FTop None]) dquote)
    with (Some (json.MString EmptyString, [json.FTop None])).
  cbn [mbind option_bind].
  rewrite Hscan. unfold dq. cbn [json.scan json.step append].
  specialize (Hunq EmptyString). rewrite append_nil_r in Hunq.
  change (Ascii.eqb dquote dquote) with true. cbn iota.
  rewrite Hunq. simpl. by rewrite append_nil_r.
Qed.

(** ** Reading the JSON text of a post *)

Lemma escapeQuotes_plain s : plainString s = true → escapeQuotes s = s.
Proof.
  unfold escapeQuotes. induction s as [|c s IH]; simpl; [done|].
  intros [Hc Hs]%andb_true_iff. apply plainByte_facts in Hc as (-> & _).
  by rewrite IH.
Qed.

(** A plain string between quotes is read as that string. *)
Lemma scan_string_literal s stk rest :
  plainString s = true →
  json.scan (json.MString EmptyString, stk) (s ++ String dquote rest)
  = json.finish (json.JString s) stk ≫= fun st => json.scan st rest.
Proof.
  intros Hs. destruct (carries_plainString s Hs) as [Hscan Hunq].
  rewrite (escapeQuotes_plain s Hs) in Hscan, Hunq.
  rewrite Hscan. cbn [json.scan json.step append].
  change (Ascii.eqb dquote dquote) with true. cbn iota.
  specialize (Hunq EmptyString). rewrite append_nil_r in Hunq.
  rewrite Hunq. simpl. by rewrite append_nil_r.
Qed.

Lemma scan_digits ds lit stk rest :
  allDigits ds = true →
  json.scan (json.MNumber json.N1 lit, stk) (ds ++ rest)
  = json.scan (json.MNumber json.N1 (lit ++ ds), stk) rest.
Proof.
  revert lit. induction ds as [|c ds IH]; intros lit; simpl.
  { intros _. by rewrite append_nil_r. }
  intros [Hc Hds]%andb_true_iff. rewrite Hc, IH by done.
  by rewrite append_assoc.
Qed.

Lemma scan_Itoa z stk rest :
  json.scan (json.MValue, stk) (json.Itoa z ++ rest)
  = json.scan (json.MNumber (numberEnd z) (json.Itoa z), stk) rest.
Proof.
  unfold json.Itoa, NilZero.string_of_int, NilZero.string_of_uint, numberEnd.
  destruct z as [|p|p]; [done| |]; cbn [Z.to_int Z.eqb];
    pose proof (to_uint_head p) as Hhead;
    pose proof (string_of_uint_digits (Pos.to_uint p)) as Hdigits;
    destruct (Pos.to_uint p) as [|d|d|d|d|d|d|d|d|d|d]; try done;
    cbn [NilEmpty.string_of_uint allDigits] in *;
    apply andb_true_iff in Hdigits as [_ Hdigits];
    cbn [append json.scan json.step json.beginValue json.numberStep]; simpl;
    by rewrite (scan_digits _ _ _ _ Hdigits).
Qed.

Lemma closesValue_cases c : closesValue c = true → c = ","%char ∨ c = "}"%char.
Proof.
  unfold closesValue. intros [H|H]%orb_true_iff; apply Ascii.eqb_eq in H; auto.
Qed.

Lemma scan_number_end z key ms stk c rest :
  closesValue c = true →
  json.scan (json.MNumber (numberEnd z) (json.Itoa z), json.FObject ms (Some key) :: stk)
            (String c rest)
  = json.scan (json.MEndValue,
               json.FObject ((key, json.JNumber (json.Itoa z)) :: ms) None :: stk)
              (String c rest).
Proof.
  intros [-> | ->]%closesValue_cases; unfold numberEnd; destruct (z =? 0); reflexivity.
Qed.

(** One member of an object, up to the comma or brace after it. *)
Lemma scan_member m k x ms stk c rest :
  m = json.MKey ∨ m = json.MKeyOrEnd →
  plainField (k, x) = true →
  closesValue c = true →
  json.scan (m, json.FObject ms None :: stk)
            (json.member k (scalarText (fun s => s) x) ++ String c rest)
  = json.scan (json.MEndValue, json.FObject ((k, scalarValue x) :: ms) None :: stk)
              (String c rest).
Proof.
  intros Hm [Hk Hx]%andb_true_iff Hc. cbn [fst snd] in *.
  unfold json.member.
  assert (json.scan (m, json.FObject ms None :: stk)
            (String dquote (k ++ String dquote (":" ++ scalarText (fun s => s) x))
             ++ String c rest)
          = json.scan (json.MValue, json.FObject ms (Some k) :: stk)
              (scalarText (fun s => s) x ++ String c rest)) as ->.
  { change (String dquote (k ++ String dquote (":" ++ scalarText (fun s => s) x))
            ++ String c rest)
      with (String dquote ((k ++ String dquote (":" ++ scalarText (fun s => s) x))
                           ++ String c rest)).
    rewrite append_assoc.
    change (String dquote (":" ++ scalarText (fun s => s) x) ++ String c rest)
      with (String dquote (String ":" (scalarText (fun s => s) x ++ String c rest))).
    assert (json.step (m, json.FObject ms None :: stk) dquote
            = Some (json.MString EmptyString, json.FObject ms None :: stk)) as Hopen
      by (by destruct Hm as [-> | ->]).
    cbn [json.scan]. rewrite Hopen.
    by rewrite scan_string_literal. }
  destruct x as [z|s]; cbn [scalarText scalarValue plainScalar] in *.
  - by rewrite scan_Itoa, scan_number_end.
  - cbn [append json.scan].
    change (json.step (json.MValue, json.FObject ms (Some k) :: stk) dquote)
      with (Some (json.MString EmptyString, json.FObject ms (Some k) :: stk)).
    unfold dq. rewrite append_assoc.
    change (String dquote EmptyString ++ String c rest) with (String dquote (String c rest)).
    by rewrite scan_string_literal.
Qed.

Lemma closesValue_comma : closesValue "," = true.
Proof. done. Qed.

Lemma closesValue_brace : closesValue "}" = true.
Proof. done. Qed.

(** The members of an object, up to and with the closing brace. *)
Lemma scan_members ms m read stk rest :
  ms ≠ [] →
  m = json.MKey ∨ m = json.MKeyOrEnd →
  forallb plainField ms = true →
  json.scan (m, json.FObject read None :: stk)
            (membersText (fun s => s) ms ++ String "}" rest)
  = json.finish
      (json.JObject (rev read ++ map (fun f => (fst f, scalarValue (snd f))) ms)) stk
    ≫= fun st => json.scan st rest.
Proof.
  revert m read. induction ms as [|[k x] ms IH]; intros m read Hne Hm Hplain; [done|].
  apply andb_true_iff in Hplain as [Hkx Hms].
  destruct ms as [|f ms].
  - cbn [membersText]. rewrite (scan_member m k x read stk "}" rest Hm Hkx closesValue_brace).
    cbn [json.scan json.step json.endValue]. simpl json.isJSONSpace. cbn iota.
    change (Ascii.eqb "}" ",") with false. change (Ascii.eqb "}" "}") with true.
    cbn iota. cbn [map fst snd rev]. reflexivity.
  - change (membersText (fun s => s) ((k, x) :: f :: ms))
      with (json.member k (scalarText (fun s => s) x) ++ ","
            ++ membersText (fun s => s) (f :: ms)).
    rewrite append_assoc.
    change (("," ++ membersText (fun s => s) (f :: ms)) ++ String "}" rest)
      with (String "," (membersText (fun s => s) (f :: ms) ++ String "}" rest)).
    rewrite (scan_member m k x read stk "," _ Hm Hkx closesValue_comma).
    cbn [json.scan]. 
    change (json.step (json.MEndValue, json.FObject ((k, scalarValue x) :: read) None :: stk) ",")
      with (Some (json.MKey, json.FObject ((k, scalarValue x) :: read) None :: stk)).
    cbn iota.
    rewrite (IH json.MKey ((k, scalarValue x) :: read)); [|done|by left|exact Hms].
    cbn [rev map fst snd]. by rewrite <-app_assoc.
Qed.

(** The text of a plain post parses to the object of its fields. *)
Lemma parse_plainWrapper p :
  plainPost p = true →
  json.parse (plainWrapper p)
  = Some (json.JObject
            [("post",
              json.JObject (map (fun f => (fst f, scalarValue (snd f))) (postFields p)))]).
Proof.
  intros Hp%plainPost_fields. unfold json.parse, plainWrapper, json.member.
  change ("{" ++ String dquote ("post" ++ String dquote
            (":" ++ "{" ++ membersText (fun s => s) (postFields p) ++ "}")) ++ "}")
    with ("{" ++ (dq ++ "post" ++ dq ++ ":{")
          ++ (membersText (fun s => s) (postFields p) ++ "}") ++ "}").
  rewrite scan_app. 
  change (json.scan (json.MValue, [json.FTop None]) "{")
    with (Some (json.MKeyOrEnd, [json.FObject [] None; json.FTop None])).
  cbn [mbind option_bind]. rewrite scan_app.
  change (json.scan (json.MKeyOrEnd, [json.FObject [] None; json.FTop None])
            (dq ++ "post" ++ dq ++ ":{"))
    with (Some (json.MKeyOrEnd,
                [json.FObject [] None; json.FObject [] (Some "post"); json.FTop None])).
  cbn [mbind option_bind]. rewrite append_assoc.
  change ("}" ++ "}") with (String "}" "}").
  rewrite scan_members; [|by destruct p|by right|done].
  reflexivity.
Qed.

(** ** Decoding the fields of a post *)

Section SetField.
Variables (p : Post) (v : json.value).

Lemma setField_id :
  json.setField p "id" v
  = z ← json.decodeInt v (Id p);
    Some (mkPost z (PublicationId p) (Type_ p) (Slug p) (PostDate p)
            (CanonicalUrl p) (PreviousPostSlug p) (NextPostSlug p) (CoverImage p)
            (Description p) (Subtitle p) (WordCount p) (Title p) (BodyHTML p)).
Proof. reflexivity. Qed.

Lemma setField_publication_id :
  json.setField p "publication_id" v
  = z ← json.decodeInt v (PublicationId p);
    Some (mkPost (Id p) z (Type_ p) (Slug p) (PostDate p)
            (CanonicalUrl p) (PreviousPostSlug p) (NextPostSlug p) (CoverImage p)
            (Description p) (Subtitle p) (WordCount p) (Title p) (BodyHTML p)).
Proof. reflexivity. Qed.

Lemma setField_type :
  json.setField p "type" v
  = s ← json.decodeString v (Type_ p);
    Some (mkPost (Id p) (PublicationId p) s (Slug p) (PostDate p)
            (CanonicalUrl p) (PreviousPostSlug p) (NextPostSlug p) (CoverImage p)
            (Description p) (Subtitle p) (WordCount p) (Title p) (BodyHTML p)).
Proof. reflexivity. Qed.

Lemma setField_slug :
  json.setField p "slug" v
  = s ← json.decodeString v (Slug p);
    Some (mkPost (Id p) (PublicationId p) (Type_ p) s (PostDate p)
            (CanonicalUrl p) (PreviousPostSlug p) (NextPostSlug p) (CoverImage p)
            (Description p) (Subtitle p) (WordCount p) (Title p) (BodyHTML p)).
Proof. reflexivity. Qed.

Lemma setField_post_date :
  json.setField p "post_date" v
  = s ← json.decodeString v (PostDate p);
    Some (mkPost (Id p) (PublicationId p) (Type_ p) (Slug p) s
            (CanonicalUrl p) (PreviousPostSlug p) (NextPostSlug p) (CoverImage p)
            (Description p) (Subtitle p) (WordCount p) (Title p) (BodyHTML p)).
Proof. reflexivity. Qed.

Lemma setField_canonical_url :
  json.setField p "canonical_url" v
  = s ← json.decodeString v (CanonicalUrl p);
    Some (mkPost (Id p) (PublicationId p) (Type_ p) (Slug p) (PostDate p)
            s (PreviousPostSlug p) (NextPostSlug p) (CoverImage p)
            (Description p) (Subtitle p) (WordCount p) (Title p) (BodyHTML p)).
Proof. reflexivity. Qed.

Lemma setField_previous_post_slug :
  json.setField p "previous_post_slug" v
  = s ← json.decodeString v (PreviousPostSlug p);
    Some (mkPost (Id p) (PublicationId p) (Type_ p) (Slug p) (PostDate p)
            (CanonicalUrl p) s (NextPostSlug p) (CoverImage p)
            (Description p) (Subtitle p) (WordCount p) (Title p) (BodyHTML p)).
Proof. reflexivity. Qed.

Lemma setField_next_post_slug :
  json.setField p "next_post_slug" v
  = s ← json.decodeString v (NextPostSlug p);
    Some (mkPost (Id p) (PublicationId p) (Type_ p) (Slug p) (PostDate p)
            (CanonicalUrl p) (PreviousPostSlug p) s (CoverImage p)
            (Description p) (Subtitle p) (WordCount p) (Title p) (BodyHTML p)).
Proof. reflexivity. Qed.

Lemma setField_cover_image :
  json.setField p "cover_image" v
  = s ← json.decodeString v (CoverImage p); Some (set_CoverImage p s).
Proof. reflexivity. Qed.

Lemma setField_description :
  json.setField p "description" v
  = s ← json.decodeString v (Description p);
    Some (mkPost (Id p) (PublicationId p) (Type_ p) (Slug p) (PostDate p)
            (CanonicalUrl p) (PreviousPostSlug p) (NextPostSlug p) (CoverImage p)
            s (Subtitle p) (WordCount p) (Title p) (BodyHTML p)).
Proof. reflexivity. Qed.

Lemma setField_subtitle :
  json.setField p "subtitle" v
  = s ← json.decodeString v (Subtitle p); Some (set_Subtitle p s).
Proof. reflexivity. Qed.

Lemma setField_wordcount :
  json.setField p "wordcount" v
  = z ← json.decodeInt v (WordCount p);
    Some (mkPost (Id p) (PublicationId p) (Type_ p) (Slug p) (PostDate p)
            (CanonicalUrl p) (PreviousPostSlug p) (NextPostSlug p) (CoverImage p)
            (Description p) (Subtitle p) z (Title p) (BodyHTML p)).
Proof. reflexivity. Qed.

Lemma setField_title :
  json.setField p "title" v
  = s ← json.decodeString v (Title p);
    Some (mkPost (Id p) (PublicationId p) (Type_ p) (Slug p) (PostDate p)
            (CanonicalUrl p) (PreviousPostSlug p) (NextPostSlug p) (CoverImage p)
            (Description p) (Subtitle p) (WordCount p) s (BodyHTML p)).
Proof. reflexivity. Qed.

Lemma setField_body_html :
  json.setField p "body_html" v
  = s ← json.decodeString v (BodyHTML p);
    Some (mkPost (Id p) (PublicationId p) (Type_ p) (Slug p) (PostDate p)
            (CanonicalUrl p) (PreviousPostSlug p) (NextPostSlug p) (CoverImage p)
            (Description p) (Subtitle p) (WordCount p) (Title p) s).
Proof. reflexivity. Qed.

End SetField.

(** One member of the object at a time. *)
Lemma decodePost_cons k v ms p :
  fold_left (fun acc m => p ← acc; json.setField p (fst m) (snd m)) ((k, v) :: ms) (Some p)
  = fold_left (fun acc m => p ← acc; json.setField p (fst m) (snd m)) ms
      (json.setField p k v).
Proof. reflexivity. Qed.

Ltac setField_with eqn :=
  rewrite decodePost_cons, eqn;
  cbn [json.decodeInt json.decodeString mbind option_bind
       Id PublicationId Type_ Slug PostDate CanonicalUrl PreviousPostSlug NextPostSlug
       CoverImage Description Subtitle WordCount Title BodyHTML
       set_CoverImage set_Subtitle].

(** The object of the fields of a post decodes to the post. *)
Lemma decodePost_fields p :
  inInt (Id p) = true → inInt (PublicationId p) = true → inInt (WordCount p) = true →
  json.decodePost
    (json.JObject (map (fun f => (fst f, scalarValue (snd f))) (postFields p))) Post_zero
  = Some p.
Proof.
  destruct p as [id pub ty slug date url prev next cover descr sub words title body].
  cbn [Id PublicationId WordCount]. intros Hid Hpub Hwords.
  apply ParseInt_Itoa in Hid, Hpub, Hwords.
  unfold postFields, json.decodePost, Post_zero.
  cbn [Id PublicationId Type_ Slug PostDate CanonicalUrl PreviousPostSlug NextPostSlug
       CoverImage Description Subtitle WordCount Title BodyHTML].
  assert (fold_left (fun acc m => p ← acc; json.setField p (fst m) (snd m))
            (map (fun f => (fst f, scalarValue (snd f)))
               (if isEmpty sub then [] else [("subtitle", SStr sub)]))
            (Some (mkPost id pub ty slug date url prev next cover descr EmptyString 0
                     EmptyString EmptyString))
          = Some (mkPost id pub ty slug date url prev next cover descr sub 0
                    EmptyString EmptyString)) as Hsub.
  { destruct (isEmpty sub) eqn:Hsub; [by apply isEmpty_true in Hsub as ->|].
    cbn [map fst snd scalarValue]. by setField_with setField_subtitle. }
  rewrite !map_app, !fold_left_app. cbn [map fst snd scalarValue].
  setField_with setField_id. rewrite Hid. cbn [mbind option_bind].
  setField_with setField_publication_id. rewrite Hpub. cbn [mbind option_bind].
  setField_with setField_type. setField_with setField_slug.
  setField_with setField_post_date. setField_with setField_canonical_url.
  setField_with setField_previous_post_slug. setField_with setField_next_post_slug.
  setField_with setField_cover_image. setField_with setField_description.
  change (fold_left ?f [] ?a) with a. rewrite Hsub.
  setField_with setField_wordcount. rewrite Hwords. cbn [mbind option_bind].
  setField_with setField_title. setField_with setField_body_html.
  reflexivity.
Qed.

Lemma plainPost_ints p :
  plainPost p = true →
  inInt (Id p) = true ∧ inInt (PublicationId p) = true ∧ inInt (WordCount p) = true.
Proof.
  unfold plainPost. rewrite !andb_true_iff. tauto.
Qed.

(** The wrapper of a plain post decodes to the post. *)
Lemma Unmarshal_PostWrapper_plain p :
  plainPost p = true → json.Unmarshal_PostWrapper (plainWrapper p) = inr p.
Proof.
  intros Hp. unfold json.Unmarshal_PostWrapper.
  rewrite (parse_plainWrapper p Hp).
  destruct (plainPost_ints p Hp) as (Hid & Hpub & Hwords).
  cbn [fold_left fst snd mbind option_bind].
  change (json.keyIs "post" "post") with true. cbn iota.
  by rewrite decodePost_fields.
Qed.

(** The payload of the mock page is never empty. *)
Lemma escapeJSONForJS_nonempty p : escapeJSONForJS p ≠ EmptyString.
Proof.
  unfold escapeJSONForJS, json.Marshal_PostWrapper. discriminate.
Qed.

(** The mock page has no subtitle element and no image meta tag. *)
Lemma subtitleText_mockPage title payload :
  subtitleText (mockPage title payload [] []) = EmptyString.
Proof. reflexivity. Qed.

Lemma ogImage_mockPage title payload :
  ogImage (mockPage title payload [] []) = None.
Proof. reflexivity. Qed.

Lemma enrich_mockPage title payload p :
  enrichCoverImage (mockPage title payload [] [])
    (enrichSubtitle (mockPage title payload [] []) p) = p.
Proof.
  unfold enrichSubtitle, enrichCoverImage.
  fold (subtitleText (mockPage title payload [] [])).
  fold (ogImage (mockPage title payload [] [])).
  rewrite subtitleText_mockPage, ogImage_mockPage. cbn [isEmpty negb].
  by destruct (isEmpty (CoverImage p)).
Qed.

(** The page builder of the tests is not made for every post.
    [createMockSubstackHTML] writes a backslash before each double quote of
    the JSON text and nothing else; in the JSON text of a post whose body
    has a quoted attribute the quotes of the attribute have a backslash
    already, so the payload is no string literal: what [ExtractPost]
    unquotes ends at the attribute and the call returns the zero post with
    the error of the unquoting. *)
Lemma createMockSubstackHTML_fails_on_quotes :
  ExtractPost Node (serve [("u", createMockSubstackHTML postWithQuotes)]) parsed
    Background "u"
  = Returned (Post_zero, Some (Errorf_w "failed to unescape JSON" json.SyntaxError)).
Proof. vm_compute. reflexivity. Qed.

(** For every post [r] whose strings are made of the bytes 0x20 to 0x7F
    other than the double quote and the backslash, and whose numbers are
    64-bit integers, [ExtractPost] on the page that
    [createMockSubstackHTML] builds from [r] returns [r] itself, field for
    field, and no error. *)
Lemma createMockSubstackHTML_round_trip
    (Body : Type) (FetchURL : bool → string → error + Body)
    (NewDocumentFromReader : Body → error + Node)
    (ctx : Context) (pageUrl : string) (body : Body) (r : Post) :
  FetchURL (ctx O) pageUrl = inr body →
  NewDocumentFromReader body = inr (createMockSubstackHTML r) →
  plainPost r = true →
  ExtractPost Body FetchURL NewDocumentFromReader ctx pageUrl = Returned (r, None).
Proof.
  intros Hfetch Hdoc Hplain. unfold ExtractPost. rewrite Hfetch, Hdoc.
  unfold createMockSubstackHTML.
  (* the script of the page gives the payload back *)
  rewrite (extractJSONString_mockPage _ _ (escapeJSONForJS_nonempty r)).
  (* unquoted, the payload is the JSON text of the wrapper *)
  rewrite (Unmarshal_string_payload r Hplain).
  unfold ToPost. cbn [str].
  (* which decodes to the post *)
  rewrite (Unmarshal_PostWrapper_plain r Hplain).
  (* and the page has nothing to enrich it with *)
  by rewrite enrich_mockPage.
Qed.

Example createMockSubstackHTML_of_the_sample :
  ExtractPost Node (serve [("u", createMockSubstackHTML createSamplePost)]) parsed
    Background "u"
  = Returned (createSamplePost, None).
Proof.
  by apply (createMockSubstackHTML_round_trip Node
              (serve [("u", createMockSubstackHTML createSamplePost)]) parsed
              Background "u" (createMockSubstackHTML createSamplePost)
              createSamplePost).
Qed.

(** ** What [extractJSONString] cuts out *)

Lemma Index_from_unfold i s sub :
  Index_from i s sub
  = if HasPrefix s sub then i
    else match s with
         | EmptyString => -1
         | String _ s' => Index_from (i + 1) s' sub
         end.
Proof. by destruct s. Qed.

(** An occurrence bounds [Index] from above and [LastIndex] from below. *)
Lemma Index_from_occurrence i before sub rest :
  i <= Index_from i (before ++ sub ++ rest) sub <= i + len before.
Proof.
  revert i. induction before as [|c before IH]; intros i.
  - rewrite Index_from_unfold.
    change (EmptyString ++ sub ++ rest) with (sub ++ rest).
    rewrite HasPrefix_append. unfold len. simpl. lia.
  - change (String c before ++ sub ++ rest) with (String c (before ++ sub ++ rest)).
    rewrite Index_from_cons.
    unfold len in *. cbn [String.length].
    destruct (HasPrefix _ sub); [lia|].
    specialize (IH (i + 1)). lia.
Qed.

Lemma LastIndex_from_head i found s sub :
  HasPrefix s sub = true → i <= LastIndex_from i found s sub.
Proof.
  intros Hp. destruct s as [|c s].
  - rewrite LastIndex_from_nil, Hp. lia.
  - rewrite LastIndex_from_cons, Hp.
    destruct (LastIndex_from_found (i + 1) i s sub) as [->|(n & -> & _)]; lia.
Qed.

Lemma LastIndex_from_occurrence i found before sub rest :
  i + len before <= LastIndex_from i found (before ++ sub ++ rest) sub.
Proof.
  destruct (LastIndex_from_append i found before (sub ++ rest) sub) as (found' & ->).
  apply LastIndex_from_head, HasPrefix_append.
Qed.

(** The callback stops at a script exactly when the script holds a
    preload, and what it cuts out then lies between the first opening and
    the last closing of a call. *)
Lemma scriptCallback_found content payload :
  scriptCallback content = Returned (Some payload) →
  payload ≠ EmptyString
  ∧ Contains content preloadsMarker = true
  ∧ ∃ before after,
      content = before ++ parseOpen ++ payload ++ parseClose ++ after
      ∧ Index content parseOpen = len before
      ∧ LastIndex content parseClose = len before + len parseOpen + len payload.
Proof.
  unfold scriptCallback.
  destruct (Contains content preloadsMarker) eqn:Hmarker; [|done].
  destruct (Contains content parseCall); [|done]. cbn [andb].
  destruct (Z.eqb_spec (Index content parseOpen) (-1)) as [|Hstart]; [done|].
  destruct (Z.eqb_spec (LastIndex content parseClose) (-1)) as [|Hend]; [done|].
  cbn [orb].
  destruct (Z.leb_spec (LastIndex content parseClose)
                       (Index content parseOpen + len parseOpen)) as [|Hlt]; [done|].
  destruct (Index_from_found 0 content parseOpen) as (n & Hn & Hopen); [lia|done|].
  destruct (LastIndex_from_found 0 (-1) content parseClose)
    as [?|(m & Hm & Hclose)]; [done|].
  fold (Index content parseOpen) in Hn. fold (LastIndex content parseClose) in Hm.
  rewrite Hn, Hm in *. unfold len in *. rewrite length_parseOpen in *.
  pose proof (HasPrefix_length _ _ Hclose) as Hlen.
  rewrite length_drop, length_parseClose in Hlen.
  unfold slice, len.
  replace ((0 <=? 0 + Z.of_nat n + Z.of_nat 12)
           && (0 + Z.of_nat n + Z.of_nat 12 <=? 0 + Z.of_nat m)
           && (0 + Z.of_nat m <=? Z.of_nat (String.length content))) with true
    by (symmetry; rewrite !andb_true_iff, !Z.leb_le; lia).
  replace (Z.to_nat (0 + Z.of_nat m - (0 + Z.of_nat n + Z.of_nat 12)))
    with (m - (n + 12))%nat by lia.
  replace (Z.to_nat (0 + Z.of_nat n + Z.of_nat 12)) with (n + 12)%nat by lia.
  intros [= <-].
  assert (String.length (take (m - (n + 12)) (drop (n + 12) content))
          = (m - (n + 12))%nat) as Hpayload.
  { apply length_take. rewrite length_drop. lia. }
  assert (String.length (take n content) = n) as Hbefore.
  { apply length_take. lia. }
  split.
  { intros Hempty. rewrite Hempty in Hpayload. simpl in Hpayload. lia. }
  split; [done|].
  exists (take n content), (drop 2 (drop m content)).
  rewrite Hpayload, Hbefore. split; [|split; lia].
  rewrite <-(take_drop n content) at 1. f_equal.
  rewrite (HasPrefix_spec _ _ Hopen) at 1. f_equal.
  rewrite length_parseOpen, drop_drop.
  rewrite <-(take_drop (m - (n + 12)) (drop (n + 12) content)) at 1. f_equal.
  rewrite drop_drop. replace (n + 12 + (m - (n + 12)))%nat with m by lia.
  rewrite (HasPrefix_spec _ _ Hclose) at 1. by rewrite length_parseClose.
Qed.

Lemma scriptCallback_skips content :
  scriptCallback content = Returned None → ¬ holdsPreload content.
Proof.
  intros Hnone (Hmarker & before & payload & after & Hne & Hcontent).
  revert Hnone. unfold scriptCallback. rewrite Hmarker.
  pose proof (Index_from_occurrence 0 before parseCall
                (dq ++ payload ++ parseClose ++ after)) as Hcall.
  pose proof (Index_from_occurrence 0 before parseOpen
                (payload ++ parseClose ++ after)) as Hopen.
  pose proof (LastIndex_from_occurrence 0 (-1) (before ++ parseOpen ++ payload)
                parseClose after) as Hclose.
  assert (before ++ parseCall ++ dq ++ payload ++ parseClose ++ after = content)
    as Hcall' by (rewrite Hcontent; unfold parseOpen; by rewrite !append_assoc).
  assert ((before ++ parseOpen ++ payload) ++ parseClose ++ after = content)
    as Hclose' by (rewrite Hcontent; by rewrite !append_assoc).
  rewrite Hcall' in Hcall. rewrite <-Hcontent in Hopen. rewrite Hclose' in Hclose.
  fold (Index content parseCall) in Hcall. fold (Index content parseOpen) in Hopen.
  fold (LastIndex content parseClose) in Hclose.
  assert (0 < len payload) as Hpayload by (unfold len; destruct payload; [done|simpl; lia]).
  unfold len in *. rewrite !length_append in Hclose. rewrite length_parseOpen in *.
  unfold Contains.
  replace (0 <=? Index content parseCall) with true by (symmetry; apply Z.leb_le; lia).
  cbn [andb].
  replace (Index content parseOpen =? -1) with false by (symmetry; apply Z.eqb_neq; lia).
  replace (LastIndex content parseClose =? -1) with false
    by (symmetry; apply Z.eqb_neq; lia).
  replace (LastIndex content parseClose <=? Index content parseOpen + Z.of_nat 12)
    with false by (symmetry; apply Z.leb_gt; lia).
  cbn [orb]. by destruct (slice _ _ _).
Qed.

(** The scripts that the iteration passes over and the one it stops at. *)
Lemma eachScript_first scripts payload :
  eachScript scripts = Returned (Some payload) →
  ∃ passed s rest,
    scripts = (passed ++ s :: rest)%list
    ∧ Forall (fun s' => scriptCallback (goquery.nodeText s') = Returned None) passed
    ∧ scriptCallback (goquery.nodeText s) = Returned (Some payload).
Proof.
  induction scripts as [|s scripts IH]; [done|]. cbn [eachScript].
  destruct (scriptCallback (goquery.nodeText s)) as [[found|]|] eqn:Hs; [| |done].
  - intros [= ->]. by exists [], s, scripts.
  - intros (passed & s' & rest & -> & Hpassed & Hs')%IH.
    exists (s :: passed), s', rest. split; [done|]. split; [by constructor|done].
Qed.

(** X1.  [extractJSONString] returns either its error and no payload, when
    no script of the page holds a preload, or a payload and no error.  The
    payload is then not empty, and it is cut out of the first script that
    holds a preload: from behind the first opening of a [JSON.parse] call
    in the text of that script up to the last closing, so that all that
    lies between them is taken. *)
Theorem extractJSONString_first_preload (doc : Node) :
  (extractJSONString doc
     = Returned (EmptyString, Some (errors_New "failed to extract JSON string"))
   ∧ ∀ s, s ∈ goquery.Find (SelTag "script") doc → ¬ holdsPreload (goquery.nodeText s))
  ∨ ∃ passed s rest before payload after,
      goquery.Find (SelTag "script") doc = (passed ++ s :: rest)%list
      ∧ (∀ s', s' ∈ passed → ¬ holdsPreload (goquery.nodeText s'))
      ∧ Contains (goquery.nodeText s) preloadsMarker = true
      ∧ goquery.nodeText s = before ++ parseOpen ++ payload ++ parseClose ++ after
      ∧ Index (goquery.nodeText s) parseOpen = len before
      ∧ LastIndex (goquery.nodeText s) parseClose
        = len before + len parseOpen + len payload
      ∧ payload ≠ EmptyString
      ∧ extractJSONString doc = Returned (payload, None).
Proof.
  unfold extractJSONString.
  destruct (eachScript (goquery.Find (SelTag "script") doc)) as [[payload|]|] eqn:Heach.
  - right.
    destruct (eachScript_first _ _ Heach) as (passed & s & rest & Hfind & Hpassed & Hs).
    destruct (scriptCallback_found _ _ Hs)
      as (Hne & Hmarker & before & after & Htext & Hopen & Hclose).
    exists passed, s, rest, before, payload, after.
    split; [done|]. split; [|done].
    intros s' Hin. apply scriptCallback_skips.
    by apply (proj1 (Forall_forall _ _) Hpassed).
  - left. split; [done|]. intros s Hin.
    destruct (eachScript_cases (goquery.Find (SelTag "script") doc))
      as [[_ Hall]|(s' & payload & _ & Hsome & _)]; [|congruence].
    apply scriptCallback_skips. by apply (proj1 (Forall_forall _ _) Hall).
  - destruct (eachScript_cases (goquery.Find (SelTag "script") doc))
      as [[Hnone _]|(s' & payload & _ & Hsome & _)]; congruence.
Qed.

(** ** The errors of [ExtractPost] *)

Section ExtractPostErrors.
Variable Body : Type.
Variable FetchURL : bool → string → error + Body.
Variable NewDocumentFromReader : Body → error + Node.
Variable sitemapURL : string → error + string.

Local Abbreviation extractPost := (ExtractPost Body FetchURL NewDocumentFromReader).
Local Abbreviation getAllPostsURLs :=
  (GetAllPostsURLs Body FetchURL NewDocumentFromReader sitemapURL).

(** X2.  [ExtractPost] always returns, and it never returns a post together
    with an error: when the error is not [nil] the post is the zero
    [Post], and the error is the error of the step that failed wrapped
    behind one of five prefixes.  The errors of the fetcher and of the HTML
    parser are kept inside, so that a caller can unwrap them. *)
Theorem ExtractPost_post_or_error (ctx : Context) (pageUrl : string) :
  ∃ (p : Post) (err : option error),
    extractPost ctx pageUrl = Returned (p, err)
    ∧ (∀ e, err = Some e →
         p = Post_zero
         ∧ ∃ prefix inner, e = Errorf_w prefix inner ∧ prefix ∈ extractErrorPrefixes)
    ∧ (∀ e, FetchURL (ctx O) pageUrl = inl e →
         err = Some (Errorf_w "failed to fetch page" e))
    ∧ (∀ body e, FetchURL (ctx O) pageUrl = inr body →
         NewDocumentFromReader body = inl e →
         err = Some (Errorf_w "failed to parse HTML" e)).
Proof.
  unfold ExtractPost, extractErrorPrefixes.
  destruct (FetchURL (ctx O) pageUrl) as [e|body] eqn:Hfetch.
  { eexists _, _. split; [reflexivity|]. split; [|split].
    - intros ? [= <-]. split; [done|]. eexists _, _. split; [done|set_solver].
    - by intros ? [= <-].
    - done. }
  destruct (NewDocumentFromReader body) as [e|doc] eqn:Hdoc.
  { eexists _, _. split; [reflexivity|]. split; [|split].
    - intros ? [= <-]. split; [done|]. eexists _, _. split; [done|set_solver].
    - done.
    - intros ?? [= <-]. rewrite Hdoc. by intros [= <-]. }
  pose proof (extractJSONString_no_panic doc) as Hpanic.
  destruct (extractJSONString doc) as [[js [e|]]|]; [| |done].
  { eexists _, _. split; [reflexivity|]. split; [|split]; [|done|].
    - intros ? [= <-]. split; [done|]. eexists _, _. split; [done|set_solver].
    - intros ?? [= <-]. by rewrite Hdoc. }
  destruct (json.Unmarshal_string _ _) as [e|raw].
  { eexists _, _. split; [reflexivity|]. split; [|split]; [|done|].
    - intros ? [= <-]. split; [done|]. eexists _, _. split; [done|set_solver].
    - intros ?? [= <-]. by rewrite Hdoc. }
  destruct (ToPost _) as [p [e|]].
  { eexists _, _. split; [reflexivity|]. split; [|split]; [|done|].
    - intros ? [= <-]. split; [done|]. eexists _, _. split; [done|set_solver].
    - intros ?? [= <-]. by rewrite Hdoc. }
  eexists _, _. split; [reflexivity|]. split; [|split]; [done|done|].
  intros ?? [= <-]. by rewrite Hdoc.
Qed.

(** ** Listing under cancellation *)

(** The loop only adds to the URLs it was given. *)
Lemma eachURL_acc ctx i f sel urls :
  eachURL ctx i f sel urls = (urls ++ eachURL ctx i f sel [])%list.
Proof.
  revert i urls. induction sel as [|s sel IH]; intros i urls; cbn [eachURL].
  { by rewrite app_nil_r. }
  destruct (ctx i); [by rewrite app_nil_r|].
  destruct (negb (Contains _ "/p/")); [apply IH|].
  destruct f as [f'|].
  - destruct (negb (f' _)); [apply IH|].
    rewrite (IH _ (urls ++ _)%list), (IH _ ([] ++ _)%list). by rewrite app_assoc.
  - rewrite (IH _ (urls ++ _)%list), (IH _ ([] ++ _)%list). by rewrite app_assoc.
Qed.

(** A cancellation cuts the listing short and changes nothing else. *)
Lemma eachURL_prefix ctx i j f sel urls :
  eachURL ctx i f sel urls `prefix_of` eachURL Background j f sel urls.
Proof.
  revert i j urls. induction sel as [|s sel IH]; intros i j urls; cbn [eachURL].
  { done. }
  change (Background j) with false. cbn iota.
  destruct (ctx i).
  { destruct (negb (Contains _ "/p/")).
    - rewrite eachURL_acc. by apply prefix_app_r.
    - destruct f as [f'|]; [destruct (negb (f' _))|];
        rewrite eachURL_acc; try by apply prefix_app_r.
      all: rewrite <-app_assoc; by apply prefix_app_r. }
  destruct (negb (Contains _ "/p/")); [apply IH|].
  destruct f as [f'|]; [destruct (negb (f' _))|]; apply IH.
Qed.

(** Each URL that the loop adds is the [loc] of a [url] element that has
    the post marker and whose [lastmod] the filter accepts. *)
Lemma eachURL_sound ctx i f sel urls url :
  url ∈ eachURL ctx i f sel urls →
  url ∈ urls
  ∨ ∃ s, s ∈ sel
         ∧ url = goquery.Text (goquery.Find (SelTag "loc") s)
         ∧ Contains url "/p/" = true
         ∧ ∀ f', f = Some f' →
             f' (goquery.Text (goquery.Find (SelTag "lastmod") s)) = true.
Proof.
  revert i urls. induction sel as [|s sel IH]; intros i urls; cbn [eachURL].
  { by left. }
  destruct (ctx i); [by left|].
  assert (∀ i urls,
            url ∈ eachURL ctx i f sel urls →
            url ∈ urls
            ∨ ∃ s0, s0 ∈ s :: sel
                    ∧ url = goquery.Text (goquery.Find (SelTag "loc") s0)
                    ∧ Contains url "/p/" = true
                    ∧ ∀ f', f = Some f' →
                        f' (goquery.Text (goquery.Find (SelTag "lastmod") s0)) = true)
    as IH'.
  { intros i' urls' [?|(s0 & Hin & ?)]%IH; [by left|].
    right. exists s0. split; [by right|done]. }
  destruct (Contains (goquery.Text (goquery.Find (SelTag "loc") s)) "/p/") eqn:Hpost;
    cbn [negb]; [|apply IH'].
  destruct f as [f'|].
  - destruct (f' _) eqn:Hf; cbn [negb]; [|apply IH'].
    intros [Hin|?]%IH'; [|by right].
    apply elem_of_app in Hin as [?|Hnew%list_elem_of_singleton]; [by left|subst url].
    right. exists s. split; [by left|]. split; [done|]. split; [done|].
    by intros ? [= <-].
  - intros [Hin|?]%IH'; [|by right].
    apply elem_of_app in Hin as [?|Hnew%list_elem_of_singleton]; [by left|subst url].
    right. exists s. split; [by left|]. split; [done|]. split; [done|]. done.
Qed.

Lemma eachURL_length ctx i f sel urls :
  (length (eachURL ctx i f sel urls) ≤ length urls + length sel)%nat.
Proof.
  revert i urls. induction sel as [|s sel IH]; intros i urls; cbn [eachURL length].
  { lia. }
  destruct (ctx i); [lia|].
  destruct (negb (Contains _ "/p/")); [specialize (IH (S i) urls); lia|].
  destruct f as [f'|]; [destruct (negb (f' _))|];
    try (specialize (IH (S i) urls); lia).
  all: specialize (IH (S i) (urls ++ [goquery.Text (goquery.Find (SelTag "loc") s)])%list);
    rewrite length_app in IH; simpl in IH; lia.
Qed.

(** X4.  Once the site map is fetched and parsed, [GetAllPostsURLs] returns
    no error, whatever the document is and whenever the context is
    cancelled: a cancellation during the walk is not reported, it only
    cuts the listing short.  What is returned is a prefix of the listing
    of the same document under a context that stays alive; every URL in it
    is the [loc] of a [url] element, contains [/p/] and has a [lastmod] that
    the filter accepts; and there are at most as many as [url] elements. *)
Theorem GetAllPostsURLs_cut_short_by_cancellation
    (ctx : Context) (pubUrl : string) (f : DateFilterFunc) (u : string)
    (body : Body) (doc : Node) :
  sitemapURL pubUrl = inr u →
  FetchURL (ctx O) u = inr body →
  NewDocumentFromReader body = inr doc →
  ∃ urls,
    getAllPostsURLs ctx pubUrl f = (urls, None)
    ∧ urls `prefix_of` eachURL Background 1 f (goquery.Find (SelTag "url") doc) []
    ∧ (∀ url, url ∈ urls →
         ∃ s, s ∈ goquery.Find (SelTag "url") doc
              ∧ url = goquery.Text (goquery.Find (SelTag "loc") s)
              ∧ Contains url "/p/" = true
              ∧ ∀ f', f = Some f' →
                  f' (goquery.Text (goquery.Find (SelTag "lastmod") s)) = true)
    ∧ (length urls ≤ length (goquery.Find (SelTag "url") doc))%nat.
Proof.
  intros Hurl Hfetch Hdoc. unfold GetAllPostsURLs. rewrite Hurl, Hfetch, Hdoc.
  eexists. split; [reflexivity|]. split; [|split].
  - apply eachURL_prefix.
  - intros url [Hin|?]%eachURL_sound; [|done]. by apply elem_of_nil in Hin.
  - apply (eachURL_length ctx 1 f _ []).
Qed.

End ExtractPostErrors.

Lemma GetAllPostsURLs_cut_short_witness :
  ∃ urls,
    GetAllPostsURLs Node (serve [("https://example.substack.com/sitemap.xml",
                                  sitemapDoc testSitemap)]) parsed joinSitemap
      (cancelledFrom 3) "https://example.substack.com" None = (urls, None)
    ∧ urls `prefix_of`
        eachURL Background 1 None
          (goquery.Find (SelTag "url") (sitemapDoc testSitemap)) []
    ∧ (∀ url, url ∈ urls →
         ∃ s, s ∈ goquery.Find (SelTag "url") (sitemapDoc testSitemap)
              ∧ url = goquery.Text (goquery.Find (SelTag "loc") s)
              ∧ Contains url "/p/" = true
              ∧ ∀ f', None = Some f' →
                  f' (goquery.Text (goquery.Find (SelTag "lastmod") s)) = true)
    ∧ (length urls ≤ length (goquery.Find (SelTag "url") (sitemapDoc testSitemap)))%nat.
Proof.
  apply (GetAllPostsURLs_cut_short_by_cancellation Node _ parsed joinSitemap
           (cancelledFrom 3) "https://example.substack.com" None
           "https://example.substack.com/sitemap.xml" (sitemapDoc testSitemap)
           (sitemapDoc testSitemap)); reflexivity.
Defined.

(** A listing that a cancellation at the third look cuts after two
    posts. *)
Example listing_cut_short :
  GetAllPostsURLs Node (serve [("https://example.substack.com/sitemap.xml",
                                sitemapDoc testSitemap)]) parsed joinSitemap
    (cancelledFrom 3) "https://example.substack.com" None
  = (["https://example.substack.com/p/test-post-1";
      "https://example.substack.com/p/test-post-2"], None).
Proof. vm_compute. reflexivity. Qed.

(** ** The subtitle that [ExtractPost] takes from the page *)

Section SubtitleFacts.
Variable Body : Type.
Variable FetchURL : bool → string → error + Body.
Variable NewDocumentFromReader : Body → error + Node.
Variable sitemapURL : string → error + string.

Local Abbreviation extractPost := (ExtractPost Body FetchURL NewDocumentFromReader).
Local Abbreviation getAllPostsURLs :=
  (GetAllPostsURLs Body FetchURL NewDocumentFromReader sitemapURL).

(** X3.  Whenever the first [.subtitle] element of the page has any text,
    the subtitle that [ExtractPost] returns is that text with the white
    space around it trimmed: the test for a text is made before the
    trimming, so an element of white space alone leaves the post with an
    empty subtitle, whatever subtitle the payload had. *)
Theorem ExtractPost_subtitle_of_the_page (ctx : Context) (pageUrl : string)
    (body : Body) (doc : Node) (p : Post) :
  FetchURL (ctx O) pageUrl = inr body →
  NewDocumentFromReader body = inr doc →
  extractPost ctx pageUrl = Returned (p, None) →
  subtitleText doc ≠ EmptyString →
  Subtitle p = TrimSpace (subtitleText doc)
  ∧ (TrimSpace (subtitleText doc) = EmptyString → Subtitle p = EmptyString).
Proof.
  intros Hfetch Hdoc Hpost Htext.
  assert (Subtitle p = TrimSpace (subtitleText doc)) as Hsub; [|split; congruence].
  revert Hpost. unfold ExtractPost. rewrite Hfetch, Hdoc.
  destruct (extractJSONString doc) as [[js [?|]]|]; try done.
  destruct (json.Unmarshal_string _ _) as [?|raw]; [done|].
  destruct (ToPost _) as [p0 [?|]]; [done|].
  intros [= <-]. unfold enrichCoverImage, enrichSubtitle.
  fold (subtitleText doc).
  apply isEmpty_false in Htext. rewrite Htext. cbn [negb].
  destruct (isEmpty (CoverImage (set_Subtitle p0 _))); [|done].
  destruct (goquery.Attr _ _) as [og|]; [|done].
  by destruct (negb (isEmpty og)).
Qed.

(** ** The date filter of a listing *)

Lemma eachURL_filter_sublist ctx i f sel urls urls' :
  urls `sublist_of` urls' →
  eachURL ctx i (Some f) sel urls `sublist_of` eachURL ctx i None sel urls'.
Proof.
  revert i urls urls'. induction sel as [|s sel IH]; intros i urls urls' Hsub;
    cbn [eachURL]; [done|].
  destruct (ctx i); [done|].
  destruct (negb (Contains _ "/p/")); [by apply IH|].
  destruct (negb (f _)); apply IH.
  - by apply sublist_inserts_r.
  - by apply sublist_app.
Qed.

(** X5.  The date filter of [GetAllPostsURLs] only leaves URLs out: with a
    filter the call returns a sublist, in the same order, of what it
    returns without one, and the same error. *)
Theorem GetAllPostsURLs_filter_only_removes (ctx : Context) (pubUrl : string)
    (f : string → bool) :
  fst (getAllPostsURLs ctx pubUrl (Some f))
    `sublist_of` fst (getAllPostsURLs ctx pubUrl None)
  ∧ snd (getAllPostsURLs ctx pubUrl (Some f)) = snd (getAllPostsURLs ctx pubUrl None).
Proof.
  unfold GetAllPostsURLs.
  destruct (sitemapURL pubUrl) as [?|u]; [done|].
  destruct (FetchURL (ctx O) u) as [?|body]; [done|].
  destruct (NewDocumentFromReader body) as [?|doc]; [done|].
  cbn [fst snd]. split; [|done].
  by apply eachURL_filter_sublist.
Qed.
End SubtitleFacts.

Lemma ExtractPost_subtitle_witness :
  Subtitle (set_Subtitle createSamplePost EmptyString)
  = TrimSpace (subtitleText pageWithBlankSubtitle)
  ∧ (TrimSpace (subtitleText pageWithBlankSubtitle) = EmptyString →
     Subtitle (set_Subtitle createSamplePost EmptyString) = EmptyString).
Proof.
  apply (ExtractPost_subtitle_of_the_page Node (serve [("u", pageWithBlankSubtitle)])
           parsed Background "u" pageWithBlankSubtitle pageWithBlankSubtitle);
    [reflexivity|reflexivity|vm_compute; reflexivity|discriminate].
Defined.

(** The subtitle between two no-break spaces comes without them. *)
Example subtitle_between_no_break_spaces :
  ExtractPost Node (serve [("u", pageWithSpacedSubtitle)]) parsed Background "u"
  = Returned (set_Subtitle createSamplePost "Hi there", None).
Proof. vm_compute. reflexivity. Qed.

(** ** The workers of the pool *)

Local Close Scope string_scope.

Lemma inflight_length ws : (length (inflight ws) ≤ length ws)%nat.
Proof.
  induction ws as [|w ws IH]; [done|].
  rewrite inflight_cons, length_app. destruct w; simpl; lia.
Qed.

Section PoolBounds.
Variable Body : Type.
Variable FetchURL : bool → string → error + Body.
Variable NewDocumentFromReader : Body → error + Node.

Local Abbreviation step := (poolStep Body FetchURL NewDocumentFromReader).
Local Abbreviation reach := (poolReach Body FetchURL NewDocumentFromReader).

(** X6.  [ExtractAllPosts] runs [min(10, len(urls))] workers from its start
    to its end, so at no time are more than ten URLs being worked on; the
    URLs at work, those waiting in the URL channel and the pairs sent never
    add up to more than the URLs of the call, and the result channel never
    holds more than its capacity [len(urls)]. *)
Theorem ExtractAllPosts_at_most_ten_at_work (cancelled : bool) (urls : list string)
    (s : pool) :
  reach (startPool cancelled urls) s →
  length (workers s) = Nat.min 10 (length urls)
  ∧ (length (inflight (workers s)) ≤ 10)%nat
  ∧ (length (resultCh s) + length (inflight (workers s)) + length (urlCh s)
     ≤ length urls)%nat
  ∧ (length (resultCh s) ≤ cap s)%nat.
Proof.
  intros Hreach.
  destruct (poolInv_reach Body FetchURL NewDocumentFromReader cancelled urls s Hreach)
    as (sent & dropped & Hperm & Hres & _ & Hcap & _ & _ & Hlen).
  pose proof (inflight_length (workers s)) as Hheld.
  apply Permutation_length in Hperm. rewrite !length_app in Hperm.
  apply Forall2_length in Hres.
  split; [done|]. split; [lia|]. split; lia.
Qed.

(** X7.  Under a context that is cancelled before the call, no worker gets
    to [ExtractPost] and nothing is ever sent: every worker that receives
    a URL gives it up at the [select]. *)
Theorem ExtractAllPosts_cancelled_before_the_call (urls : list string) (s : pool) :
  reach (startPool true urls) s →
  ctxDone s = true
  ∧ resultCh s = []
  ∧ ∀ i u, workers s !! i ≠ Some (WExtract u).
Proof.
  intros Hreach.
  assert (ctxDone s = true ∧ resultCh s = []
          ∧ Forall (fun w => ∀ u, w ≠ WExtract u) (workers s)) as (Hctx & Hres & Hws).
  { induction Hreach as [|s s' _ (Hctx & Hres & Hws) Hstep].
    - unfold startPool. cbn [ctxDone resultCh workers].
      split; [done|]. split; [done|].
      apply Forall_forall. by intros w ->%elem_of_replicate_inv.
    - destruct Hstep as [s|s i u q Hw Hq|s i Hw Hq|s i u Hw Hc|s i u Hw Hc
                        |s i u c post err Hw Hc Hpost Hroom|s Hall Hopen];
        cbn [cancel ctxDone resultCh workers].
      + done.
      + split; [done|]. split; [done|]. by apply Forall_insert.
      + split; [done|]. split; [done|]. by apply Forall_insert.
      + split; [done|]. split; [done|]. by apply Forall_insert.
      + congruence.
      + apply list_elem_of_lookup_2 in Hw.
        by destruct (proj1 (Forall_forall _ _) Hws _ Hw u).
      + done. }
  split; [done|]. split; [done|].
  intros i u Hw. apply list_elem_of_lookup_2 in Hw.
  by destruct (proj1 (Forall_forall _ _) Hws _ Hw u).
Qed.
End PoolBounds.

Lemma cancelled_early_run :
  poolReach Node (serve testPages) parsed
    (startPool true ["u1"; "u2"]%string) cancelledEarlyRun.
Proof.
  eapply reach_first.
  { eapply (step_receive _ _ _ _ 0%nat); reflexivity. }
  eapply reach_first.
  { eapply (step_select_done _ _ _ _ 0%nat); reflexivity. }
  apply reach_start.
Qed.

Lemma ExtractAllPosts_at_most_ten_witness :
  length (workers cancelledRunEnd) = Nat.min 10 (length ["u1"; "u2"]%string)
  ∧ (length (inflight (workers cancelledRunEnd)) ≤ 10)%nat
  ∧ (length (resultCh cancelledRunEnd) + length (inflight (workers cancelledRunEnd))
     + length (urlCh cancelledRunEnd) ≤ length ["u1"; "u2"]%string)%nat
  ∧ (length (resultCh cancelledRunEnd) ≤ cap cancelledRunEnd)%nat.
Proof.
  exact (ExtractAllPosts_at_most_ten_at_work Node (serve testPages) parsed false
           ["u1"; "u2"]%string cancelledRunEnd cancelled_run).
Defined.

Lemma ExtractAllPosts_cancelled_before_witness :
  ctxDone cancelledEarlyRun = true
  ∧ resultCh cancelledEarlyRun = []
  ∧ ∀ i u, workers cancelledEarlyRun !! i ≠ Some (WExtract u).
Proof.
  exact (ExtractAllPosts_cancelled_before_the_call Node (serve testPages) parsed
           ["u1"; "u2"]%string cancelledEarlyRun cancelled_early_run).
Defined.

Local Open Scope string_scope.
Local Open Scope Z_scope.

(** ** Adding to a sorted archive *)

Local Close Scope string_scope.

Section InsertionFacts.
Context {A : Type} (less : A → A → bool).

(** Where the inner loop leaves the element: behind the elements it is
    [less] than, in front of the first one it is not. *)
Lemma sink_split x before :
  ∃ l1 l2,
    before = l1 ++ l2
    ∧ sink less x before = l1 ++ x :: l2
    ∧ Forall (fun y => less x y = true) l1
    ∧ (∀ y, head l2 = Some y → less x y = false).
Proof.
  induction before as [|y before (l1 & l2 & -> & Hsink & Hall & Hhead)]; cbn [sink].
  { exists [], []. by repeat split. }
  destruct (less x y) eqn:Hxy.
  - exists (y :: l1), l2. rewrite Hsink. repeat split; [by constructor|done].
  - exists [], (y :: l1 ++ l2). repeat split; [constructor|].
    by intros ? [= <-].
Qed.

(** On a slice in which no element is [less] than the one before it the
    outer loop moves nothing. *)
Lemma insertionSort_rev_sorted l :
  Sorted (fun a b => less b a = false) l →
  insertionSort_rev less l = reverse l.
Proof.
  unfold insertionSort_rev.
  induction l as [|x l IH] using rev_ind; intros Hsorted; [done|].
  rewrite fold_left_app, reverse_snoc. cbn [fold_left].
  assert (Sorted (fun a b => less b a = false) l ∧
          ∀ y, last l = Some y → less x y = false) as [Hl Hlast].
  { clear IH. induction l as [|z l IHl]; [by split; [constructor|]|].
    apply Sorted_inv in Hsorted as [Hs Hhd].
    destruct l as [|z' l].
    - split; [repeat constructor|]. intros y [= <-]. by inversion Hhd.
    - destruct (IHl Hs) as [Hl Hlast]. split; [|done].
      constructor; [done|]. constructor. by inversion Hhd. }
  rewrite IH by done.
  destruct l as [|z l _] using rev_ind; [done|].
  rewrite reverse_snoc. cbn [sink].
  by rewrite (Hlast z ltac:(by rewrite last_snoc)).
Qed.

End InsertionFacts.

Section ArchiveInsertion.
Variable parse : string → option Time.

(** X8.  [AddEntry] keeps what the archive holds: after the call the
    archive has the new entry and the entries it had, each as often as
    before and nothing else, whatever the dates and titles are. *)
Theorem AddEntry_keeps_the_entries (a : Archive) (post : Post) (filePath : string)
    (downloadTime : Time) :
  Entries (AddEntry parse a post filePath downloadTime)
    ≡ₚ mkArchiveEntry post filePath downloadTime :: Entries a
  ∧ length (Entries (AddEntry parse a post filePath downloadTime))
    = S (length (Entries a))
  ∧ ∀ e, e ∈ Entries (AddEntry parse a post filePath downloadTime)
         ↔ e = mkArchiveEntry post filePath downloadTime ∨ e ∈ Entries a.
Proof.
  assert (Entries (AddEntry parse a post filePath downloadTime)
            ≡ₚ mkArchiveEntry post filePath downloadTime :: Entries a) as Hperm.
  { rewrite Entries_AddEntry, sort_Slice_Permutation.
    by rewrite Permutation_app_comm. }
  split; [done|]. split.
  - by rewrite Hperm.
  - intros e. by rewrite Hperm, elem_of_cons.
Qed.

(** X9.  On an archive that was built with [AddEntry] alone and holds fewer
    than twelve entries (so that [sort.Slice] runs its insertion sort), a
    further [AddEntry] puts the new entry in and moves no other: the new
    entry goes in front of the run of entries at the end that it compares
    less than, and behind an entry that it does not compare less than. *)
Theorem AddEntry_moves_no_other_entry (es : list ArchiveEntry) (post : Post)
    (filePath : string) (downloadTime : Time) :
  (length es < 12)%nat →
  ∃ front back,
    Entries (addAll parse NewArchive es) = front ++ back
    ∧ Entries (AddEntry parse (addAll parse NewArchive es) post filePath downloadTime)
      = front ++ mkArchiveEntry post filePath downloadTime :: back
    ∧ Forall (fun e => entryLess parse (mkArchiveEntry post filePath downloadTime) e = true)
             back
    ∧ (∀ e, last front = Some e →
         entryLess parse (mkArchiveEntry post filePath downloadTime) e = false).
Proof.
  intros _. rewrite Entries_AddEntry.
  set (e := mkArchiveEntry post filePath downloadTime).
  set (l := Entries (addAll parse NewArchive es)).
  (* the entries before the new one are in order already: the outer loop
     leaves them alone *)
  unfold sort_Slice, insertionSort_rev.
  rewrite fold_left_app. cbn [fold_left].
  fold (insertionSort_rev (entryLess parse) l).
  rewrite (insertionSort_rev_sorted (entryLess parse) l (addAll_Sorted parse es)).
  (* and the inner loop sinks the new one into its place *)
  destruct (sink_split (entryLess parse) e (reverse l))
    as (l1 & l2 & Hrev & -> & Hall & Hhead).
  exists (reverse l2), (reverse l1).
  rewrite reverse_app, reverse_cons, <-app_assoc. cbn [app].
  split.
  { by rewrite <-reverse_app, <-Hrev, reverse_involutive. }
  split; [done|]. split.
  - by apply Forall_reverse.
  - intros y Hy. apply Hhead. by rewrite last_reverse in Hy.
Qed.
End ArchiveInsertion.

Lemma AddEntry_moves_no_other_witness :
  ∃ front back,
    Entries (addAll RFC3339.Parse NewArchive [entryJan03; entryJan01]) = front ++ back
    ∧ Entries (AddEntry RFC3339.Parse
                 (addAll RFC3339.Parse NewArchive [entryJan03; entryJan01])
                 (entryPost entryJan02) (FilePath entryJan02) (DownloadTime entryJan02))
      = front ++ mkArchiveEntry (entryPost entryJan02) (FilePath entryJan02)
                   (DownloadTime entryJan02) :: back
    ∧ Forall (fun e => entryLess RFC3339.Parse
                         (mkArchiveEntry (entryPost entryJan02) (FilePath entryJan02)
                            (DownloadTime entryJan02)) e = true) back
    ∧ (∀ e, last front = Some e →
         entryLess RFC3339.Parse
           (mkArchiveEntry (entryPost entryJan02) (FilePath entryJan02)
              (DownloadTime entryJan02)) e = false).
Proof.
  apply (AddEntry_moves_no_other_entry RFC3339.Parse [entryJan03; entryJan01]).
  simpl. lia.
Defined.

Local Open Scope string_scope.
Local Open Scope Z_scope.

(** ** What [WriteToFile] leaves on the disk *)

Lemma WriteFile_error path content fs fs' err :
  os.WriteFile path content fs = (fs', Some err) → fs' = fs.
Proof.
  unfold os.WriteFile.
  destruct (isEmpty path); [by intros [= <-]|].
  destruct (os.isDir fs path); [by intros [= <-]|].
  destruct (os.isDir fs (os.Dir path)); [done|by intros [= <-]].
Qed.

Lemma WriteFile_success path content fs fs' :
  os.WriteFile path content fs = (fs', None) →
  files fs' = <[path := content]> (files fs)
  ∧ dirs fs' = dirs fs
  ∧ os.isDir fs (os.Dir path) = true
  ∧ os.isDir fs path = false.
Proof.
  unfold os.WriteFile.
  destruct (isEmpty path); [done|].
  destruct (os.isDir fs path); [done|].
  destruct (os.isDir fs (os.Dir path)); [|done].
  by intros [= <-].
Qed.

Lemma MkdirAll_success path fs fs' :
  os.MkdirAll path fs = (fs', None) →
  files fs' = files fs ∧ dirs fs' = dirs fs ∪ list_to_set (os.ancestors path).
Proof.
  unfold os.MkdirAll. destruct (List.find _ _); [done|]. by intros [= <-].
Qed.

Lemma MkdirAll_error path fs fs' err :
  os.MkdirAll path fs = (fs', Some err) → fs' = fs.
Proof.
  unfold os.MkdirAll. destruct (List.find _ _); [|done]. by intros [= <- _].
Qed.

Section WritingFacts.
Variable ConvertString : string → error + string.
Variable HTML2Text : string → string.

Local Abbreviation writeToFile := (WriteToFile ConvertString HTML2Text).
Local Abbreviation contentFor := (contentForFormat ConvertString HTML2Text).

(** [WriteToFile], step by step. *)
Lemma WriteToFile_steps p path format addSourceURL fs :
  writeToFile p path format addSourceURL fs
  = match os.MkdirAll (os.Dir path) fs with
    | (fs1, Some err) => (fs1, Some err)
    | (fs1, None) =>
        match contentFor p format true with
        | (_, Some err) => (fs1, Some err)
        | (content, None) =>
            os.WriteFile path (withSource p format addSourceURL content) fs1
        end
    end.
Proof. reflexivity. Qed.


(** X11.  When [WriteToFile] fails before it comes to the write, that is
    when the directory cannot be made, or when it is made and the format is
    unknown or the conversion fails, the call returns the error of that
    step and no regular file has been created or changed: the call to
    [os.WriteFile] is not reached. *)
Theorem WriteToFile_early_error_changes_no_file (p : Post) (path format : string)
    (addSourceURL : bool) (fs : FS) (err : error) :
  snd (os.MkdirAll (os.Dir path) fs) = Some err
  ∨ (snd (os.MkdirAll (os.Dir path) fs) = None
     ∧ snd (contentFor p format true) = Some err) →
  snd (writeToFile p path format addSourceURL fs) = Some err
  ∧ files (fst (writeToFile p path format addSourceURL fs)) = files fs.
Proof.
  rewrite WriteToFile_steps.
  destruct (os.MkdirAll (os.Dir path) fs) as [fs1 [err1|]] eqn:Hmkdir; simpl.
  - intros [[= ->]|[[=] _]]. by rewrite (MkdirAll_error _ _ _ _ Hmkdir).
  - destruct (MkdirAll_success _ _ _ Hmkdir) as [Hfiles1 _].
    intros [[=]|[_ Hcontent]].
    destruct (contentFor p format true) as [content [err2|]]; simpl in *; [|done].
    by injection Hcontent as ->.
Qed.
End WritingFacts.


Lemma WriteToFile_early_error_witness :
  snd (WriteToFile failingConvert plainText createSamplePost "out/test.md" "md"
         false fsWithFileA) = Some (errors_New "conversion failed")
  ∧ files (fst (WriteToFile failingConvert plainText createSamplePost "out/test.md"
                  "md" false fsWithFileA)) = files fsWithFileA.
Proof.
  apply (WriteToFile_early_error_changes_no_file failingConvert plainText
           createSamplePost "out/test.md" "md" false fsWithFileA
           (errors_New "conversion failed")).
  right. split; vm_compute; reflexivity.
Defined.

(** ** Writing a post with its images and files *)

Lemma HasPrefix_append_l s t p : HasPrefix s p = true → HasPrefix (s ++ t) p = true.
Proof.
  revert s. induction p as [|x p IH]; intros [|c s]; simpl; try done.
  destruct (Ascii.eqb c x); [apply IH|done].
Qed.

Lemma HasPrefix_withSource p format addSourceURL content prefix :
  HasPrefix content prefix = true →
  HasPrefix (withSource p format addSourceURL content) prefix = true.
Proof.
  unfold withSource. destruct (_ && _); [apply HasPrefix_append_l|done].
Qed.

Section DownloadFacts.
Variable ConvertString : string → error + string.
Variable HTML2Text : string → string.
Variable ImageInfo : Type.
Variable ImageQuality : Type.
Variable DownloadImages :
  string → string → ImageQuality → Context → string → string → FS →
  FS * (option (ImageDownloadResult ImageInfo) * option error).
Variable DownloadFiles :
  string → string → list string → Context → string → string → FS →
  FS * (option FileDownloadResult * option error).

Local Abbreviation writeToFile := (WriteToFile ConvertString HTML2Text).
Local Abbreviation contentFor := (contentForFormat ConvertString HTML2Text).
Local Abbreviation writeWithImages :=
  (WriteToFileWithImages ConvertString HTML2Text ImageInfo ImageQuality
     DownloadImages DownloadFiles).
Local Abbreviation images :=
  (imagesPart ConvertString ImageInfo ImageQuality DownloadImages).
Local Abbreviation filesOf := (filesPart ConvertString ImageInfo DownloadFiles).

(** X12.  With neither images nor files to download,
    [WriteToFileWithImages] does to the disk what [WriteToFile] does and
    returns the same error; when there is none, its result reports no
    image and holds the content that was written. *)
Theorem WriteToFileWithImages_without_downloads (p : Post) (ctx : Context)
    (path format : string) (addSourceURL : bool) (imageQuality : ImageQuality)
    (imagesDir : string) (fileExtensions : list string) (filesDir : string) (fs : FS) :
  ∃ result,
    writeWithImages p ctx path format addSourceURL false imageQuality imagesDir
      false fileExtensions filesDir fs
    = Returned (fst (writeToFile p path format addSourceURL fs),
                (result, snd (writeToFile p path format addSourceURL fs)))
    ∧ match snd (writeToFile p path format addSourceURL fs) with
      | Some _ => result = None
      | None =>
          ∃ content,
            result = Some (mkImageDownloadResult [] content 0 0)
            ∧ files (fst (writeToFile p path format addSourceURL fs)) !! path
              = Some content
      end.
Proof.
  unfold WriteToFileWithImages. rewrite WriteToFile_steps.
  destruct (os.MkdirAll (os.Dir path) fs) as [fs1 [err|]]; [by eexists|].
  destruct (contentFor p format true) as [content [err|]]; [by eexists|].
  unfold imagesPart, filesPart. cbn [andb].
  destruct (os.WriteFile path (withSource p format addSourceURL content) fs1)
    as [fs4 [err|]] eqn:Hwrite; cbn [fst snd]; [by eexists|].
  eexists. split; [reflexivity|].
  eexists. split; [reflexivity|].
  apply WriteFile_success in Hwrite as (-> & _). by rewrite lookup_insert_eq.
Qed.

(** X13.  For a format other than [html], [md] and [txt],
    [WriteToFileWithImages] fails before it downloads anything, whatever
    is asked for: it returns no result and the error that [WriteToFile]
    returns, and leaves the disk as [WriteToFile] leaves it. *)
Theorem WriteToFileWithImages_unknown_format (p : Post) (ctx : Context)
    (path format : string) (addSourceURL downloadImages : bool)
    (imageQuality : ImageQuality) (imagesDir : string) (downloadFiles : bool)
    (fileExtensions : list string) (filesDir : string) (fs : FS) :
  format ≠ "html" → format ≠ "md" → format ≠ "txt" →
  writeWithImages p ctx path format addSourceURL downloadImages imageQuality imagesDir
    downloadFiles fileExtensions filesDir fs
  = Returned (fst (writeToFile p path format addSourceURL fs),
              (None, snd (writeToFile p path format addSourceURL fs)))
  ∧ snd (writeToFile p path format addSourceURL fs) ≠ None.
Proof.
  intros Hhtml%String.eqb_neq Hmd%String.eqb_neq Htxt%String.eqb_neq.
  unfold WriteToFileWithImages. rewrite WriteToFile_steps.
  destruct (os.MkdirAll (os.Dir path) fs) as [fs1 [err|]]; [done|].
  unfold contentForFormat. by rewrite Hhtml, Hmd, Htxt.
Qed.

(** X14.  In the [txt] format the files of a post are never downloaded, and
    the images, when they are, leave the text alone: the call writes what
    [WriteToFile] would write to the disk that the image download left,
    and hands on the result of the image download. *)
Theorem WriteToFileWithImages_txt (p : Post) (ctx : Context) (path : string)
    (addSourceURL downloadImages : bool) (imageQuality : ImageQuality)
    (imagesDir : string) (downloadFiles : bool) (fileExtensions : list string)
    (filesDir : string) (fs : FS) :
  writeWithImages p ctx path "txt" addSourceURL downloadImages imageQuality imagesDir
    downloadFiles fileExtensions filesDir fs
  = writeWithImages p ctx path "txt" addSourceURL downloadImages imageQuality imagesDir
      false [] EmptyString fs
  ∧ ∀ fs1 fs2 imageResult,
      os.MkdirAll (os.Dir path) fs = (fs1, None) →
      DownloadImages (os.Dir path) imagesDir imageQuality ctx (BodyHTML p) (Slug p) fs1
        = (fs2, (imageResult, None)) →
      downloadImages = true →
      writeWithImages p ctx path "txt" addSourceURL downloadImages imageQuality imagesDir
        downloadFiles fileExtensions filesDir fs
      = Returned
          (match os.WriteFile path
                   (withSource p "txt" addSourceURL (ToText HTML2Text p true)) fs2 with
           | (fs4, Some err) => (fs4, (imageResult, Some err))
           | (fs4, None) =>
               (fs4, (Some (default
                              (mkImageDownloadResult []
                                 (withSource p "txt" addSourceURL (ToText HTML2Text p true))
                                 0 0) imageResult), None))
           end).
Proof.
  split.
  - unfold WriteToFileWithImages, filesPart.
    change (String.eqb "txt" "html") with false.
    change (String.eqb "txt" "md") with false.
    by rewrite !andb_false_r.
  - intros fs1 fs2 imageResult Hmkdir Himages ->.
    unfold WriteToFileWithImages, imagesPart, filesPart, contentForFormat.
    rewrite Hmkdir.
    change (String.eqb "txt" "html") with false.
    change (String.eqb "txt" "md") with false.
    change (String.eqb "txt" "txt") with true.
    cbn [andb orb]. rewrite andb_false_r, Himages.
    destruct (os.WriteFile _ _ fs2) as [fs4 [err|]]; [done|].
    by destruct imageResult.
Qed.

(** X15.  An [html] file written by [WriteToFileWithImages] starts with a
    heading, whatever the downloaders made of the page: where the
    rewritten page does not start with [<h1>] the title is put in front
    again. *)
Theorem WriteToFileWithImages_html_has_heading (p : Post) (ctx : Context)
    (path : string) (addSourceURL downloadImages : bool) (imageQuality : ImageQuality)
    (imagesDir : string) (downloadFiles : bool) (fileExtensions : list string)
    (filesDir : string) (fs fs' : FS)
    (result : option (ImageDownloadResult ImageInfo)) :
  writeWithImages p ctx path "html" addSourceURL downloadImages imageQuality imagesDir
    downloadFiles fileExtensions filesDir fs
  = Returned (fs', (result, None)) →
  ∃ content, files fs' !! path = Some content ∧ HasPrefix content "<h1>" = true.
Proof.
  unfold WriteToFileWithImages.
  destruct (os.MkdirAll (os.Dir path) fs) as [fs1 [err|]]; [done|].
  unfold contentForFormat. change (String.eqb "html" "html") with true. cbn iota.
  (* the content has the heading after the images ... *)
  assert (∀ fs2 content imageResult,
            images p ctx path "html" downloadImages imageQuality imagesDir
              (ToHTML p true) fs1 = Returned (fs2, inr (content, imageResult)) →
            HasPrefix content "<h1>" = true) as Himages.
  { intros fs2 content imageResult. unfold imagesPart.
    change (String.eqb "html" "html") with true.
    change (String.eqb "html" "md") with false.
    change (String.eqb "html" "txt") with false.
    cbn [orb]. rewrite andb_true_r, andb_false_r.
    destruct downloadImages; [|by intros [= _ <- _]].
    destruct (DownloadImages _ _ _ _ _ _ _) as [fs2' [[r|] [err|]]]; try done.
    destruct (HasPrefix (UpdatedHTML r) "<h1>") eqn:Hh1; by intros [= _ <- _]. }
  (* ... and after the files *)
  assert (∀ fs2 fs3 content content' imageResult,
            HasPrefix content "<h1>" = true →
            filesOf p ctx path "html" downloadFiles fileExtensions filesDir
              content imageResult fs2 = Returned (fs3, inr content') →
            HasPrefix content' "<h1>" = true) as Hfiles.
  { intros fs2 fs3 content content' imageResult Hcontent. unfold filesPart.
    change (String.eqb "html" "html") with true.
    cbn [orb]. rewrite andb_true_r.
    destruct downloadFiles; [|by intros [= _ <-]].
    destruct (DownloadFiles _ _ _ _ _ _ _) as [fs3' [[r|] [err|]]]; try done.
    destruct (_ || _); [|by intros [= _ <-]].
    destruct (HasPrefix (fileUpdatedHTML r) "<h1>") eqn:Hh1; by intros [= _ <-]. }
  destruct (images p ctx path "html" downloadImages imageQuality imagesDir
              (ToHTML p true) fs1) as [[fs2 [err|[content imageResult]]]|] eqn:Hi;
    try done.
  destruct (filesOf p ctx path "html" downloadFiles fileExtensions filesDir
              content imageResult fs2) as [[fs3 [err|content']]|] eqn:Hf; try done.
  destruct (os.WriteFile path (withSource p "html" addSourceURL content') fs3)
    as [fs4 [err|]] eqn:Hwrite; [done|].
  intros [= <- _].
  apply WriteFile_success in Hwrite as (-> & _).
  eexists. split; [by rewrite lookup_insert_eq|].
  apply HasPrefix_withSource. eapply Hfiles; [|done]. by eapply Himages.
Qed.
End DownloadFacts.

Lemma WriteToFileWithImages_unknown_format_witness :
  WriteToFileWithImages plainConvert plainText string unit oneImage noFiles
    createSamplePost Background "out/test.invalid" "invalid" true true tt "images"
    true [] "files" (mkFS ∅ ∅)
  = Returned (fst (WriteToFile plainConvert plainText createSamplePost
                     "out/test.invalid" "invalid" true (mkFS ∅ ∅)),
              (None, snd (WriteToFile plainConvert plainText createSamplePost
                            "out/test.invalid" "invalid" true (mkFS ∅ ∅))))
  ∧ snd (WriteToFile plainConvert plainText createSamplePost
           "out/test.invalid" "invalid" true (mkFS ∅ ∅)) ≠ None.
Proof.
  apply (WriteToFileWithImages_unknown_format plainConvert plainText string unit
           oneImage noFiles createSamplePost Background "out/test.invalid" "invalid");
    discriminate.
Defined.

Lemma WriteToFileWithImages_html_witness :
  ∃ content,
    files (mkFS {[ "out" ]}
             {[ "out/test.html" := "<h1>Test Post</h1>" ++ nl ++ nl ++ "<p>local</p>" ]})
      !! "out/test.html" = Some content
    ∧ HasPrefix content "<h1>" = true.
Proof.
  apply (WriteToFileWithImages_html_has_heading plainConvert plainText string unit
           oneImage noFiles createSamplePost Background "out/test.html" false true tt
           "images" true [] "files" (mkFS ∅ ∅) _
           (Some (mkImageDownloadResult ["images/test-post/a.png"] "<p>local</p>" 1 0))).
  vm_compute. reflexivity.
Defined.

Lemma WriteToFileWithImages_txt_witness :
  WriteToFileWithImages plainConvert plainText string unit oneImage noFiles
    createSamplePost Background "out/test.txt" "txt" false true tt "images"
    true [] "files" (mkFS ∅ ∅)
  = Returned
      (match os.WriteFile "out/test.txt"
               (withSource createSamplePost "txt" false
                  (ToText plainText createSamplePost true)) (mkFS {[ "out" ]} ∅) with
       | (fs4, Some err) =>
           (fs4, (Some (mkImageDownloadResult ["images/test-post/a.png"]
                          "<p>local</p>" 1 0), Some err))
       | (fs4, None) =>
           (fs4, (Some (default
                          (mkImageDownloadResult []
                             (withSource createSamplePost "txt" false
                                (ToText plainText createSamplePost true)) 0 0)
                          (Some (mkImageDownloadResult ["images/test-post/a.png"]
                                   "<p>local</p>" 1 0))), None))
       end).
Proof.
  apply (proj2 (WriteToFileWithImages_txt plainConvert plainText string unit
                  oneImage noFiles createSamplePost Background "out/test.txt"
                  false true tt "images" true [] "files" (mkFS ∅ ∅))
           (mkFS {[ "out" ]} ∅));
    [vm_compute; reflexivity|reflexivity|reflexivity].
Defined.

(** ** The index pages on the disk *)

(** [filepath.Clean], [filepath.Join] and [filepath.Dir] on the paths that
    tell them from a plain concatenation. *)
Example Join_is_clean :
  os.Join "." "index.txt" = "index.txt"
  ∧ os.Join "out/" "index.html" = "out/index.html"
  ∧ os.Join "./out//posts" "index.md" = "out/posts/index.md"
  ∧ os.Join EmptyString "index.md" = "index.md"
  ∧ os.Join "/" "index.md" = "/index.md"
  ∧ os.Clean "a/../../b" = "../b"
  ∧ os.Clean "/../a/./b/.." = "/a"
  ∧ os.Dir "out/test.html" = "out"
  ∧ os.Dir "out//posts/test.html" = "out/posts"
  ∧ os.Dir "test.html" = "."
  ∧ os.Dir "/test.html" = "/".
Proof. repeat split; vm_compute; reflexivity. Qed.

Lemma append_inj_l s a b : s ++ a = s ++ b → a = b.
Proof. induction s as [|c s IH]; simpl; [done|]. intros [= ?]. by apply IH. Qed.

Lemma elements_from_plain cur name :
  plainElement name = true → os.elements_from cur name = [(cur ++ name)%string].
Proof.
  unfold plainElement. intros [[[_ Hname]%andb_prop _]%andb_prop _]%andb_prop.
  revert cur. induction name as [|c name IH]; intros cur; simpl in *.
  - by rewrite append_nil_r.
  - apply andb_prop in Hname as [Hc Hname].
    destruct (Ascii.eqb c "/"); [done|].
    rewrite IH by done. by rewrite append_assoc.
Qed.

Lemma elements_from_append cur dir name :
  os.elements_from cur (dir ++ "/" ++ name)
  = (os.elements_from cur dir ++ os.elements name)%list.
Proof.
  revert cur. induction dir as [|c dir IH]; intros cur; simpl; [done|].
  destruct (Ascii.eqb c "/"); simpl; by rewrite IH.
Qed.

Lemma cleanStep_plain rooted out name :
  plainElement name = true → os.cleanStep rooted out name = name :: out.
Proof.
  unfold plainElement, os.cleanStep.
  intros [[[Hempty _]%andb_prop Hdot]%andb_prop Hdots]%andb_prop.
  apply negb_true_iff in Hempty, Hdot, Hdots. by rewrite Hempty, Hdot, Hdots.
Qed.

Lemma joinElements_snoc out name :
  os.joinElements (out ++ [name])
  = (if bool_decide (out = []) then name else os.joinElements out ++ "/" ++ name).
Proof.
  induction out as [|e [|e' out] IH]; [done..|].
  change (os.joinElements ((e :: e' :: out) ++ [name]))
    with (e ++ "/" ++ os.joinElements ((e' :: out) ++ [name])).
  rewrite IH. rewrite bool_decide_eq_false_2 by done.
  rewrite bool_decide_eq_false_2 by done.
  change (os.joinElements (e :: e' :: out))
    with (e ++ "/" ++ os.joinElements (e' :: out)).
  by rewrite !append_assoc.
Qed.

Lemma elements_snoc dir name :
  plainElement name = true →
  os.elements (dir ++ "/" ++ name) = (os.elements dir ++ [name])%list.
Proof.
  intros Hname. unfold os.elements. rewrite elements_from_append.
  unfold os.elements. by rewrite (elements_from_plain EmptyString name).
Qed.

(** [filepath.Join] puts a file name behind what it makes of the
    directory. *)
Lemma Join_plain dir :
  ∃ pre, ∀ name, plainElement name = true → os.Join dir name = pre ++ name.
Proof.
  destruct dir as [|c dir].
  { exists EmptyString. intros name Hname. unfold os.Join. simpl.
    assert (isEmpty name = false) as Hempty.
    { unfold plainElement in Hname. by destruct name. }
    rewrite Hempty. simpl. unfold os.Clean. rewrite Hempty.
    assert (HasPrefix name "/" = false) as ->.
    { unfold plainElement in Hname. destruct name as [|x name]; [done|].
      apply andb_prop in Hname as [[[_ Hx]%andb_prop _]%andb_prop _].
      simpl in *. by destruct (Ascii.eqb x "/"). }
    unfold os.elements. rewrite elements_from_plain by done. simpl.
    by rewrite cleanStep_plain. }
  set (d := String c dir).
  set (rooted := HasPrefix d "/").
  set (out := reverse (fold_left (os.cleanStep rooted) (os.elements d) [])).
  exists ((if rooted then "/" else EmptyString)
          ++ (if bool_decide (out = []) then EmptyString
              else os.joinElements out ++ "/")).
  intros name Hname. unfold os.Join, os.Clean.
  change (isEmpty d) with false. cbn [negb].
  change (isEmpty (d ++ "/" ++ name)) with false.
  change (HasPrefix (d ++ "/" ++ name) "/") with rooted.
  cbv zeta. rewrite elements_snoc by done.
  rewrite fold_left_app. cbn [fold_left].
  rewrite cleanStep_plain by done. rewrite reverse_cons.
  fold out.
  rewrite joinElements_snoc.
  assert (bool_decide ((out ++ [name])%list = []) = false) as ->.
  { apply bool_decide_eq_false_2. by destruct out. }
  destruct rooted, (bool_decide (out = [])); by rewrite ?append_assoc.
Qed.

Lemma Join_inj dir a b :
  plainElement a = true → plainElement b = true →
  os.Join dir a = os.Join dir b → a = b.
Proof.
  intros Ha Hb. destruct (Join_plain dir) as [pre Hpre].
  rewrite !Hpre by done. apply append_inj_l.
Qed.

Section IndexFacts.
Variable parse : string → option Time.
Variable formatDate formatDateTime : Time → string.
Variable rel : string → string → string.

Local Abbreviation hEntry := (htmlEntry parse formatDate formatDateTime rel).
Local Abbreviation mEntry := (markdownEntry parse formatDate formatDateTime rel).
Local Abbreviation tEntry := (textEntry parse formatDate formatDateTime rel).
Local Abbreviation hPage := (htmlPage parse formatDate formatDateTime rel).
Local Abbreviation mPage := (markdownPage parse formatDate formatDateTime rel).
Local Abbreviation tPage := (textPage parse formatDate formatDateTime rel).
Local Abbreviation generateHTML := (GenerateHTML parse formatDate formatDateTime rel).
Local Abbreviation generateMarkdown :=
  (GenerateMarkdown parse formatDate formatDateTime rel).
Local Abbreviation generateText := (GenerateText parse formatDate formatDateTime rel).


(** X17.  None of the three index generators makes a directory: each only
    writes its file [index.html], [index.md] or [index.txt] in the output
    directory.  Where the directory of that file does not exist the call
    returns an error and leaves the disk as it was. *)
Theorem Generate_makes_no_directory (a : Archive) (outputDir : string) (fs : FS) :
  (dirs (fst (generateHTML a outputDir fs)) = dirs fs
   ∧ dirs (fst (generateMarkdown a outputDir fs)) = dirs fs
   ∧ dirs (fst (generateText a outputDir fs)) = dirs fs)
  ∧ (os.isDir fs (os.Dir (os.Join outputDir "index.html")) = false →
     fst (generateHTML a outputDir fs) = fs
     ∧ snd (generateHTML a outputDir fs) ≠ None)
  ∧ (os.isDir fs (os.Dir (os.Join outputDir "index.md")) = false →
     fst (generateMarkdown a outputDir fs) = fs
     ∧ snd (generateMarkdown a outputDir fs) ≠ None)
  ∧ (os.isDir fs (os.Dir (os.Join outputDir "index.txt")) = false →
     fst (generateText a outputDir fs) = fs
     ∧ snd (generateText a outputDir fs) ≠ None).
Proof.
  assert (∀ path content, dirs (fst (os.WriteFile path content fs)) = dirs fs) as Hdirs.
  { intros path content. unfold os.WriteFile. destruct (isEmpty path); [done|].
    destruct (os.isDir fs path); [done|]. by destruct (os.isDir fs (os.Dir path)). }
  assert (∀ path content,
            os.isDir fs (os.Dir path) = false →
            fst (os.WriteFile path content fs) = fs
            ∧ snd (os.WriteFile path content fs) ≠ None) as Hmissing.
  { intros path content Hdir. unfold os.WriteFile. rewrite Hdir.
    by destruct (isEmpty path), (os.isDir fs path). }
  unfold GenerateHTML, GenerateMarkdown, GenerateText. cbv zeta.
  split; [by rewrite !Hdirs|].
  split; [|split]; apply Hmissing.
Qed.

(** X18.  The three generators write three files side by side: after
    [GenerateHTML], [GenerateMarkdown] and [GenerateText] on the same
    output directory, each without an error, the three index files hold
    the three pages and every other file is as it was. *)
Theorem Generate_three_indexes (a : Archive) (outputDir : string) (fs fs1 fs2 fs3 : FS) :
  generateHTML a outputDir fs = (fs1, None) →
  generateMarkdown a outputDir fs1 = (fs2, None) →
  generateText a outputDir fs2 = (fs3, None) →
  files fs3 !! os.Join outputDir "index.html" = Some (hPage a outputDir)
  ∧ files fs3 !! os.Join outputDir "index.md" = Some (mPage a outputDir)
  ∧ files fs3 !! os.Join outputDir "index.txt" = Some (tPage a outputDir)
  ∧ (∀ other,
       other ≠ os.Join outputDir "index.html" →
       other ≠ os.Join outputDir "index.md" →
       other ≠ os.Join outputDir "index.txt" →
       files fs3 !! other = files fs !! other)
  ∧ dirs fs3 = dirs fs.
Proof.
  unfold GenerateHTML, GenerateMarkdown, GenerateText. cbv zeta.
  intros (H1 & D1 & _)%WriteFile_success (H2 & D2 & _)%WriteFile_success
         (H3 & D3 & _)%WriteFile_success.
  rewrite H3, H2, H1, D3, D2, D1.
  assert (os.Join outputDir "index.txt" ≠ os.Join outputDir "index.md") as Htm
    by (by intros ?%Join_inj).
  assert (os.Join outputDir "index.txt" ≠ os.Join outputDir "index.html") as Hth
    by (by intros ?%Join_inj).
  assert (os.Join outputDir "index.md" ≠ os.Join outputDir "index.html") as Hmh
    by (by intros ?%Join_inj).
  split; [|split; [|split; [|split]]].
  - by rewrite lookup_insert_ne, lookup_insert_ne, lookup_insert_eq.
  - by rewrite lookup_insert_ne, lookup_insert_eq.
  - by rewrite lookup_insert_eq.
  - intros other ???. by rewrite !lookup_insert_ne.
  - done.
Qed.
End IndexFacts.

Lemma Generate_makes_no_directory_witness :
  fst (GenerateHTML RFC3339.Parse plainDate plainDate plainRel oneEntryArchive
         "out" (mkFS ∅ ∅)) = mkFS ∅ ∅
  ∧ snd (GenerateHTML RFC3339.Parse plainDate plainDate plainRel oneEntryArchive
           "out" (mkFS ∅ ∅)) ≠ None.
Proof.
  apply (proj1 (proj2 (Generate_makes_no_directory RFC3339.Parse plainDate plainDate
                         plainRel oneEntryArchive "out" (mkFS ∅ ∅)))).
  vm_compute. reflexivity.
Defined.

Lemma Generate_three_indexes_witness :
  ∃ fs3,
    files fs3 !! os.Join "." "index.html"
      = Some (htmlPage RFC3339.Parse plainDate plainDate plainRel oneEntryArchive ".")
    ∧ files fs3 !! os.Join "." "index.md"
      = Some (markdownPage RFC3339.Parse plainDate plainDate plainRel oneEntryArchive ".")
    ∧ files fs3 !! os.Join "." "index.txt"
      = Some (textPage RFC3339.Parse plainDate plainDate plainRel oneEntryArchive ".")
    ∧ (∀ other,
         other ≠ os.Join "." "index.html" →
         other ≠ os.Join "." "index.md" →
         other ≠ os.Join "." "index.txt" →
         files fs3 !! other = files (mkFS ∅ ∅) !! other)
    ∧ dirs fs3 = dirs (mkFS ∅ ∅).
Proof.
  eexists.
  eapply (Generate_three_indexes RFC3339.Parse plainDate plainDate plainRel
            oneEntryArchive "." (mkFS ∅ ∅)); reflexivity.
Defined.

(** In the working directory, the default of the command line, the three
    pages are the files [index.html], [index.md] and [index.txt]. *)
Example indexes_in_the_working_directory :
  os.Join "." "index.html" = "index.html"
  ∧ os.Join "." "index.md" = "index.md"
  ∧ os.Join "." "index.txt" = "index.txt"
  ∧ snd (GenerateHTML RFC3339.Parse plainDate plainDate plainRel oneEntryArchive
           "." (mkFS ∅ ∅)) = None
  ∧ files (fst (GenerateHTML RFC3339.Parse plainDate plainDate plainRel
                  oneEntryArchive "." (mkFS ∅ ∅))) !! "index.html"
    = Some (htmlPage RFC3339.Parse plainDate plainDate plainRel oneEntryArchive ".").
Proof. repeat split; vm_compute; reflexivity. Qed.

(** An output directory written with a slash at its end is the same
    directory. *)
Example indexes_behind_a_slash :
  snd (GenerateText RFC3339.Parse plainDate plainDate plainRel oneEntryArchive
         "out/" fsWithOut) = None
  ∧ files (fst (GenerateText RFC3339.Parse plainDate plainDate plainRel
                  oneEntryArchive "out/" fsWithOut)) !! "out/index.txt"
    = Some (textPage RFC3339.Parse plainDate plainDate plainRel oneEntryArchive "out/").
Proof. split; vm_compute; reflexivity. Qed.

(** ** Reading back what [json.Marshal] writes *)

Lemma reads_nil : reads EmptyString EmptyString.
Proof.
  split.
  - intros raw stk rest. simpl. by rewrite append_nil_r.
  - intros y. simpl. by destruct (json.unquote 0 y).
Qed.

Lemma reads_app x x' y y' : reads x x' → reads y y' → reads (x ++ y) (x' ++ y').
Proof.
  intros [Hx1 Hx2] [Hy1 Hy2]. split.
  - intros raw stk rest. by rewrite !append_assoc, Hx1, Hy1, append_assoc.
  - intros z. rewrite !append_assoc, Hx2, Hy2.
    destruct (json.unquote 0 z); simpl; [|done]. by rewrite append_assoc.
Qed.

(** A string without quotes is read as it is carried. *)
Lemma reads_plainString s : plainString s = true → reads s s.
Proof.
  intros Hs. pose proof (carries_plainString s Hs) as Hc.
  unfold carries in Hc. by rewrite (escapeQuotes_plain s Hs) in Hc.
Qed.

Lemma chr_byte c : json.chr (json.byte c) = c.
Proof.
  unfold json.chr, json.byte. by rewrite N2Z.id, ascii_N_embedding.
Qed.

(** Each ASCII byte reads back from what the encoder writes for it. *)
Lemma reads_encodedByte c :
  json.byte c < 0x80 → reads (encodedByte c) (String c EmptyString).
Proof.
  intros Hc.
  destruct c as [b0 b1 b2 b3 b4 b5 b6 b7].
  destruct b7.
  { destruct b0, b1, b2, b3, b4, b5, b6; vm_compute in Hc; discriminate Hc. }
  clear Hc.
  destruct b0, b1, b2, b3, b4, b5, b6;
    match goal with
    | |- reads (encodedByte ?c) _ =>
        let e := eval vm_compute in (encodedByte c) in
        change (encodedByte c) with e
    end;
    (split;
     [intros raw stk rest; simpl; by rewrite ?append_assoc
     |intros y; simpl; by destruct (json.unquote 0 y)]).
Qed.

(** The bytes from [0x80] on are neither quotes nor backslashes nor
    control characters. *)
Lemma highByte_facts c :
  (json.byte c <? 0x80) = false →
  Ascii.eqb c dquote = false ∧ Ascii.eqb c bslash = false
  ∧ (json.byte c <? 0x20) = false.
Proof.
  intros Hc. split; [|split].
  - destruct (Ascii.eqb_spec c dquote) as [->|]; [|done].
    vm_compute in Hc. discriminate Hc.
  - destruct (Ascii.eqb_spec c bslash) as [->|]; [|done].
    vm_compute in Hc. discriminate Hc.
  - apply Z.ltb_ge in Hc. apply Z.ltb_ge. lia.
Qed.

(** The encoder, one byte at a time. *)
Lemma encodeBytes_Copy n c s :
  json.encodeBytes (json.Copy (S n)) (String c s)
  = String c (json.encodeBytes (json.Copy n) s).
Proof. reflexivity. Qed.

Lemma encodeBytes_Skip n c s :
  json.encodeBytes (json.Skip (S n)) (String c s) = json.encodeBytes (json.Skip n) s.
Proof. reflexivity. Qed.

Lemma encodeBytes_Copy_0 s :
  json.encodeBytes (json.Copy 0) s = json.encodeBytes json.Fresh s.
Proof. by destruct s. Qed.

Lemma encodeBytes_Skip_0 s :
  json.encodeBytes (json.Skip 0) s = json.encodeBytes json.Fresh s.
Proof. by destruct s. Qed.

Lemma encodeBytes_ascii c s :
  (json.byte c <? 0x80) = true →
  json.encodeBytes json.Fresh (String c s) = encodedByte c ++ json.encodeBytes json.Fresh s.
Proof.
  intros Hc. cbn [json.encodeBytes]. rewrite Hc. unfold encodedByte.
  by destruct (json.htmlSafe c).
Qed.

(** The continuation bytes that [utf8Len] has checked are copied, and so
    the decoder finds the same sequence. *)
Lemma utf8Len_encoded c s n y :
  json.utf8Len c s = S n →
  json.utf8Len c (json.encodeBytes (json.Copy n) s ++ y) = S n.
Proof.
  unfold json.utf8Len.
  destruct ((0xC2 <=? json.byte c) && (json.byte c <=? 0xDF)).
  { destruct s as [|c1 s]; [done|].
    destruct (json.isCont 128 191 c1) eqn:H1; [|done].
    intros [= <-]. rewrite encodeBytes_Copy. cbn [append]. by rewrite H1. }
  destruct ((0xE0 <=? json.byte c) && (json.byte c <=? 0xEF)).
  { destruct s as [|c1 [|c2 s]]; [done..|].
    destruct (json.isCont _ _ c1 && json.isCont 128 191 c2) eqn:H12; [|done].
    intros [= <-]. rewrite !encodeBytes_Copy. cbn [append]. by rewrite H12. }
  destruct ((0xF0 <=? json.byte c) && (json.byte c <=? 0xF4)); [|done].
  destruct s as [|c1 [|c2 [|c3 s]]]; [done..|].
  destruct (json.isCont _ _ c1 && json.isCont 128 191 c2 && json.isCont 128 191 c3)
    eqn:H123; [|done].
  intros [= <-]. rewrite !encodeBytes_Copy. cbn [append]. by rewrite H123.
Qed.

(** What [json.Marshal] writes for well-formed UTF-8 reads back as it was,
    from the start of a character and from within one. *)
Lemma encodeBytes_reads_back n :
  ∀ s k,
    (String.length s ≤ n)%nat →
    validUTF8 k s = true →
    (∀ raw stk rest,
       json.scan (json.MString raw, stk) (json.encodeBytes (json.Copy k) s ++ rest)
       = json.scan (json.MString (raw ++ json.encodeBytes (json.Copy k) s), stk) rest)
    ∧ (∀ y, json.unquote k (json.encodeBytes (json.Copy k) s ++ y)
            = append s <$> json.unquote 0 y).
Proof.
  induction n as [|n IH]; intros s k Hlen Hvalid.
  { destruct s; [|simpl in Hlen; lia]. destruct k; [|done].
    split; [intros; simpl; by rewrite append_nil_r|].
    intros y. simpl. by destruct (json.unquote 0 y). }
  destruct s as [|c s].
  { destruct k; [|done].
    split; [intros; simpl; by rewrite append_nil_r|].
    intros y. simpl. by destruct (json.unquote 0 y). }
  cbn [String.length] in Hlen.
  destruct k as [|k].
  - (* at the start of a character *)
    rewrite encodeBytes_Copy_0. cbn [validUTF8] in Hvalid.
    destruct (json.byte c <? 128) eqn:Hc.
    + rewrite (encodeBytes_ascii c s Hc).
      destruct (IH s 0%nat ltac:(lia) Hvalid) as [Hscan Hunquote].
      rewrite encodeBytes_Copy_0 in Hscan, Hunquote.
      apply (reads_app (encodedByte c) (String c EmptyString) _ s).
      * apply reads_encodedByte. by apply Z.ltb_lt.
      * by split.
    + destruct (json.utf8Len c s) as [|m] eqn:Hlen8; [done|].
      destruct (highByte_facts c Hc) as (Hq & Hb & Hlo).
      destruct (IH s m ltac:(lia) Hvalid) as [Hscan Hunquote].
      assert (reads (String c (json.encodeBytes (json.Copy m) s)) (String c s)) as Hcopy.
      { split.
        - intros raw stk rest. cbn [append json.scan json.step].
          rewrite Hq, Hb, Hlo, Hscan. by rewrite append_assoc.
        - intros y. cbn [append json.unquote].
          rewrite Hb, Hq, Hlo, Hc. cbn [orb].
          rewrite (utf8Len_encoded c s m y Hlen8), Hunquote.
          by destruct (json.unquote 0 y). }
      cbn [json.encodeBytes]. rewrite Hc, Hlen8.
      destruct s as [|c1 [|c2 s]]; [done..|].
      destruct ((json.byte c =? 226) && (json.byte c1 =? 128) && (json.byte c2 =? 168))
        eqn:H2028.
      { (* U+2028 is written as an escape *)
        apply andb_true_iff in H2028 as [[H0 H1]%andb_true_iff H2].
        apply Z.eqb_eq in H0, H1, H2.
        assert (c = json.chr 226) as -> by (by rewrite <-(chr_byte c), H0).
        assert (c1 = json.chr 128) as -> by (by rewrite <-(chr_byte c1), H1).
        assert (c2 = json.chr 168) as -> by (by rewrite <-(chr_byte c2), H2).
        clear H0 H1 H2.
        assert (m = 2%nat) as -> by (vm_compute in Hlen8; congruence).
        rewrite !encodeBytes_Skip, encodeBytes_Skip_0, <-encodeBytes_Copy_0.
        cbn [validUTF8] in Hvalid. apply andb_true_iff in Hvalid as [_ Hvalid].
        apply andb_true_iff in Hvalid as [_ Hvalid].
        destruct (IH s 0%nat ltac:(simpl in Hlen; lia) Hvalid) as [Hscan' Hunquote'].
        split.
        - intros raw stk rest. simpl. rewrite Hscan'. by rewrite !append_assoc.
        - intros y. simpl. rewrite Hunquote'. by destruct (json.unquote 0 y). }
      destruct ((json.byte c =? 226) && (json.byte c1 =? 128) && (json.byte c2 =? 169))
        eqn:H2029; [|done].
      { apply andb_true_iff in H2029 as [[H0 H1]%andb_true_iff H2].
        apply Z.eqb_eq in H0, H1, H2.
        assert (c = json.chr 226) as -> by (by rewrite <-(chr_byte c), H0).
        assert (c1 = json.chr 128) as -> by (by rewrite <-(chr_byte c1), H1).
        assert (c2 = json.chr 169) as -> by (by rewrite <-(chr_byte c2), H2).
        clear H0 H1 H2.
        assert (m = 2%nat) as -> by (vm_compute in Hlen8; congruence).
        rewrite !encodeBytes_Skip, encodeBytes_Skip_0, <-encodeBytes_Copy_0.
        cbn [validUTF8] in Hvalid. apply andb_true_iff in Hvalid as [_ Hvalid].
        apply andb_true_iff in Hvalid as [_ Hvalid].
        destruct (IH s 0%nat ltac:(simpl in Hlen; lia) Hvalid) as [Hscan' Hunquote'].
        split.
        - intros raw stk rest. simpl. rewrite Hscan'. by rewrite !append_assoc.
        - intros y. simpl. rewrite Hunquote'. by destruct (json.unquote 0 y). }
  - (* within a character *)
    rewrite encodeBytes_Copy. cbn [validUTF8] in Hvalid.
    apply andb_true_iff in Hvalid as [Hc Hvalid].
    assert ((json.byte c <? 128) = false) as Hhigh
      by (apply Z.ltb_ge; apply Z.leb_le in Hc; lia).
    destruct (highByte_facts c Hhigh) as (Hq & Hb & Hlo).
    destruct (IH s k ltac:(lia) Hvalid) as [Hscan Hunquote].
    split.
    + intros raw stk rest. cbn [append json.scan json.step].
      rewrite Hq, Hb, Hlo, Hscan. by rewrite append_assoc.
    + intros y. cbn [append json.unquote]. rewrite Hunquote.
      by destruct (json.unquote 0 y).
Qed.

Lemma reads_encodeBytes s :
  validUTF8 0 s = true → reads (json.encodeBytes json.Fresh s) s.
Proof.
  intros Hvalid.
  destruct (encodeBytes_reads_back (String.length s) s 0%nat (le_n _) Hvalid)
    as [Hscan Hunquote].
  rewrite encodeBytes_Copy_0 in Hscan, Hunquote. by split.
Qed.

(** ** Parsing what [json.Marshal] writes for a post *)

(** A string literal whose bytes read as [x'] is the string [x']. *)
Lemma scan_literal x x' stk rest :
  reads x x' →
  json.scan (json.MString EmptyString, stk) (x ++ String dquote rest)
  = json.finish (json.JString x') stk ≫= fun st => json.scan st rest.
Proof.
  intros [Hscan Hunq].
  rewrite Hscan. cbn [json.scan json.step append].
  change (Ascii.eqb dquote dquote) with true. cbn iota.
  specialize (Hunq EmptyString). rewrite append_nil_r in Hunq.
  rewrite Hunq. simpl. by rewrite append_nil_r.
Qed.

(** One member, up to the comma or brace after it. *)
Lemma scan_member_read enc m k x ms stk c rest :
  m = json.MKey ∨ m = json.MKeyOrEnd →
  plainString k = true →
  readable enc x →
  closesValue c = true →
  json.scan (m, json.FObject ms None :: stk)
            (json.member k (scalarText enc x) ++ String c rest)
  = json.scan (json.MEndValue, json.FObject ((k, scalarValue x) :: ms) None :: stk)
              (String c rest).
Proof.
  intros Hm Hk Hx Hc. unfold json.member.
  assert (json.scan (m, json.FObject ms None :: stk)
            (String dquote (k ++ String dquote (":" ++ scalarText enc x))
             ++ String c rest)
          = json.scan (json.MValue, json.FObject ms (Some k) :: stk)
              (scalarText enc x ++ String c rest)) as ->.
  { change (String dquote (k ++ String dquote (":" ++ scalarText enc x))
            ++ String c rest)
      with (String dquote ((k ++ String dquote (":" ++ scalarText enc x))
                           ++ String c rest)).
    rewrite append_assoc.
    change (String dquote (":" ++ scalarText enc x) ++ String c rest)
      with (String dquote (String ":" (scalarText enc x ++ String c rest))).
    assert (json.step (m, json.FObject ms None :: stk) dquote
            = Some (json.MString EmptyString, json.FObject ms None :: stk)) as Hopen
      by (by destruct Hm as [-> | ->]).
    cbn [json.scan]. rewrite Hopen.
    by rewrite (scan_literal k k) by (by apply reads_plainString). }
  destruct x as [z|s]; cbn [scalarText scalarValue readable] in *.
  - by rewrite scan_Itoa, scan_number_end.
  - cbn [append json.scan].
    change (json.step (json.MValue, json.FObject ms (Some k) :: stk) dquote)
      with (Some (json.MString EmptyString, json.FObject ms (Some k) :: stk)).
    unfold dq. rewrite append_assoc.
    change (String dquote EmptyString ++ String c rest) with (String dquote (String c rest)).
    by rewrite (scan_literal (enc s) s).
Qed.

(** The members of an object, up to and with the closing brace. *)
Lemma scan_members_read enc ms m read stk rest :
  ms ≠ [] →
  m = json.MKey ∨ m = json.MKeyOrEnd →
  Forall (fun f => plainString (fst f) = true ∧ readable enc (snd f)) ms →
  json.scan (m, json.FObject read None :: stk)
            (membersText enc ms ++ String "}" rest)
  = json.finish
      (json.JObject (rev read ++ map (fun f => (fst f, scalarValue (snd f))) ms)) stk
    ≫= fun st => json.scan st rest.
Proof.
  revert m read. induction ms as [|[k x] ms IH]; intros m read Hne Hm Hall; [done|].
  apply Forall_cons in Hall as [[Hk Hx] Hms]. cbn [fst snd] in Hk, Hx.
  destruct ms as [|f ms].
  - cbn [membersText].
    rewrite (scan_member_read enc m k x read stk "}" rest Hm Hk Hx closesValue_brace).
    cbn [json.scan json.step json.endValue]. simpl json.isJSONSpace. cbn iota.
    change (Ascii.eqb "}" ",") with false. change (Ascii.eqb "}" "}") with true.
    cbn iota. cbn [map fst snd rev]. reflexivity.
  - change (membersText enc ((k, x) :: f :: ms))
      with (json.member k (scalarText enc x) ++ "," ++ membersText enc (f :: ms)).
    rewrite append_assoc.
    change (("," ++ membersText enc (f :: ms)) ++ String "}" rest)
      with (String "," (membersText enc (f :: ms) ++ String "}" rest)).
    rewrite (scan_member_read enc m k x read stk "," _ Hm Hk Hx closesValue_comma).
    cbn [json.scan].
    change (json.step (json.MEndValue,
                       json.FObject ((k, scalarValue x) :: read) None :: stk) ",")
      with (Some (json.MKey, json.FObject ((k, scalarValue x) :: read) None :: stk)).
    cbn iota.
    rewrite (IH json.MKey ((k, scalarValue x) :: read)); [|done|by left|done].
    cbn [rev map fst snd]. by rewrite <-app_assoc.
Qed.

Lemma validPost_fields p :
  validPost p = true →
  Forall (fun f => plainString (fst f) = true
                   ∧ readable (json.encodeBytes json.Fresh) (snd f))
         (postFields p).
Proof.
  unfold validPost, postFields. rewrite !andb_true_iff.
  intros [[[[[[[[[[[[[? ?] ?] ?] ?] ?] ?] ?] ?] ?] ?] ?] ?] ?].
  rewrite !Forall_app. split; [|split].
  - repeat (apply Forall_cons; split; [split; [done|];
            cbn [snd readable]; by try apply reads_encodeBytes|]).
    constructor.
  - destruct (isEmpty (Subtitle p)); [constructor|].
    apply Forall_cons. split; [|constructor].
    split; [done|]. by apply reads_encodeBytes.
  - repeat (apply Forall_cons; split; [split; [done|];
            cbn [snd readable]; by try apply reads_encodeBytes|]).
    constructor.
Qed.

Lemma validPost_ints p :
  validPost p = true →
  inInt (Id p) = true ∧ inInt (PublicationId p) = true ∧ inInt (WordCount p) = true.
Proof.
  unfold validPost. rewrite !andb_true_iff. tauto.
Qed.

(** The text of a post parses to the object of its fields. *)
Lemma parse_Marshal_Post p stk rest :
  validPost p = true →
  json.scan (json.MValue, stk) (json.Marshal_Post p ++ rest)
  = json.push (json.FObject [] None) json.MKeyOrEnd stk
    ≫= fun st =>
         json.finish
           (json.JObject (map (fun f => (fst f, scalarValue (snd f))) (postFields p)))
           stk
         ≫= fun st => json.scan st rest.
Proof.
  intros Hp%validPost_fields. rewrite Marshal_Post_members.
  change (("{" ++ membersText (json.encodeBytes json.Fresh) (postFields p) ++ "}") ++ rest)
    with (String "{" ((membersText (json.encodeBytes json.Fresh) (postFields p) ++ "}")
                      ++ rest)).
  cbn [json.scan].
  change (json.step (json.MValue, stk) "{")
    with (json.push (json.FObject [] None) json.MKeyOrEnd stk).
  unfold json.push. destruct (_ <=? _); [|done]. cbn [mbind option_bind].
  rewrite append_assoc.
  change ("}" ++ rest) with (String "}" rest).
  rewrite scan_members_read; [done|by destruct p|by right|done].
Qed.

(** X19.  [ToJSON] writes a JSON text that reads back as the post: for
    every post whose strings are well-formed UTF-8 (and whose numbers fit a
    64-bit [int]), the text parses and decodes, field by field, to the
    post it was written from, whatever quotes, backslashes, control
    characters, markup or letters outside ASCII its strings hold; and
    [ToJSON] returns no error. *)
Theorem ToJSON_reads_back (p : Post) :
  validPost p = true →
  snd (ToJSON p) = None
  ∧ ∃ v, json.parse (fst (ToJSON p)) = Some v
         ∧ json.decodePost v Post_zero = Some p.
Proof.
  intros Hp. split; [done|].
  exists (json.JObject (map (fun f => (fst f, scalarValue (snd f))) (postFields p))).
  split.
  - unfold ToJSON, json.parse. cbn [fst].
    rewrite <-(append_nil_r (json.Marshal_Post p)).
    by rewrite (parse_Marshal_Post p [json.FTop None] EmptyString Hp).
  - destruct (validPost_ints p Hp) as (Hid & Hpub & Hwords).
    by apply decodePost_fields.
Qed.

(** X20.  [ToPost] undoes [json.Marshal] of the wrapper: for every post
    whose strings are well-formed UTF-8, the JSON text of
    [PostWrapper{Post: post}] converts back to the same post, with no
    error. *)
Theorem ToPost_of_marshalled_wrapper (p : Post) :
  validPost p = true →
  ToPost (mkRawPost (json.Marshal_PostWrapper p)) = (p, None).
Proof.
  intros Hp. unfold ToPost, json.Unmarshal_PostWrapper. cbn [str].
  assert (json.parse (json.Marshal_PostWrapper p)
          = Some (json.JObject
                    [("post",
                      json.JObject (map (fun f => (fst f, scalarValue (snd f)))
                                        (postFields p)))])) as ->.
  { unfold json.parse, json.Marshal_PostWrapper, json.member.
    change ("{" ++ String dquote ("post" ++ String dquote
              (":" ++ json.Marshal_Post p)) ++ "}")
      with ("{" ++ (dq ++ "post" ++ dq ++ ":") ++ json.Marshal_Post p ++ "}").
    rewrite scan_app.
    change (json.scan (json.MValue, [json.FTop None]) "{")
      with (Some (json.MKeyOrEnd, [json.FObject [] None; json.FTop None])).
    cbn [mbind option_bind]. rewrite scan_app.
    change (json.scan (json.MKeyOrEnd, [json.FObject [] None; json.FTop None])
              (dq ++ "post" ++ dq ++ ":"))
      with (Some (json.MValue, [json.FObject [] (Some "post"); json.FTop None])).
    cbn [mbind option_bind].
    by rewrite (parse_Marshal_Post p _ "}" Hp). }
  destruct (validPost_ints p Hp) as (Hid & Hpub & Hwords).
  cbn [fold_left fst snd mbind option_bind].
  change (json.keyIs "post" "post") with true. cbn iota.
  by rewrite decodePost_fields.
Qed.

(** X21.  A JSON object without a [post] member converts to the zero
    [Post] and no error: [ToPost] does not ask for the member to be
    there. *)
Theorem ToPost_without_post_member (data : string)
    (ms : list (string * json.value)) :
  json.parse data = Some (json.JObject ms) →
  (∀ k v, (k, v) ∈ ms → json.keyIs k "post" = false) →
  ToPost (mkRawPost data) = (Post_zero, None).
Proof.
  intros Hparse Hkeys. unfold ToPost, json.Unmarshal_PostWrapper. cbn [str].
  rewrite Hparse. clear Hparse.
  assert (fold_left
            (fun acc m =>
               p ← acc;
               if json.keyIs (fst m) "post" then json.decodePost (snd m) p else Some p)
            ms (Some Post_zero) = Some Post_zero) as ->; [|done].
  induction ms as [|[k v] ms IH]; [done|]. cbn [fold_left fst snd mbind option_bind].
  rewrite (Hkeys k v) by (by left).
  apply IH. intros k' v' Hin. apply (Hkeys k' v'). by right.
Qed.

Lemma ToJSON_reads_back_witness :
  snd (ToJSON postWithEscapes) = None
  ∧ ∃ v, json.parse (fst (ToJSON postWithEscapes)) = Some v
         ∧ json.decodePost v Post_zero = Some postWithEscapes.
Proof.
  apply (ToJSON_reads_back postWithEscapes). vm_compute. reflexivity.
Defined.

Lemma ToPost_of_marshalled_wrapper_witness :
  ToPost (mkRawPost (json.Marshal_PostWrapper postWithEscapes)) = (postWithEscapes, None).
Proof.
  apply (ToPost_of_marshalled_wrapper postWithEscapes). vm_compute. reflexivity.
Defined.

Lemma ToPost_without_post_member_witness :
  ToPost (mkRawPost ("{" ++ quoted "posts" ++ ":[1,2]}")) = (Post_zero, None).
Proof.
  apply (ToPost_without_post_member _
           [("posts", json.JArray [json.JNumber "1"; json.JNumber "2"])]).
  - vm_compute. reflexivity.
  - intros k v Hin%list_elem_of_singleton. injection Hin as -> ->.
    vm_compute. reflexivity.
Defined.

(** What [json.Marshal] writes for the post with escapes. *)
Example ToJSON_of_postWithEscapes :
  Contains (fst (ToJSON postWithEscapes))
    ("\u003cp class=" ++ String bslash dq ++ "lead" ++ String bslash dq
     ++ "\u003ea" ++ String bslash (String bslash "b \u0026amp; caf")) = true.
Proof. vm_compute. reflexivity. Qed.

(** ** Every added post is listed *)

Lemma joinText_app l1 l2 :
  goquery.joinText (l1 ++ l2)%list = goquery.joinText l1 ++ goquery.joinText l2.
Proof.
  unfold goquery.joinText. induction l1 as [|x l1 IH]; simpl; [done|].
  by rewrite IH, append_assoc.
Qed.

Section ListedFacts.
Variable parse : string → option Time.
Variable formatDate formatDateTime : Time → string.
Variable rel : string → string → string.

Local Abbreviation hEntry := (htmlEntry parse formatDate formatDateTime rel).
Local Abbreviation mEntry := (markdownEntry parse formatDate formatDateTime rel).
Local Abbreviation tEntry := (textEntry parse formatDate formatDateTime rel).
Local Abbreviation hPage := (htmlPage parse formatDate formatDateTime rel).
Local Abbreviation mPage := (markdownPage parse formatDate formatDateTime rel).
Local Abbreviation tPage := (textPage parse formatDate formatDateTime rel).

(** The block of an entry of the archive is a part of the page. *)
Lemma block_in_page (f : string → ArchiveEntry → string) (es : list ArchiveEntry)
    (e : ArchiveEntry) (start : string) :
  (∀ acc e, f acc e = acc ++ f EmptyString e) →
  e ∈ es →
  ∃ before after, fold_left f es start = before ++ f EmptyString e ++ after.
Proof.
  intros Hf (l1 & l2 & ->)%list_elem_of_split.
  rewrite (fold_left_appending f _ start Hf).
  rewrite map_app, joinText_app. cbn [map].
  change (goquery.joinText (f EmptyString e :: map (f EmptyString) l2))
    with (f EmptyString e ++ goquery.joinText (map (f EmptyString) l2)).
  exists (start ++ goquery.joinText (map (f EmptyString) l1)),
         (goquery.joinText (map (f EmptyString) l2)).
  by rewrite !append_assoc.
Qed.

(** X22.  Every post that was added to an archive is listed in each of the
    three index pages: whatever entries were added with [AddEntry], and in
    whatever order, the HTML, the Markdown and the text page of the
    archive each hold the block of each of them. *)
Theorem every_added_post_is_listed (es : list ArchiveEntry) (e : ArchiveEntry)
    (dir : string) :
  e ∈ es →
  (∃ before after,
     hPage (addAll parse NewArchive es) dir = before ++ hEntry dir EmptyString e ++ after)
  ∧ (∃ before after,
       mPage (addAll parse NewArchive es) dir
       = before ++ mEntry dir EmptyString e ++ after)
  ∧ (∃ before after,
       tPage (addAll parse NewArchive es) dir
       = before ++ tEntry dir EmptyString e ++ after).
Proof.
  intros Hin%(addAll_elem_of parse).
  unfold htmlPage, markdownPage, textPage.
  split; [|split].
  - destruct (block_in_page (hEntry dir) _ e htmlHead
                (htmlEntry_append parse formatDate formatDateTime rel dir) Hin)
      as (before & after & ->).
    exists before, (after ++ "</body>" ++ nl ++ "</html>").
    by rewrite !append_assoc.
  - apply block_in_page; [|done].
    apply (markdownEntry_append parse formatDate formatDateTime rel).
  - apply block_in_page; [|done].
    apply (textEntry_append parse formatDate formatDateTime rel).
Qed.
End ListedFacts.

Lemma every_added_post_is_listed_witness :
  (∃ before after,
     htmlPage RFC3339.Parse plainDate plainDate plainRel
       (addAll RFC3339.Parse NewArchive [entryJan03; entryJan01; entryJan02]) "out"
     = before ++ htmlEntry RFC3339.Parse plainDate plainDate plainRel "out"
                   EmptyString entryJan01 ++ after)
  ∧ (∃ before after,
       markdownPage RFC3339.Parse plainDate plainDate plainRel
         (addAll RFC3339.Parse NewArchive [entryJan03; entryJan01; entryJan02]) "out"
       = before ++ markdownEntry RFC3339.Parse plainDate plainDate plainRel "out"
                     EmptyString entryJan01 ++ after)
  ∧ (∃ before after,
       textPage RFC3339.Parse plainDate plainDate plainRel
         (addAll RFC3339.Parse NewArchive [entryJan03; entryJan01; entryJan02]) "out"
       = before ++ textEntry RFC3339.Parse plainDate plainDate plainRel "out"
                     EmptyString entryJan01 ++ after).
Proof.
  apply (every_added_post_is_listed RFC3339.Parse plainDate plainDate plainRel
           [entryJan03; entryJan01; entryJan02] entryJan01 "out").
  right. left.
Defined.

(** ** The round trip of a post through a page *)

(** What [json.Marshal] writes is well-formed UTF-8. *)
Lemma utf8Len_append c s n y :
  json.utf8Len c s = S n → json.utf8Len c (s ++ y) = S n.
Proof.
  unfold json.utf8Len.
  destruct ((0xC2 <=? json.byte c) && (json.byte c <=? 0xDF)).
  { destruct s as [|c1 s]; [done|]. by cbn [append]. }
  destruct ((0xE0 <=? json.byte c) && (json.byte c <=? 0xEF)).
  { destruct s as [|c1 [|c2 s]]; [done..|]. by cbn [append]. }
  destruct ((0xF0 <=? json.byte c) && (json.byte c <=? 0xF4)); [|done].
  destruct s as [|c1 [|c2 [|c3 s]]]; [done..|]. by cbn [append].
Qed.

Lemma validUTF8_append x y k :
  validUTF8 k x = true → validUTF8 0 y = true → validUTF8 k (x ++ y) = true.
Proof.
  revert k. induction x as [|c x IH]; intros k Hx Hy.
  { by destruct k. }
  cbn [append validUTF8] in *. destruct k as [|k].
  - destruct (json.byte c <? 128); [by apply IH|].
    destruct (json.utf8Len c x) as [|n] eqn:Hlen; [done|].
    rewrite (utf8Len_append c x n y Hlen). by apply IH.
  - apply andb_true_iff in Hx as [Hc Hx]. rewrite Hc. by apply IH.
Qed.

Lemma validUTF8_plainString s : plainString s = true → validUTF8 0 s = true.
Proof.
  induction s as [|c s IH]; [done|]. cbn [plainString validUTF8].
  intros [Hc Hs]%andb_true_iff. destruct (plainByte_facts c Hc) as (_ & _ & _ & Hlt).
  rewrite Hlt. by apply IH.
Qed.

Lemma validUTF8_encodedByte c :
  (json.byte c <? 0x80) = true → validUTF8 0 (encodedByte c) = true.
Proof.
  destruct c as [[] [] [] [] [] [] [] []]; intros Hc;
    first [discriminate Hc|vm_compute; reflexivity].
Qed.

Lemma validUTF8_encodeBytes n :
  ∀ s k,
    (String.length s ≤ n)%nat →
    validUTF8 k s = true →
    validUTF8 k (json.encodeBytes (json.Copy k) s) = true.
Proof.
  induction n as [|n IH]; intros s k Hlen Hvalid.
  { destruct s; [|simpl in Hlen; lia]. by destruct k. }
  destruct s as [|c s]; [by destruct k|].
  cbn [String.length] in Hlen.
  destruct k as [|k].
  - rewrite encodeBytes_Copy_0. cbn [validUTF8] in Hvalid.
    destruct (json.byte c <? 128) eqn:Hc.
    + rewrite (encodeBytes_ascii c s Hc).
      apply validUTF8_append; [by apply validUTF8_encodedByte|].
      rewrite <-encodeBytes_Copy_0. apply IH; [lia|done].
    + destruct (json.utf8Len c s) as [|m] eqn:Hlen8; [done|].
      assert (validUTF8 0 (String c (json.encodeBytes (json.Copy m) s)) = true)
        as Hcopy.
      { cbn [validUTF8]. rewrite Hc.
        pose proof (utf8Len_encoded c s m EmptyString Hlen8) as Hlen8'.
        rewrite append_nil_r in Hlen8'. rewrite Hlen8'. apply IH; [lia|done]. }
      cbn [json.encodeBytes]. rewrite Hc, Hlen8.
      destruct s as [|c1 [|c2 s]]; [done..|].
      destruct ((json.byte c =? 226) && (json.byte c1 =? 128) && (json.byte c2 =? 168))
        eqn:H2028.
      { apply andb_true_iff in H2028 as [[H0 H1]%andb_true_iff H2].
        apply Z.eqb_eq in H0, H1, H2.
        assert (c = json.chr 226) as -> by (by rewrite <-(chr_byte c), H0).
        assert (c1 = json.chr 128) as -> by (by rewrite <-(chr_byte c1), H1).
        assert (c2 = json.chr 168) as -> by (by rewrite <-(chr_byte c2), H2).
        clear H0 H1 H2.
        assert (m = 2%nat) as -> by (vm_compute in Hlen8; congruence).
        rewrite !encodeBytes_Skip, encodeBytes_Skip_0, <-encodeBytes_Copy_0.
        cbn [validUTF8] in Hvalid. apply andb_true_iff in Hvalid as [_ Hvalid].
        apply andb_true_iff in Hvalid as [_ Hvalid].
        apply (validUTF8_append "\u2028"); [reflexivity|].
        apply IH; [simpl in Hlen; lia|done]. }
      destruct ((json.byte c =? 226) && (json.byte c1 =? 128) && (json.byte c2 =? 169))
        eqn:H2029; [|done].
      apply andb_true_iff in H2029 as [[H0 H1]%andb_true_iff H2].
      apply Z.eqb_eq in H0, H1, H2.
      assert (c = json.chr 226) as -> by (by rewrite <-(chr_byte c), H0).
      assert (c1 = json.chr 128) as -> by (by rewrite <-(chr_byte c1), H1).
      assert (c2 = json.chr 169) as -> by (by rewrite <-(chr_byte c2), H2).
      clear H0 H1 H2.
      assert (m = 2%nat) as -> by (vm_compute in Hlen8; congruence).
      rewrite !encodeBytes_Skip, encodeBytes_Skip_0, <-encodeBytes_Copy_0.
      cbn [validUTF8] in Hvalid. apply andb_true_iff in Hvalid as [_ Hvalid].
      apply andb_true_iff in Hvalid as [_ Hvalid].
      apply (validUTF8_append "\u2029"); [reflexivity|].
      apply IH; [simpl in Hlen; lia|done].
  - rewrite encodeBytes_Copy. cbn [validUTF8] in *.
    apply andb_true_iff in Hvalid as [Hc Hvalid]. rewrite Hc.
    apply IH; [lia|done].
Qed.

Lemma validUTF8_encodeString s :
  validUTF8 0 s = true → validUTF8 0 (json.encodeBytes json.Fresh s) = true.
Proof.
  intros Hvalid. rewrite <-encodeBytes_Copy_0.
  by apply (validUTF8_encodeBytes (String.length s)).
Qed.

Lemma validUTF8_member k v rest :
  plainString k = true → validUTF8 0 v = true → validUTF8 0 rest = true →
  validUTF8 0 (json.member k v ++ rest) = true.
Proof.
  intros Hk Hv Hrest. unfold json.member.
  change (String dquote (k ++ String dquote (":" ++ v)))
    with (dq ++ k ++ (dq ++ ":") ++ v).
  rewrite !append_assoc.
  apply (validUTF8_append dq); [reflexivity|].
  apply validUTF8_append; [by apply validUTF8_plainString|].
  apply (validUTF8_append (dq ++ ":")); [reflexivity|].
  by apply validUTF8_append.
Qed.

Lemma validUTF8_scalarText x :
  match x with SInt _ => True | SStr s => validUTF8 0 s = true end →
  validUTF8 0 (scalarText (json.encodeBytes json.Fresh) x) = true.
Proof.
  destruct x as [z|s]; simpl.
  - intros _. apply validUTF8_plainString, Itoa_plainString.
  - intros Hs.
    apply validUTF8_append; [by apply validUTF8_encodeString|reflexivity].
Qed.

Lemma validUTF8_membersText ms rest :
  Forall (fun f => plainString (fst f) = true
                   ∧ match snd f with
                     | SInt _ => True
                     | SStr s => validUTF8 0 s = true
                     end) ms →
  validUTF8 0 rest = true →
  validUTF8 0 (membersText (json.encodeBytes json.Fresh) ms ++ rest) = true.
Proof.
  intros Hms Hrest. induction Hms as [|[k x] ms [Hk Hx] Hms IH]; [done|].
  destruct ms as [|m ms].
  - cbn [membersText]. apply validUTF8_member; [done| |done].
    by apply validUTF8_scalarText.
  - change (membersText (json.encodeBytes json.Fresh) ((k, x) :: m :: ms))
      with (json.member k (scalarText (json.encodeBytes json.Fresh) x)
            ++ "," ++ membersText (json.encodeBytes json.Fresh) (m :: ms)).
    rewrite append_assoc. apply validUTF8_member; [done| |].
    + by apply validUTF8_scalarText.
    + rewrite append_assoc. apply (validUTF8_append ","); [reflexivity|]. apply IH.
Qed.

Lemma validPost_strings p :
  validPost p = true →
  Forall (fun f => plainString (fst f) = true
                   ∧ match snd f with
                     | SInt _ => True
                     | SStr s => validUTF8 0 s = true
                     end)
         (postFields p).
Proof.
  unfold validPost, postFields. rewrite !andb_true_iff.
  intros [[[[[[[[[[[[[? ?] ?] ?] ?] ?] ?] ?] ?] ?] ?] ?] ?] ?].
  rewrite !Forall_app. split; [|split].
  - repeat (apply Forall_cons; split; [by split|]). constructor.
  - destruct (isEmpty (Subtitle p)); [constructor|].
    apply Forall_cons. split; [by split|constructor].
  - repeat (apply Forall_cons; split; [by split|]). constructor.
Qed.

Lemma validUTF8_Marshal_PostWrapper p :
  validPost p = true → validUTF8 0 (json.Marshal_PostWrapper p) = true.
Proof.
  intros Hp%validPost_strings. unfold json.Marshal_PostWrapper.
  rewrite Marshal_Post_members.
  apply (validUTF8_append "{"); [reflexivity|].
  apply validUTF8_member; [reflexivity| |reflexivity].
  apply (validUTF8_append "{"); [reflexivity|].
  by apply validUTF8_membersText.
Qed.

(** The escaped payload is a string literal that stands for the JSON text
    of the wrapper. *)
Lemma Unmarshal_string_escapedPayload p :
  validPost p = true →
  json.Unmarshal_string (quoted (escapedPayload p)) EmptyString
  = inr (json.Marshal_PostWrapper p).
Proof.
  intros [Hscan Hunq]%validUTF8_Marshal_PostWrapper%reads_encodeBytes.
  unfold json.Unmarshal_string, json.parse, quoted, escapedPayload.
  cbn [json.scan]. change (json.step (json.MValue, [json.FTop None]) dquote)
    with (Some (json.MString EmptyString, [json.FTop None])).
  cbn [mbind option_bind].
  rewrite Hscan. unfold dq. cbn [json.scan json.step append].
  specialize (Hunq EmptyString). rewrite append_nil_r in Hunq.
  change (Ascii.eqb dquote dquote) with true. cbn iota.
  rewrite Hunq. simpl. by rewrite append_nil_r.
Qed.

Lemma escapedPayload_nonempty p : escapedPayload p ≠ EmptyString.
Proof.
  unfold escapedPayload, json.Marshal_PostWrapper. discriminate.
Qed.

(** The JSON text of the wrapper decodes to the post. *)
Lemma Unmarshal_PostWrapper_Marshal p :
  validPost p = true →
  json.Unmarshal_PostWrapper (json.Marshal_PostWrapper p) = inr p.
Proof.
  intros Hp. unfold json.Unmarshal_PostWrapper.
  assert (json.parse (json.Marshal_PostWrapper p)
          = Some (json.JObject
                    [("post",
                      json.JObject (map (fun f => (fst f, scalarValue (snd f)))
                                        (postFields p)))])) as ->.
  { unfold json.parse, json.Marshal_PostWrapper, json.member.
    change ("{" ++ String dquote ("post" ++ String dquote
              (":" ++ json.Marshal_Post p)) ++ "}")
      with ("{" ++ (dq ++ "post" ++ dq ++ ":") ++ json.Marshal_Post p ++ "}").
    rewrite scan_app.
    change (json.scan (json.MValue, [json.FTop None]) "{")
      with (Some (json.MKeyOrEnd, [json.FObject [] None; json.FTop None])).
    cbn [mbind option_bind]. rewrite scan_app.
    change (json.scan (json.MKeyOrEnd, [json.FObject [] None; json.FTop None])
              (dq ++ "post" ++ dq ++ ":"))
      with (Some (json.MValue, [json.FObject [] (Some "post"); json.FTop None])).
    cbn [mbind option_bind].
    by rewrite (parse_Marshal_Post p _ "}" Hp). }
  destruct (validPost_ints p Hp) as (Hid & Hpub & Hwords).
  cbn [fold_left fst snd mbind option_bind].
  change (json.keyIs "post" "post") with true. cbn iota.
  by rewrite decodePost_fields.
Qed.

(** The claim C6 as it is written fails: a string of a Record is any
    sequence of bytes, and [json.Marshal] writes U+FFFD for a byte that is
    not part of well-formed UTF-8, so that a Record with such a byte does
    not come back as it was, however the JSON text is escaped: the title
    of [postWithLatin1] comes back with the three bytes of U+FFFD in the
    place of its last byte. *)
Lemma C6_round_trip_fails_on_ill_formed_text :
  ExtractPost Node (serve [("u", pageWithPayload postWithLatin1)]) parsed
    Background "u"
  = Returned (postWithReplacement, None)
  ∧ postWithReplacement ≠ postWithLatin1
  ∧ ¬ (∀ r : Post,
         ExtractPost Node (serve [("u", pageWithPayload r)]) parsed Background "u"
         = Returned (r, None)).
Proof.
  assert (ExtractPost Node (serve [("u", pageWithPayload postWithLatin1)]) parsed
            Background "u"
          = Returned (postWithReplacement, None)) as Hrun
    by (vm_compute; reflexivity).
  assert (postWithReplacement ≠ postWithLatin1) as Hne by discriminate.
  split; [exact Hrun|]. split; [exact Hne|].
  intros H. specialize (H postWithLatin1). rewrite Hrun in H.
  apply Hne. congruence.
Qed.

(** C6, amended.  For every Record [r] whose strings are well-formed UTF-8
    (and whose numbers are 64-bit integers), and for every page in whose
    script [extractJSONString] finds the JSON text of the wrapper of [r]
    written as a string literal of JSON, [ExtractPost] returns no error and
    the Record [r] with the two enrichments of the page; on a page without
    a subtitle element and without an image meta tag, such as the page of
    the tests, that is [r] itself, field for field.  The payload of
    [pageWithPayload r] is found by [extractJSONString]. *)
Theorem C6_round_trip_of_well_formed_posts
    (Body : Type) (FetchURL : bool → string → error + Body)
    (NewDocumentFromReader : Body → error + Node)
    (ctx : Context) (pageUrl : string) (body : Body) (doc : Node) (r : Post) :
  FetchURL (ctx O) pageUrl = inr body →
  NewDocumentFromReader body = inr doc →
  extractJSONString doc = Returned (escapedPayload r, None) →
  validPost r = true →
  ExtractPost Body FetchURL NewDocumentFromReader ctx pageUrl
    = Returned (enrichCoverImage doc (enrichSubtitle doc r), None)
  ∧ (subtitleText doc = EmptyString → ogImage doc = None →
     ExtractPost Body FetchURL NewDocumentFromReader ctx pageUrl = Returned (r, None))
  ∧ extractJSONString (pageWithPayload r) = Returned (escapedPayload r, None)
  ∧ subtitleText (pageWithPayload r) = EmptyString
  ∧ ogImage (pageWithPayload r) = None.
Proof.
  intros Hfetch Hdoc Hpayload Hvalid.
  assert (ExtractPost Body FetchURL NewDocumentFromReader ctx pageUrl
          = Returned (enrichCoverImage doc (enrichSubtitle doc r), None)) as Hrun.
  { unfold ExtractPost. rewrite Hfetch, Hdoc, Hpayload.
    rewrite (Unmarshal_string_escapedPayload r Hvalid).
    unfold ToPost. cbn [str].
    by rewrite (Unmarshal_PostWrapper_Marshal r Hvalid). }
  split; [exact Hrun|]. split; [|split; [|split]].
  - intros Hsubtitle Himage. rewrite Hrun.
    unfold enrichSubtitle, enrichCoverImage.
    fold (subtitleText doc). fold (ogImage doc).
    rewrite Hsubtitle, Himage. cbn [isEmpty negb].
    by destruct (isEmpty (CoverImage r)).
  - apply extractJSONString_mockPage, escapedPayload_nonempty.
  - apply subtitleText_mockPage.
  - apply ogImage_mockPage.
Qed.

Lemma C6_round_trip_witness :
  ExtractPost Node (serve [("u", pageWithPayload postWithEscapes)]) parsed
    Background "u"
  = Returned (postWithEscapes, None).
Proof.
  apply (C6_round_trip_of_well_formed_posts Node
           (serve [("u", pageWithPayload postWithEscapes)]) parsed
           Background "u" (pageWithPayload postWithEscapes)
           (pageWithPayload postWithEscapes) postWithEscapes);
    [reflexivity|reflexivity|vm_compute; reflexivity|vm_compute; reflexivity
    |reflexivity|reflexivity].
Defined.
